(** * Execution core of the MongoDB Node.js driver: a shallow embedding

    The development follows the TypeScript sources:
    - the driver's [utils] module ([src/unnamed/part_001]): the [List]
      sequence container, [BufferPool], [makeStateMachine], [HostAddress],
      [supportsRetryableWrites], [MongoDBNamespace], [uuidV4], [csotMin],
      [compareObjectId], [shuffle];
    - the operation executor ([src/unnamed/part_000]): the middleware
      pipeline [pipe(withConnectedClient, withSession, withServer,
      withRetryability, runCommand)] behind [executeOperation];
    - [DisposableStack] ([src/src/helpers.ts]) and the constructor of
      [MongocryptdManager]
      ([src/src/client-side-encryption/mongocryptdManager.ts]).

    JavaScript numbers that hold sizes and counters are modelled as [Z],
    byte buffers as [list byte], strings as [string], objects used as
    dictionaries as [gmap string _].  Thrown exceptions are explicit: every
    fallible function returns an [Outcome]. *)

From Stdlib Require Import ZArith List Bool Lia String Ascii.
From Equations Require Import Equations.
From stdpp Require Import base gmap strings list.
Import ListNotations.
Open Scope Z_scope.

(** ** Outcomes of fallible calls *)

Inductive Outcome (E A : Type) : Type :=
| Ok (a : A)
| Throw (e : E).
Arguments Ok {E A} a.
Arguments Throw {E A} e.

(** A value together with the equation that names it, for definitions
    whose termination argument needs to remember a test. *)
Definition inspect {A} (a : A) : {b | a = b} := exist _ a eq_refl.

(** ** [class List<T>]: the circular doubly-linked sequence container

    The sentinel-headed ring is represented by the sequence of node values
    met when walking [next] from the head, together with the separately
    maintained [count] field.  [head.next === head] is [nodes = []]. *)

Module ListT.

Record List (T : Type) : Type := mkList { nodes : list T; count : Z }.
Arguments mkList {T} nodes count.
Arguments nodes {T} l.
Arguments count {T} l.

Section Ops.
Context {T : Type}.

(** [constructor()] *)
Definition new : List T := mkList [] 0.

(** [get length()] *)
Definition length (l : List T) : Z := count l.

(** [toArray()] *)
Definition toArray (l : List T) : list T := nodes l.

(** [push(value)]: insert at end of list. *)
Definition push (value : T) (l : List T) : List T :=
  mkList (nodes l ++ [value]) (count l + 1).

(** [unshift(value)]: insert at front of list. *)
Definition unshift (value : T) (l : List T) : List T :=
  mkList (value :: nodes l) (count l + 1).

(** [shift()] is [remove(head.next)]: the guard
    [node === this.head || this.length === 0] returns [null]. *)
Definition shift (l : List T) : option T * List T :=
  match nodes l with
  | [] => (None, l)
  | value :: rest =>
      if count l =? 0 then (None, l)
      else (Some value, mkList rest (count l - 1))
  end.

(** [pop()] is [remove(head.prev)]. *)
Definition pop (l : List T) : option T * List T :=
  match rev (nodes l) with
  | [] => (None, l)
  | value :: rest =>
      if count l =? 0 then (None, l)
      else (Some value, mkList (rev rest) (count l - 1))
  end.

(** [first()]: the head's [null] when the list is empty. *)
Definition first (l : List T) : option T := head (nodes l).

(** [last()] *)
Definition last (l : List T) : option T := head (rev (nodes l)).

(** [clear()] *)
Definition clear (l : List T) : List T := mkList [] 0.

(** The representation invariant: [count] is the number of linked nodes. *)
Definition wf (l : List T) : Prop := count l = Z.of_nat (Datatypes.length (nodes l)).

End Ops.
End ListT.

(** ** [class BufferPool] *)

Module BufferPool.
Import ListT.

Definition Buffer : Type := list Byte.byte.

Definition byteLength (b : Buffer) : Z := Z.of_nat (Datatypes.length b).

(** [buffer.subarray(0, end)] and [buffer.subarray(start)] for
    [0 <= start, end]. *)
Definition subarray_to (b : Buffer) (stop : Z) : Buffer := firstn (Z.to_nat stop) b.
Definition subarray_from (b : Buffer) (start : Z) : Buffer := skipn (Z.to_nat start) b.

(** [target.set(source, offset)]: overwrite [target] from [offset] on.
    [read] only calls it with [offset + source.length <= target.length],
    where the runtime raises no [RangeError]. *)
Definition set_at (target source : Buffer) (offset : Z) : Buffer :=
  firstn (Z.to_nat offset) target ++ source
    ++ skipn (Z.to_nat offset + Datatypes.length source) target.

Definition byte_val (b : Byte.byte) : Z := Z.of_N (Byte.to_N b).

(** [buf.readInt32LE(0)]: the first four bytes, least significant first, as
    a signed 32-bit integer; a [RangeError] when fewer than four bytes. *)
Definition int32_of_bytes (b0 b1 b2 b3 : Byte.byte) : Z :=
  let u := Z.lor (byte_val b0)
            (Z.lor (Z.shiftl (byte_val b1) 8)
              (Z.lor (Z.shiftl (byte_val b2) 16) (Z.shiftl (byte_val b3) 24))) in
  if Z.testbit u 31 then u - 2 ^ 32 else u.

Inductive Error : Type :=
| MongoInvalidArgumentError (message : string)
| RangeError.

Definition readInt32LE (b : Buffer) : Outcome Error Z :=
  match b with
  | b0 :: b1 :: b2 :: b3 :: _ => Ok (int32_of_bytes b0 b1 b2 b3)
  | _ => Throw RangeError
  end.

Record BufferPool : Type := mkPool {
  buffers : List Buffer;
  totalByteLength : Z
}.

(** [constructor()] *)
Definition new : BufferPool := mkPool ListT.new 0.

(** [get length()] *)
Definition length (p : BufferPool) : Z := totalByteLength p.

(** [append(buffer)] *)
Definition append (buffer : Buffer) (p : BufferPool) : BufferPool :=
  mkPool (push buffer (buffers p)) (totalByteLength p + byteLength buffer).

(** The bytes held by the pool, in order. *)
Definition contents (p : BufferPool) : Buffer := concat (nodes (buffers p)).

Section Read.

(** [Buffer.allocUnsafe(size)] returns memory whose contents are not
    specified; [uninit i] is the byte found at index [i]. *)
Variable uninit : nat -> Byte.byte.

Definition allocUnsafe (size : Z) : Buffer := map uninit (seq 0 (Z.to_nat size)).

(** [Buffer.alloc(0)] *)
Definition alloc0 : Buffer := [].

(** Termination measure of the [for] loop of [read]: once [bytesRead]
    reaches [size] the loop is over, and before that every iteration that
    does not finish the request drops one node. *)
Definition loop_measure (size bytesRead : Z) (p : BufferPool) : nat :=
  if bytesRead <? size then S (Datatypes.length (nodes (buffers p))) else 0%nat.

(** The loop [for (let bytesRead = 0; bytesRead < size; ) { ... }] of
    [read]; the state is [bytesRead], [result] and the pool. *)
Equations? read_loop (size bytesRead : Z) (result : Buffer) (p : BufferPool)
  : Buffer * BufferPool by wf (loop_measure size bytesRead p) lt :=
read_loop size bytesRead result p with inspect (bytesRead <? size) := {
  | exist _ false _ => (result, p)
  | exist _ true Hlt with inspect (shift (buffers p)) := {
    | exist _ (pair None _) _ => (result, p)
    | exist _ (pair (Some buffer) bufs') Hs =>
        let bytesRemaining := size - bytesRead in
        let bytesReadable := Z.min bytesRemaining (byteLength buffer) in
        let bytes := subarray_to buffer bytesReadable in
        let result' := set_at result bytes bytesRead in
        let bytesRead' := bytesRead + bytesReadable in
        let total' := totalByteLength p - bytesReadable in
        if Z_lt_dec bytesReadable (byteLength buffer)
        then read_loop size bytesRead' result'
               (mkPool (unshift (subarray_from buffer bytesReadable) bufs') total')
        else read_loop size bytesRead' result' (mkPool bufs' total') } }.
Proof.
  all: assert (Hn : S (Datatypes.length (nodes bufs')) =
                    Datatypes.length (nodes (buffers p))).
  all: try (unfold shift in Hs; destruct (nodes (buffers p)) as [|b0 rest];
            [discriminate Hs|]; destruct (count (buffers p) =? 0);
            [discriminate Hs|]; injection Hs as _ <-; reflexivity).
  all: unfold loop_measure; rewrite Hlt; cbn [buffers nodes unshift Datatypes.length].
  - assert (Hdone : (bytesRead' <? size) = false).
    { apply Z.ltb_ge. apply Z.ltb_lt in Hlt.
      subst bytesRead' bytesReadable bytesRemaining. lia. }
    rewrite Hdone. lia.
  - destruct (bytesRead' <? size); lia.
Qed.

(** The message ['Argument "size" must be a non-negative number']. *)
Definition dquote : string := String (ascii_of_nat 34) EmptyString.
Definition read_size_message : string :=
  "Argument " +:+ dquote +:+ "size" +:+ dquote +:+ " must be a non-negative number".

(** [read(size)] *)
Definition read (size : Z) (p : BufferPool) : Outcome Error Buffer * BufferPool :=
  if size <? 0 then
    (Throw (MongoInvalidArgumentError read_size_message), p)
  else if size >? totalByteLength p then (Ok alloc0, p)
  else
    let '(result, p') := read_loop size 0 (allocUnsafe size) p in
    (Ok result, p').

(** The second half of [getInt32()], "an int32 is split across buffers":
    [read(4)], decode, and put the returned buffer back on top. *)
Definition getInt32_split (p : BufferPool) : Outcome Error (option Z) * BufferPool :=
  match read 4 p with
  | (Throw e, p1) => (Throw e, p1)
  | (Ok top4Bytes, p1) =>
      match readInt32LE top4Bytes with
      | Throw e => (Throw e, p1)
      | Ok value =>
          (Ok (Some value),
           mkPool (unshift top4Bytes (buffers p1)) (totalByteLength p1 + 4))
      end
  end.

(** [getInt32()] *)
Definition getInt32 (p : BufferPool) : Outcome Error (option Z) * BufferPool :=
  if totalByteLength p <? 4 then (Ok None, p)
  else
    match first (buffers p) with
    | Some firstBuffer =>
        if 4 <=? byteLength firstBuffer then
          match readInt32LE firstBuffer with
          | Ok v => (Ok (Some v), p)
          | Throw e => (Throw e, p)
          end
        else getInt32_split p
    | None => getInt32_split p
    end.

End Read.

(** The class invariant: the list's [count] is its number of nodes and
    [totalByteLength] is the number of buffered bytes. *)
Definition wf (p : BufferPool) : Prop :=
  ListT.wf (buffers p) /\ totalByteLength p = byteLength (contents p).

(** A fresh pool to which [chunks] were appended in order. *)
Definition appendAll (chunks : list Buffer) : BufferPool :=
  fold_left (fun p chunk => append chunk p) chunks new.

End BufferPool.

(** ** [makeStateMachine]: the state transition guard *)

Module StateMachine.

(** [interface StateTable { [key: string]: string[] }]: the own properties
    of the table are a [gmap string (list string)]; its prototype is
    [Object.prototype], whose members a property read finds as well. *)

Inductive Event : Type :=
| stateChanged (previous current : string).

(** [interface ObjectWithState]: [s.state], and the notifications handed
    to [emit] so far. *)
Record ObjectWithState : Type := mkTarget {
  state : string;
  emitted : list Event
}.

Inductive Error : Type :=
| MongoRuntimeError (message : string)
| TypeError (message : string).

(** The names of the members every object inherits from
    [Object.prototype]. *)
Definition Object_prototype_members : list string :=
  ["constructor"; "__defineGetter__"; "__defineSetter__"; "hasOwnProperty";
   "__lookupGetter__"; "__lookupSetter__"; "isPrototypeOf";
   "propertyIsEnumerable"; "toString"; "valueOf"; "__proto__";
   "toLocaleString"].

(** What a property read [stateTable[key]] finds: an own entry, a member
    inherited from [Object.prototype] (a function, or the prototype object
    itself for [__proto__]), or [undefined]. *)
Inductive Property : Type :=
| ownEntry (legalStates : list string)
| inheritedMember
| undefined.

(** [stateTable[key]] *)
Definition get (stateTable : gmap string (list string)) (key : string) : Property :=
  match stateTable !! key with
  | Some legalStates => ownEntry legalStates
  | None =>
      if existsb (String.eqb key) Object_prototype_members then inheritedMember
      else undefined
  end.

(** [array.indexOf(x)]: the first index holding [x], or [-1]. *)
Fixpoint indexOf (l : list string) (x : string) : Z :=
  match l with
  | [] => -1
  | y :: rest =>
      if String.eqb y x then 0
      else let i := indexOf rest x in if i <? 0 then -1 else i + 1
  end.

(** [`${array}`] is [array.join(',')]. *)
Fixpoint join (sep : string) (l : list string) : string :=
  match l with
  | [] => EmptyString
  | [x] => x
  | x :: rest => x +:+ sep +:+ join sep rest
  end.

Definition illegal_transition_message (current newState : string)
    (legalStates : list string) : string :=
  "illegal state transition from [" +:+ current +:+ "] => [" +:+ newState
    +:+ "], allowed: [" +:+ join "," legalStates +:+ "]".

(** [target.emit('stateChanged', previous, current)] *)
Definition emit (e : Event) (target : ObjectWithState) : ObjectWithState :=
  mkTarget (state target) (emitted target ++ [e]).

(** [makeStateMachine(stateTable)] returns [stateTransition].  An inherited
    member is truthy and has no [indexOf], so calling it is a [TypeError]. *)
Definition makeStateMachine (stateTable : gmap string (list string))
    (target : ObjectWithState) (newState : string)
  : Outcome Error unit * ObjectWithState :=
  let legalStates := get stateTable (state target) in
  let proceed :=
    let target1 := emit (stateChanged (state target) newState) target in
    (Ok tt, mkTarget newState (emitted target1)) in
  match legalStates with
  | ownEntry legal =>
      if indexOf legal newState <? 0 then
        (Throw (MongoRuntimeError
                  (illegal_transition_message (state target) newState legal)),
         target)
      else proceed
  | inheritedMember =>
      (Throw (TypeError "legalStates.indexOf is not a function"), target)
  | undefined => proceed
  end.

(** The table [{ A: ['B'], B: ['A', 'C'] }]. *)
Definition example_table : gmap string (list string) :=
  <["A" := ["B"]]> (<["B" := ["A"; "C"]]> ∅).

End StateMachine.

(** ** [class HostAddress] *)

Module HostAddress.

(** *** String helpers of the JavaScript runtime

    A string is modelled by its octets.  For an ASCII string these are its
    code units; outside ASCII only the results of [decodeURIComponent]
    occur, held as their UTF-8 octets.  What the runtime does to other
    strings is outside this model, and the constructor then answers
    [None]. *)

Definition chars (s : string) : list ascii := list_ascii_of_string s.
Definition str (l : list ascii) : string := string_of_list_ascii l.

Definition code (c : ascii) : N := N_of_ascii c.

(** [s.split(sep)] for a one-character separator. *)
Fixpoint split_chars (sep : ascii) (l : list ascii) (cur : list ascii)
  : list (list ascii) :=
  match l with
  | [] => [rev cur]
  | c :: rest =>
      if Ascii.eqb c sep then rev cur :: split_chars sep rest []
      else split_chars sep rest (c :: cur)
  end.

Definition split (sep : ascii) (s : string) : list string :=
  map str (split_chars sep (chars s) []).

(** [parts.join(sep)] *)
Fixpoint join (sep : string) (l : list string) : string :=
  match l with
  | [] => EmptyString
  | [x] => x
  | x :: rest => x +:+ sep +:+ join sep rest
  end.

Definition startsWith (s pre : string) : bool := String.prefix pre s.

Definition endsWith (s suf : string) : bool :=
  String.prefix (str (rev (chars suf))) (str (rev (chars s))).

Definition lower_char (c : ascii) : ascii :=
  if ((65 <=? code c) && (code c <=? 90))%N then ascii_of_N (code c + 32) else c.

(** ASCII lower-casing, as the URL standard applies it. *)
Definition ascii_lowercase (l : list ascii) : list ascii := map lower_char l.

Definition is_ascii (c : ascii) : bool := (code c <? 128)%N.

(** [s.toLowerCase()] on an ASCII string; [None] for any other string,
    whose case mapping is outside this model. *)
Definition toLowerCase (s : string) : option string :=
  if forallb is_ascii (chars s) then Some (str (ascii_lowercase (chars s)))
  else None.

Definition strlen (s : string) : Z := Z.of_nat (String.length s).

(** [s.substring(start, end)]: both indices are clamped to
    [0 .. s.length] and swapped when [start > end]. *)
Definition substring (s : string) (start stop : Z) : string :=
  let clamp i := Z.max 0 (Z.min i (strlen s)) in
  let a := Z.min (clamp start) (clamp stop) in
  let b := Z.max (clamp start) (clamp stop) in
  String.substring (Z.to_nat a) (Z.to_nat (b - a)) s.

Definition hex_value (c : ascii) : option N :=
  let n := code c in
  if ((48 <=? n) && (n <=? 57))%N then Some (n - 48)%N
  else if ((65 <=? n) && (n <=? 70))%N then Some (n - 55)%N
  else if ((97 <=? n) && (n <=? 102))%N then Some (n - 87)%N
  else None.

(** An escape [%XY] and the octet it stands for. *)
Definition escape (p h k : ascii) : option N :=
  if Ascii.eqb p "%" then
    match hex_value h, hex_value k with
    | Some x, Some y => Some (16 * x + y)%N
    | _, _ => None
    end
  else None.

Definition is_continuation (b : N) : bool := ((128 <=? b) && (b <=? 191))%N.

(** Well-formed UTF-8 sequences of two, three and four octets. *)
Definition valid_utf8_2 (a b : N) : bool :=
  ((194 <=? a) && (a <=? 223))%N && is_continuation b.

Definition valid_utf8_3 (a b c : N) : bool :=
  (((a =? 224) && (160 <=? b) && (b <=? 191))
   || ((225 <=? a) && (a <=? 236) && is_continuation b)
   || ((a =? 237) && (128 <=? b) && (b <=? 159))
   || ((238 <=? a) && (a <=? 239) && is_continuation b))%N
  && is_continuation c.

Definition valid_utf8_4 (a b c d : N) : bool :=
  (((a =? 240) && (144 <=? b) && (b <=? 191))
   || ((241 <=? a) && (a <=? 243) && is_continuation b)
   || ((a =? 244) && (128 <=? b) && (b <=? 143)))%N
  && is_continuation c && is_continuation d.

Definition octets (l : list N) : list ascii := map ascii_of_N l.

(** [decodeURIComponent(s)] on an ASCII string.  An escape below 128 is
    that character.  An escape from 128 on opens a UTF-8 sequence: the
    octets that continue it must be escapes too and the sequence must be
    well formed; the code point it encodes is kept as these octets.
    Anything else is a [URIError] ([None]). *)
Fixpoint decode_chars (l : list ascii) : option (list ascii) :=
  match l with
  | [] => Some []
  | c :: rest =>
      if Ascii.eqb c "%" then
        match rest with
        | h :: k :: rest2 =>
            match escape c h k with
            | None => None
            | Some a =>
                if (a <? 128)%N then option_map (cons (ascii_of_N a)) (decode_chars rest2)
                else if (a <? 192)%N then None
                else if (a <? 224)%N then
                  match rest2 with
                  | p1 :: h1 :: k1 :: rest3 =>
                      match escape p1 h1 k1 with
                      | Some b =>
                          if valid_utf8_2 a b
                          then option_map (app (octets [a; b])) (decode_chars rest3)
                          else None
                      | None => None
                      end
                  | _ => None
                  end
                else if (a <? 240)%N then
                  match rest2 with
                  | p1 :: h1 :: k1 :: p2 :: h2 :: k2 :: rest4 =>
                      match escape p1 h1 k1, escape p2 h2 k2 with
                      | Some b, Some c =>
                          if valid_utf8_3 a b c
                          then option_map (app (octets [a; b; c])) (decode_chars rest4)
                          else None
                      | _, _ => None
                      end
                  | _ => None
                  end
                else if (a <? 248)%N then
                  match rest2 with
                  | p1 :: h1 :: k1 :: p2 :: h2 :: k2 :: p3 :: h3 :: k3 :: rest5 =>
                      match escape p1 h1 k1, escape p2 h2 k2, escape p3 h3 k3 with
                      | Some b, Some c, Some d =>
                          if valid_utf8_4 a b c d
                          then option_map (app (octets [a; b; c; d])) (decode_chars rest5)
                          else None
                      | _, _, _ => None
                      end
                  | _ => None
                  end
                else None
            end
        | _ => None
        end
      else option_map (cons c) (decode_chars rest)
  end.

Definition decodeURIComponent (s : string) : option string :=
  option_map str (decode_chars (chars s)).

Definition is_digit (c : ascii) : bool := ((48 <=? code c) && (code c <=? 57))%N.

Fixpoint digits_value (l : list ascii) (acc : Z) : Z :=
  match l with
  | [] => acc
  | c :: rest => digits_value rest (10 * acc + Z.of_N (code c - 48))
  end.

Fixpoint leading_digits (l : list ascii) : list ascii :=
  match l with
  | [] => []
  | c :: rest => if is_digit c then c :: leading_digits rest else []
  end.

(** A JavaScript number as far as a port needs it. *)
Inductive number : Type :=
| Num (n : Z)
| NaN.

(** [Number.parseInt(s, 10)] on a string without sign or leading white
    space: the value of the leading decimal digits, [NaN] when there are
    none. *)
Definition parseInt (s : string) : number :=
  match leading_digits (chars s) with
  | [] => NaN
  | ds => Num (digits_value ds 0)
  end.

(** *** [new URL(input)] of the runtime

    The WHATWG URL parser, for ASCII inputs of the only shape the
    constructor builds: the non-special scheme [iLoveJS] followed by [//]
    and an authority.  Only the [hostname] and [port] getters are used. *)

Record URLRecord : Type := mkURL { url_hostname : string; url_port : string }.

Definition is_tab_or_newline (c : ascii) : bool :=
  ((code c =? 9) || (code c =? 10) || (code c =? 13))%N.

Definition is_c0_or_space (c : ascii) : bool := (code c <=? 32)%N.

Fixpoint drop_while (f : ascii -> bool) (l : list ascii) : list ascii :=
  match l with
  | [] => []
  | c :: rest => if f c then drop_while f rest else l
  end.

Definition is_authority_end (c : ascii) : bool :=
  Ascii.eqb c "/" || Ascii.eqb c "?" || Ascii.eqb c "#".

Fixpoint take_authority (l : list ascii) : list ascii :=
  match l with
  | [] => []
  | c :: rest => if is_authority_end c then [] else c :: take_authority rest
  end.

(** What follows the last [@] of the authority, when there is one. *)
Fixpoint after_last_at (l : list ascii) : option (list ascii) :=
  match l with
  | [] => None
  | c :: rest =>
      match after_last_at rest with
      | Some tail => Some tail
      | None => if Ascii.eqb c "@" then Some rest else None
      end
  end.

(** Host state: the buffer up to the first [:] outside brackets, and what
    follows that [:]. *)
Fixpoint scan_host (l : list ascii) (insideBrackets : bool) (buffer : list ascii)
  : list ascii * option (list ascii) :=
  match l with
  | [] => (rev buffer, None)
  | c :: rest =>
      if Ascii.eqb c ":" && negb insideBrackets then (rev buffer, Some rest)
      else
        let inside :=
          if Ascii.eqb c "[" then true
          else if Ascii.eqb c "]" then false else insideBrackets in
        scan_host rest inside (c :: buffer)
  end.

Definition forbidden_host_code_point (c : ascii) : bool :=
  existsb (N.eqb (code c))
    [0; 9; 10; 13; 32; 35; 47; 58; 60; 62; 63; 64; 91; 92; 93; 94; 124]%N.

Definition hex_digit (n : N) : ascii :=
  if (n <? 10)%N then ascii_of_N (48 + n) else ascii_of_N (55 + n).

(** UTF-8 percent-encoding with the C0 control percent-encode set. *)
Definition percent_encode_c0 (c : ascii) : list ascii :=
  if ((code c <? 32) || (126 <? code c))%N
  then ["%"%char; hex_digit (code c / 16); hex_digit (code c mod 16)]
  else [c].

(** **** The IPv6 parser and serializer of the URL standard *)

(** Up to [n] hexadecimal digits: their value, their number and what
    follows. *)
Fixpoint read_hex (n : nat) (l : list ascii) (value : Z) (length : nat)
  : Z * nat * list ascii :=
  match n, l with
  | S n', c :: rest =>
      match hex_value c with
      | Some d => read_hex n' rest (value * 16 + Z.of_N d) (S length)
      | None => (value, length, l)
      end
  | _, _ => (value, length, l)
  end.

(** The digits of one part of a trailing IPv4 address; a part has no
    leading zero and is at most 255. *)
Fixpoint read_ipv4_piece (l : list ascii) (ipv4Piece : option Z)
  : option (option Z * list ascii) :=
  match l with
  | c :: rest =>
      if is_digit c then
        let number := Z.of_N (code c - 48) in
        match ipv4Piece with
        | None => read_ipv4_piece rest (Some number)
        | Some piece =>
            if piece =? 0 then None
            else if 255 <? piece * 10 + number then None
            else read_ipv4_piece rest (Some (piece * 10 + number))
        end
      else Some (ipv4Piece, l)
  | [] => Some (ipv4Piece, [])
  end.

Definition piece_at (address : list Z) (i : nat) : Z := nth i address 0.

(** The parts of a trailing IPv4 address, two to a piece; [remaining] is
    four minus [numbersSeen]. *)
Fixpoint ipv4_loop (remaining numbersSeen : nat) (l : list ascii) (address : list Z)
    (pieceIndex : nat) : option (list Z * nat) :=
  match l with
  | [] => if Nat.eqb numbersSeen 4 then Some (address, pieceIndex) else None
  | c :: rest =>
      let afterDot :=
        if Nat.ltb 0 numbersSeen then
          if Ascii.eqb c "." && Nat.ltb numbersSeen 4 then Some rest else None
        else Some l in
      match afterDot with
      | None => None
      | Some [] => None
      | Some (d :: rest1) =>
          if is_digit d then
            match read_ipv4_piece (d :: rest1) None with
            | Some (Some ipv4Piece, rest2) =>
                let address :=
                  <[pieceIndex := piece_at address pieceIndex * 256 + ipv4Piece]>
                    address in
                let numbersSeen := S numbersSeen in
                let pieceIndex :=
                  if Nat.eqb numbersSeen 2 || Nat.eqb numbersSeen 4
                  then S pieceIndex else pieceIndex in
                match remaining with
                | S remaining =>
                    ipv4_loop remaining numbersSeen rest2 address pieceIndex
                | O => None
                end
            | _ => None
            end
          else None
      end
  end.

(** The main loop; every round fills a piece, so [fuel], eight at the
    start, outlasts the eight pieces. *)
Fixpoint ipv6_loop (fuel : nat) (l : list ascii) (address : list Z)
    (pieceIndex : nat) (compress : option nat)
  : option (list Z * nat * option nat) :=
  match l with
  | [] => Some (address, pieceIndex, compress)
  | c :: rest =>
      if Nat.eqb pieceIndex 8 then None
      else
        match fuel with
        | O => None
        | S fuel =>
            if Ascii.eqb c ":" then
              match compress with
              | Some _ => None
              | None =>
                  ipv6_loop fuel rest address (S pieceIndex) (Some (S pieceIndex))
              end
            else
              let '(value, length, l1) := read_hex 4 l 0 0 in
              match l1 with
              | [] =>
                  ipv6_loop fuel [] (<[pieceIndex := value]> address)
                    (S pieceIndex) compress
              | c1 :: rest1 =>
                  if Ascii.eqb c1 "." then
                    if Nat.eqb length 0 then None
                    else if Nat.ltb 6 pieceIndex then None
                    else
                      match ipv4_loop 4 0 l address pieceIndex with
                      | Some (address, pieceIndex) =>
                          Some (address, pieceIndex, compress)
                      | None => None
                      end
                  else if Ascii.eqb c1 ":" then
                    match rest1 with
                    | [] => None
                    | _ =>
                        ipv6_loop fuel rest1 (<[pieceIndex := value]> address)
                          (S pieceIndex) compress
                    end
                  else None
              end
        end
  end.

(** Moving the pieces after the compression to the end. *)
Fixpoint compress_swaps (swaps pieceIndex compress : nat) (address : list Z)
  : list Z :=
  match swaps with
  | O => address
  | S swaps' =>
      if Nat.eqb pieceIndex 0 then address
      else
        let other := (compress + swaps - 1)%nat in
        let a := piece_at address pieceIndex in
        let b := piece_at address other in
        compress_swaps swaps' (pieceIndex - 1) compress
          (<[other := a]> (<[pieceIndex := b]> address))
  end.

(** The IPv6 parser: eight 16-bit pieces, or failure. *)
Definition parse_ipv6 (input : list ascii) : option (list Z) :=
  let address := repeat 0 8 in
  let start :=
    match input with
    | c :: rest =>
        if Ascii.eqb c ":" then
          match rest with
          | c' :: rest' =>
              if Ascii.eqb c' ":" then Some (rest', 1%nat, Some 1%nat) else None
          | [] => None
          end
        else Some (input, 0%nat, None)
    | [] => Some (input, 0%nat, None)
    end in
  match start with
  | None => None
  | Some (l, pieceIndex, compress) =>
      match ipv6_loop 8 l address pieceIndex compress with
      | None => None
      | Some (address, pieceIndex, Some compress) =>
          Some (compress_swaps (pieceIndex - compress) 7 compress address)
      | Some (address, pieceIndex, None) =>
          if Nat.eqb pieceIndex 8 then Some address else None
      end
  end.

Definition lower_hex_digit (n : Z) : ascii :=
  if n <? 10 then ascii_of_N (Z.to_N (48 + n)) else ascii_of_N (Z.to_N (87 + n)).

(** A piece in hexadecimal, lower case, without leading zeros. *)
Definition hex_of_piece (p : Z) : list ascii :=
  let d3 := p / 4096 in
  let d2 := (p / 256) mod 16 in
  let d1 := (p / 16) mod 16 in
  let d0 := p mod 16 in
  if 0 <? d3 then map lower_hex_digit [d3; d2; d1; d0]
  else if 0 <? d2 then map lower_hex_digit [d2; d1; d0]
  else if 0 <? d1 then map lower_hex_digit [d1; d0]
  else [lower_hex_digit d0].

(** The start of the first longest run of two or more zero pieces. *)
Definition better (current best : option (nat * nat)) : option (nat * nat) :=
  match current with
  | Some (start, n) =>
      if Nat.ltb 1 n && Nat.ltb (match best with Some (_, m) => m | None => 0%nat end) n
      then current else best
  | None => best
  end.

Fixpoint find_compress (l : list Z) (index : nat) (current best : option (nat * nat))
  : option nat :=
  match l with
  | [] => option_map fst (better current best)
  | p :: rest =>
      if p =? 0 then
        find_compress rest (S index)
          (Some (match current with
                 | Some (start, n) => (start, S n)
                 | None => (index, 1%nat)
                 end)) best
      else find_compress rest (S index) None (better current best)
  end.

Fixpoint serialize_pieces (l : list Z) (pieceIndex : nat) (compress : option nat)
    (ignore0 : bool) : list ascii :=
  match l with
  | [] => []
  | p :: rest =>
      if ignore0 && (p =? 0) then serialize_pieces rest (S pieceIndex) compress true
      else
        match compress with
        | Some c =>
            if Nat.eqb c pieceIndex then
              (if Nat.eqb pieceIndex 0 then [":"%char; ":"%char] else [":"%char])
                ++ serialize_pieces rest (S pieceIndex) compress true
            else
              hex_of_piece p
                ++ (if Nat.eqb pieceIndex 7 then [] else [":"%char])
                ++ serialize_pieces rest (S pieceIndex) compress false
        | None =>
            hex_of_piece p
              ++ (if Nat.eqb pieceIndex 7 then [] else [":"%char])
              ++ serialize_pieces rest (S pieceIndex) compress false
        end
  end.

(** The IPv6 serializer. *)
Definition serialize_ipv6 (address : list Z) : list ascii :=
  serialize_pieces address 0 (find_compress address 0 None None) false.

(** The host parser for a non-special scheme; the result is the serialised
    host: an IPv6 address in brackets, or the opaque host. *)
Definition parse_host (buffer : list ascii) : option (list ascii) :=
  if match buffer with c :: _ => Ascii.eqb c "[" | [] => false end then
    match rev (tl buffer) with
    | c :: rinner =>
        if Ascii.eqb c "]" then
          match parse_ipv6 (rev rinner) with
          | Some address => Some ("["%char :: serialize_ipv6 address ++ ["]"%char])
          | None => None
          end
        else None
    | [] => None
    end
  else if existsb forbidden_host_code_point buffer then None
  else Some (flat_map percent_encode_c0 buffer).

(** Port state: only digits, at most 65535; serialised without leading
    zeros, and as the empty string when no digit was given. *)
Definition parse_port (l : list ascii) : option (list ascii) :=
  if negb (forallb is_digit l) then None
  else
    match l with
    | [] => Some []
    | _ =>
        if 65535 <? digits_value l 0 then None
        else
          match drop_while (Ascii.eqb "0") l with
          | [] => Some ["0"%char]
          | ds => Some ds
          end
    end.

Definition parse_authority (l : list ascii) : option URLRecord :=
  let authority := take_authority l in
  let hostport :=
    match after_last_at authority with
    | Some tail => match tail with [] => None | _ => Some tail end
    | None => Some authority
    end in
  match hostport with
  | None => None
  | Some hp =>
      match scan_host hp false [] with
      | (buffer, None) =>
          match parse_host buffer with
          | Some h => Some (mkURL (str h) EmptyString)
          | None => None
          end
      | (buffer, Some portText) =>
          match buffer with
          | [] => None
          | _ =>
              match parse_host buffer, parse_port portText with
              | Some h, Some pt => Some (mkURL (str h) (str pt))
              | _, _ => None
              end
          end
      end
  end.

(** [new URL(input)]; [None] is the [TypeError] of an invalid URL. *)
Definition URL (input : string) : option URLRecord :=
  let cleaned :=
    List.filter (fun c => negb (is_tab_or_newline c))
      (rev (drop_while is_c0_or_space (rev (drop_while is_c0_or_space (chars input))))) in
  if String.eqb (str (ascii_lowercase (firstn 10 cleaned))) "ilovejs://"
  then parse_authority (skipn 10 cleaned)
  else None.

(** *** The class *)

Inductive Error : Type :=
| MongoRuntimeError (message : string)
| MongoParseError (message : string)
| URIError.

Record HostAddress : Type := mkHostAddress {
  host : option string;
  port : option number;
  socketPath : option string;
  isIPv6 : bool
}.

(** [constructor(hostString)]; [None] where the model of the runtime's
    strings ends: a [hostString] that is not ASCII, or a decoded host name
    that is not. *)
Definition new (hostString : string) : option (Outcome Error HostAddress) :=
  if negb (forallb is_ascii (chars hostString)) then None
  else
    let escapedHost := join "%20" (split " " hostString) in
    if endsWith escapedHost ".sock" then
      match decodeURIComponent escapedHost with
      | None => Some (Throw URIError)
      | Some decoded => Some (Ok (mkHostAddress None None (Some decoded) false))
      end
    else
      let urlString := "iLoveJS://" +:+ escapedHost in
      match URL urlString with
      | None =>
          Some (Throw (MongoRuntimeError
                         ("Unable to parse " +:+ escapedHost +:+ " with URL")))
      | Some url =>
          let hostname := url_hostname url in
          let port := url_port url in
          match decodeURIComponent hostname with
          | None => Some (Throw URIError)
          | Some decoded =>
              match toLowerCase decoded with
              | None => None
              | Some normalized =>
                  let bracketed :=
                    startsWith normalized "[" && endsWith normalized "]" in
                  let normalized :=
                    if bracketed then substring normalized 1 (strlen hostname - 1)
                    else normalized in
                  match toLowerCase normalized with
                  | None => None
                  | Some this_host =>
                      let this_port :=
                        if negb (String.eqb port EmptyString) then parseInt port
                        else Num 27017 in
                      match this_port with
                      | Num 0 =>
                          Some (Throw (MongoParseError
                                         "Invalid port (zero) with hostname"))
                      | _ =>
                          Some (Ok (mkHostAddress (Some this_host) (Some this_port)
                                      None bracketed))
                      end
                  end
              end
          end
      end.

(** [static fromString(s)] *)
Definition fromString (s : string) : option (Outcome Error HostAddress) := new s.

(** The canonical form of [example.com] on the default port. *)
Definition example_com : HostAddress :=
  mkHostAddress (Some "example.com") (Some (Num 27017)) None false.

End HostAddress.

(** ** [executeOperation]: the staged execution pipeline *)

Module ExecuteOperation.

(** *** Errors

    A thrown value is either an instance of [MongoError] (with the class it
    was constructed from, its [code] and its error labels) or any other
    JavaScript value. *)

Inductive MongoErrorClass : Type :=
| MongoErrorBase
| MongoServerError
| MongoNetworkError
| MongoRuntimeError
| MongoCompatibilityError
| MongoExpiredSessionError
| MongoNotConnectedError
| MongoTransactionError
| MongoUnexpectedServerResponseError.

Record MongoError : Type := mkMongoError {
  errorClass : MongoErrorClass;
  message : string;
  code : option Z;
  errorLabels : list string
}.

Inductive Thrown : Type :=
| Mongo (e : MongoError)
| Other (description : string).

Definition newError (c : MongoErrorClass) (msg : string) : Thrown :=
  Mongo (mkMongoError c msg None []).

(** [error.hasErrorLabel(label)] *)
Definition hasErrorLabel (e : MongoError) (label : string) : bool :=
  existsb (String.eqb label) (errorLabels e).

(** [error instanceof MongoNetworkError] *)
Definition isNetworkError (e : MongoError) : bool :=
  match errorClass e with
  | MongoNetworkError => true
  | _ => false
  end.

(** Modelled from the spec: [MongoErrorLabel.NoWritesPerformed] of
    [error.ts], the "no writes performed" marker. *)
Definition NoWritesPerformed : string := "NoWritesPerformed".

(** Modelled from the spec: [MONGODB_ERROR_CODES.IllegalOperation] of
    [error.ts], the fixed MMAPv1 code; the prose test of the repository
    configures it as [errorCode: 20]. *)
Definition MMAPv1_RETRY_WRITES_ERROR_CODE : Z := 20.

Definition MMAPv1_RETRY_WRITES_ERROR_MESSAGE : string :=
  "This MongoDB deployment does not support retryable writes. Please add retryWrites=false to your connection string.".

(** *** Collaborating objects *)

Inductive ServerType : Type :=
| Standalone | Mongos | RSPrimary | RSSecondary | LoadBalancer | Unknown.

Record Server : Type := mkServer {
  loadBalanced : bool;
  logicalSessionTimeoutMinutes : option Z;
  type : ServerType
}.

(** [supportsRetryableWrites(server)] of [utils.ts] *)
Definition supportsRetryableWrites (server : option Server) : bool :=
  match server with
  | None => false
  | Some server =>
      if loadBalanced server then true
      else
        match logicalSessionTimeoutMinutes server with
        | Some _ =>
            match type server with
            | Standalone => false
            | _ => true
            end
        | None => false
        end
  end.

Inductive ReadPreference : Type :=
| primary | primaryPreferred | secondary | secondaryPreferred | nearest.

(** [readPreference.equals(other)], on the mode. *)
Definition ReadPreference_equals (a b : ReadPreference) : bool :=
  match a, b with
  | primary, primary | primaryPreferred, primaryPreferred
  | secondary, secondary | secondaryPreferred, secondaryPreferred
  | nearest, nearest => true
  | _, _ => false
  end.

Inductive Selector : Type :=
| byReadPreference (rp : ReadPreference)
| sameServerSelector (description : option Server)
| secondaryWritableServerSelector (wireVersion : Z) (rp : option ReadPreference).

Inductive Aspect : Type :=
| READ_OPERATION | WRITE_OPERATION | RETRYABLE | CURSOR_CREATING
| MUST_SELECT_SAME_SERVER.

Definition Aspect_eqb (a b : Aspect) : bool :=
  match a, b with
  | READ_OPERATION, READ_OPERATION | WRITE_OPERATION, WRITE_OPERATION
  | RETRYABLE, RETRYABLE | CURSOR_CREATING, CURSOR_CREATING
  | MUST_SELECT_SAME_SERVER, MUST_SELECT_SAME_SERVER => true
  | _, _ => false
  end.

(** Sessions live in a store and are held by reference: the caller, the
    operation and the context all see one object. *)
Definition SessionRef : Type := nat.
Definition Symbol : Type := nat.

(** Modelled from the spec: the fields and methods of [ClientSession]
    ([sessions.ts]) that the pipeline reads or calls. *)
Record ClientSession : Type := mkSession {
  owner : option Symbol;
  explicit : bool;
  hasEnded : bool;
  snapshotEnabled : bool;
  isPinned : bool;
  inTransaction : bool;
  transaction_isCommitted : bool;
  txnNumber : Z
}.

Definition Document : Type := string.

Record Operation : Type := mkOperation {
  isAbstractOperation : bool;
  aspects : list Aspect;
  session : option SessionRef;
  options_session : option SessionRef;
  options_willRetryWrite : bool;
  readPreference : option ReadPreference;
  bypassPinningCheck : bool;
  trySecondaryWrite : bool;
  canRetryRead : bool;
  canRetryWrite : bool;
  server : option Server
}.

(** [operation.hasAspect(aspect)] *)
Definition hasAspect (op : Operation) (a : Aspect) : bool :=
  existsb (Aspect_eqb a) (aspects op).

Record Topology : Type := mkTopology {
  supportsSnapshotReads : bool;
  commonWireVersion : Z;
  retryReads : bool;
  retryWrites : bool
}.

(** What the pipeline does to its collaborators, in order. *)
Inductive Event : Type :=
| EvConnect (rejected : option Thrown)
| EvStartSession (s : SessionRef) (owner : Symbol)
| EvUnpin (s : SessionRef) (force : bool)
| EvSelectServer (selector : option Selector) (s : option SessionRef)
    (result : Outcome Thrown Server)
| EvIncrementTransactionNumber (s : SessionRef)
| EvExecute (server : option Server) (s : option SessionRef)
    (result : Outcome Thrown Document)
| EvEndSession (s : SessionRef) (rejected : option Thrown).

(** The [context] record threaded through the middleware. *)
Record Context : Type := mkContext {
  ctx_session : option SessionRef;
  ctx_owner : option Symbol;
  ctx_readPreference : option ReadPreference;
  ctx_inTransaction : bool;
  ctx_server : option Server;
  ctx_selector : option Selector;
  ctx_result : option Document
}.

Record World : Type := mkWorld {
  topology : option Topology;       (* client.topology *)
  hasBeenClosed : bool;             (* client.s.hasBeenClosed *)
  skipPingOnConnect : bool;         (* client.s.options[@@mdb.skipPingOnConnect] *)
  sessions : list ClientSession;    (* the session objects *)
  operation : Operation;
  context : Context;
  nextSymbol : Symbol;
  trace : list Event
}.

(** The answers of the collaborators; each may depend on everything the
    pipeline did before. *)
Record Env : Type := mkEnv {
  env_connect : list Event -> Outcome Thrown (option Topology);
  env_shouldCheckForSessionSupport : list Event -> bool;
  env_hasSessionSupport : list Event -> bool;
  env_selectServer : list Event -> option Selector -> option SessionRef -> Outcome Thrown Server;
  env_executeAsync : list Event -> option Server -> option SessionRef -> Outcome Thrown Document;
  env_endSession : list Event -> SessionRef -> option Thrown
}.

(** *** Observations on traces *)

(** The outcomes of the invocations of the operation, in order. *)
Definition executions (t : list Event) : list (Outcome Thrown Document) :=
  flat_map (fun e => match e with EvExecute _ _ r => [r] | _ => [] end) t.

(** The sessions whose transaction number was advanced, in order. *)
Definition increments (t : list Event) : list SessionRef :=
  flat_map (fun e => match e with EvIncrementTransactionNumber r => [r] | _ => [] end) t.

(** The sessions started and the sessions ended, in order. *)
Definition started (t : list Event) : list SessionRef :=
  flat_map (fun e => match e with EvStartSession r _ => [r] | _ => [] end) t.

Definition ended (t : list Event) : list SessionRef :=
  flat_map (fun e => match e with EvEndSession r _ => [r] | _ => [] end) t.

(** [error instanceof MongoError &&
    error.hasErrorLabel(MongoErrorLabel.NoWritesPerformed)] *)
Definition carriesNoWritesPerformed (e : Thrown) : bool :=
  match e with
  | Mongo m => hasErrorLabel m NoWritesPerformed
  | Other _ => false
  end.

(** *** The monad of the middleware: state and exceptions *)

Definition M (A : Type) : Type := World -> Outcome Thrown A * World.

Definition ret {A} (a : A) : M A := fun w => (Ok a, w).

Definition throw {A} (e : Thrown) : M A := fun w => (Throw e, w).

Definition bind {A B} (m : M A) (k : A -> M B) : M B :=
  fun w =>
    match m w with
    | (Ok a, w1) => k a w1
    | (Throw e, w1) => (Throw e, w1)
    end.

Notation "x <- m ;; k" := (bind m (fun x => k))
  (at level 100, m at next level, right associativity).
Notation "m ;;; k" := (bind m (fun _ => k))
  (at level 100, right associativity).

(** [try { body } catch (e) { handler }] *)
Definition try_catch {A} (body : M A) (handler : Thrown -> M A) : M A :=
  fun w =>
    match body w with
    | (Ok a, w1) => (Ok a, w1)
    | (Throw e, w1) => handler e w1
    end.

(** [try { body } finally { cleanup }]: an exception of [cleanup] replaces
    the outcome of [body]. *)
Definition try_finally {A} (body : M A) (cleanup : M unit) : M A :=
  fun w =>
    match body w with
    | (o, w1) =>
        match cleanup w1 with
        | (Ok _, w2) => (o, w2)
        | (Throw e, w2) => (Throw e, w2)
        end
    end.

Definition getW : M World := fun w => (Ok w, w).

Definition modify (f : World -> World) : M unit := fun w => (Ok tt, f w).

(** [if (cond) throw e;] *)
Definition throw_if (cond : bool) (e : Thrown) : M unit :=
  if cond then throw e else ret tt.

(** [if (cond) { body }] *)
Definition when (cond : bool) (body : M unit) : M unit :=
  if cond then body else ret tt.

Definition set_trace (t : list Event) (w : World) : World :=
  mkWorld (topology w) (hasBeenClosed w) (skipPingOnConnect w) (sessions w)
    (operation w) (context w) (nextSymbol w) t.

Definition set_topology (t : option Topology) (w : World) : World :=
  mkWorld t (hasBeenClosed w) (skipPingOnConnect w) (sessions w)
    (operation w) (context w) (nextSymbol w) (trace w).

Definition set_skipPingOnConnect (b : bool) (w : World) : World :=
  mkWorld (topology w) (hasBeenClosed w) b (sessions w)
    (operation w) (context w) (nextSymbol w) (trace w).

Definition set_sessions (l : list ClientSession) (w : World) : World :=
  mkWorld (topology w) (hasBeenClosed w) (skipPingOnConnect w) l
    (operation w) (context w) (nextSymbol w) (trace w).

Definition set_operation (op : Operation) (w : World) : World :=
  mkWorld (topology w) (hasBeenClosed w) (skipPingOnConnect w) (sessions w)
    op (context w) (nextSymbol w) (trace w).

Definition set_context (c : Context) (w : World) : World :=
  mkWorld (topology w) (hasBeenClosed w) (skipPingOnConnect w) (sessions w)
    (operation w) c (nextSymbol w) (trace w).

Definition set_nextSymbol (n : Symbol) (w : World) : World :=
  mkWorld (topology w) (hasBeenClosed w) (skipPingOnConnect w) (sessions w)
    (operation w) (context w) n (trace w).

Definition log (e : Event) : M unit :=
  modify (fun w => set_trace (trace w ++ [e]) w).

(** Reading a property through [null] or [undefined]. *)
Definition TypeError : Thrown := Other "TypeError".

(** The session object behind a reference. *)
Definition deref (r : SessionRef) : M ClientSession :=
  fun w =>
    match sessions w !! r with
    | Some s => (Ok s, w)
    | None => (Throw TypeError, w)
    end.

Definition update_session (r : SessionRef) (f : ClientSession -> ClientSession)
  : M unit :=
  modify (fun w => set_sessions (alter f r (sessions w)) w).

(** *** Methods of the collaborators *)

(** [Symbol()] *)
Definition freshSymbol : M Symbol :=
  fun w => (Ok (nextSymbol w), set_nextSymbol (S (nextSymbol w)) w).

(** Modelled from the spec: [client.startSession({ owner, explicit: false })]
    of [mongo_client.ts] creates a session tagged with the ownership token. *)
Definition startSession (owner : Symbol) : M SessionRef :=
  w <- getW ;;
  let r := Datatypes.length (sessions w) in
  modify (set_sessions
            (sessions w ++ [mkSession (Some owner) false false false false false false 0])) ;;;
  log (EvStartSession r owner) ;;;
  ret r.

(** Modelled from the spec: [session.incrementTransactionNumber()]. *)
Definition incrementTransactionNumber (r : SessionRef) : M unit :=
  update_session r (fun s =>
    mkSession (owner s) (explicit s) (hasEnded s) (snapshotEnabled s)
      (isPinned s) (inTransaction s) (transaction_isCommitted s) (txnNumber s + 1)) ;;;
  log (EvIncrementTransactionNumber r).

(** Modelled from the spec: [session.unpin(options)]. *)
Definition unpin (r : SessionRef) (force : bool) : M unit :=
  update_session r (fun s =>
    mkSession (owner s) (explicit s) (hasEnded s) (snapshotEnabled s)
      false (inTransaction s) (transaction_isCommitted s) (txnNumber s)) ;;;
  log (EvUnpin r force).

Section Pipeline.
Variable env : Env.

(** [isRetryableWriteError] and [isRetryableReadError] of [error.ts]: the
    tests for the retryable-write and retryable-read markers. *)
Variable isRetryableWriteError : MongoError -> bool.
Variable isRetryableReadError : MongoError -> bool.

(** Modelled from the spec: [session.endSession()], which may reject. *)
Definition endSession (r : SessionRef) : M unit :=
  w <- getW ;;
  let rejected := env_endSession env (trace w) r in
  update_session r (fun s =>
    mkSession (owner s) (explicit s) true (snapshotEnabled s)
      (isPinned s) (inTransaction s) (transaction_isCommitted s) (txnNumber s)) ;;;
  log (EvEndSession r rejected) ;;;
  match rejected with
  | Some e => throw e
  | None => ret tt
  end.

(** [client.connect()] *)
Definition connect : M unit :=
  w <- getW ;;
  match env_connect env (trace w) with
  | Ok t => modify (set_topology t) ;;; log (EvConnect None)
  | Throw e => log (EvConnect (Some e)) ;;; throw e
  end.

(** [topology.selectServerAsync(selector, { session })] *)
Definition selectServerAsync (selector : option Selector) (s : option SessionRef)
  : M Server :=
  w <- getW ;;
  let result := env_selectServer env (trace w) selector s in
  log (EvSelectServer selector s result) ;;;
  match result with
  | Ok server => ret server
  | Throw e => throw e
  end.

(** [operation.executeAsync(server, session)] *)
Definition executeAsync (server : option Server) (s : option SessionRef)
  : M Document :=
  w <- getW ;;
  let result := env_executeAsync env (trace w) server s in
  log (EvExecute server s result) ;;;
  match result with
  | Ok doc => ret doc
  | Throw e => throw e
  end.

(** *** The middleware *)

Definition Middleware : Type := M unit -> M unit.

(** [pipe(...middleware)(context, next)]: [dispatch(i)] runs
    [middleware[i]] with [dispatch(i + 1)] as its [next]; past the end it
    runs the outer [next], if any, with a continuation that does nothing. *)
Fixpoint dispatch (middleware : list Middleware) (next : option Middleware)
  : M unit :=
  match middleware with
  | fn :: rest => fn (dispatch rest next)
  | [] =>
      match next with
      | Some fn => fn (ret tt)
      | None => ret tt
      end
  end.

Definition pipe (middleware : list Middleware) (next : option Middleware)
  : M unit :=
  dispatch middleware next.

(** [withConnectedClient(context, next)] *)
Definition withConnectedClient (next : M unit) : M unit :=
  w <- getW ;;
  (match topology w with
   | None =>
       throw_if (hasBeenClosed w)
         (newError MongoNotConnectedError
            "Client must be connected before running operations") ;;;
       modify (set_skipPingOnConnect true) ;;;
       try_finally connect (modify (set_skipPingOnConnect false))
   | Some _ => ret tt
   end) ;;;
  next.

Definition ReadPreference_mode (rp : ReadPreference) : string :=
  match rp with
  | primary => "primary"
  | primaryPreferred => "primaryPreferred"
  | secondary => "secondary"
  | secondaryPreferred => "secondaryPreferred"
  | nearest => "nearest"
  end.

(** The session binding of [withSession]: the [session] and [owner]
    variables after the [if (topology.hasSessionSupport())] statement. *)
Definition bindSession (topology : Topology)
  : M (option SessionRef * option Symbol) :=
  w <- getW ;;
  let session := session (operation w) in
  if env_hasSessionSupport env (trace w) then
    match session with
    | None =>
        owner <- freshSymbol ;;
        r <- startSession owner ;;
        ret (Some r, Some owner)
    | Some r =>
        s <- deref r ;;
        if hasEnded s then
          throw (newError MongoExpiredSessionError
                   "Use of expired sessions is not permitted")
        else if snapshotEnabled s && negb (supportsSnapshotReads topology) then
          throw (newError MongoCompatibilityError
                   "Snapshot reads require MongoDB 5.0 or later")
        else ret (Some r, None)
    end
  else
    match session with
    | Some r =>
        s <- deref r ;;
        if explicit s then
          throw (newError MongoCompatibilityError
                   "Current topology does not support sessions")
        else
          modify (fun w =>
            let op := operation w in
            set_operation
              (mkOperation (isAbstractOperation op) (aspects op) None None
                 (options_willRetryWrite op) (readPreference op)
                 (bypassPinningCheck op) (trySecondaryWrite op)
                 (canRetryRead op) (canRetryWrite op) (server op)) w) ;;;
          ret (None, None)
    | None => ret (None, None)
    end.

(** The [finally] block of [withSession]. *)
Definition endOwnedSession (session : option SessionRef) (owner : option Symbol)
  : M unit :=
  match session with
  | None => ret tt
  | Some r =>
      s <- deref r ;;
      match ExecuteOperation.owner s with
      | Some o =>
          if (match owner with Some o' => Nat.eqb o o' | None => false end)
          then try_catch (endSession r) (fun _ => ret tt)
          else ret tt
      | None => ret tt
      end
  end.

(** [withSession(context, next)] *)
Definition withSession (next : M unit) : M unit :=
  w <- getW ;;
  match topology w with
  | None => throw TypeError
  | Some topology =>
      when (env_shouldCheckForSessionSupport env (trace w))
        (selectServerAsync (Some (byReadPreference primaryPreferred)) None ;;; ret tt) ;;;
      so <- bindSession topology ;;
      let '(session, owner) := so in
      w1 <- getW ;;
      let operation := operation w1 in
      let readPreference :=
        match readPreference operation with
        | Some rp => rp
        | None => primary
        end in
      inTransaction <-
        match session with
        | Some r => s <- deref r ;; ret (inTransaction s)
        | None => ret false
        end ;;
      throw_if (inTransaction && negb (ReadPreference_equals readPreference primary))
        (newError MongoTransactionError
           ("Read preference in a transaction must be primary, not: "
              +:+ ReadPreference_mode readPreference)) ;;;
      match session with
      | Some r =>
          s <- deref r ;;
          when (isPinned s && transaction_isCommitted s
                  && negb (bypassPinningCheck operation))
            (unpin r false)
      | None => ret tt
      end ;;;
      modify (fun w =>
        let c := context w in
        set_context
          (mkContext session owner (Some readPreference) inTransaction
             (ctx_server c) (ctx_selector c) (ctx_result c)) w) ;;;
      try_finally next (endOwnedSession session owner)
  end.

(** [withServer(context, next)] *)
Definition withServer (next : M unit) : M unit :=
  w <- getW ;;
  let operation := operation w in
  let readPreference := ctx_readPreference (context w) in
  let session := ctx_session (context w) in
  match topology w with
  | None => throw TypeError
  | Some topology =>
      let selector :=
        if hasAspect operation MUST_SELECT_SAME_SERVER then
          Some (sameServerSelector (server operation))
        else if trySecondaryWrite operation then
          Some (secondaryWritableServerSelector (commonWireVersion topology)
                  readPreference)
        else option_map byReadPreference readPreference in
      server <- selectServerAsync selector session ;;
      modify (fun w =>
        let c := context w in
        set_context
          (mkContext (ctx_session c) (ctx_owner c) (ctx_readPreference c)
             (ctx_inTransaction c) (Some server) selector (ctx_result c)) w) ;;;
      next
  end.

(** The body of [catch (operationError)] in [withRetryability], when
    [willRetry && operationError instanceof MongoError] holds, up to and
    including the second [await next()]. *)
Definition retryOnce (next : M unit) (operation : Operation)
    (session : SessionRef) (selector : option Selector)
    (operationError : MongoError) : M unit :=
  let isWriteOperation := hasAspect operation WRITE_OPERATION in
  let isReadOperation := hasAspect operation READ_OPERATION in
  throw_if (isWriteOperation
              && match code operationError with
                 | Some c => c =? MMAPv1_RETRY_WRITES_ERROR_CODE
                 | None => false
                 end)
    (newError MongoServerError MMAPv1_RETRY_WRITES_ERROR_MESSAGE) ;;;
  throw_if (isWriteOperation && negb (isRetryableWriteError operationError))
    (Mongo operationError) ;;;
  throw_if (isReadOperation && negb (isRetryableReadError operationError))
    (Mongo operationError) ;;;
  s <- deref session ;;
  when (isNetworkError operationError && isPinned s && negb (inTransaction s)
          && hasAspect operation CURSOR_CREATING)
    (unpin session true) ;;;
  server <- selectServerAsync selector (Some session) ;;
  throw_if (isWriteOperation && negb (supportsRetryableWrites (Some server)))
    (newError MongoUnexpectedServerResponseError
       "Selected server does not support retryable writes") ;;;
  try_catch next (fun retryError =>
    if carriesNoWritesPerformed retryError then throw (Mongo operationError)
    else throw retryError).

(** [withRetryability(context, next)] *)
Definition withRetryability (next : M unit) : M unit :=
  w <- getW ;;
  let session := ctx_session (context w) in
  let server := ctx_server (context w) in
  let inTransaction := ctx_inTransaction (context w) in
  let operation := operation w in
  let selector := ctx_selector (context w) in
  match topology w with
  | None =>
      throw (newError MongoRuntimeError
               "client.connect did not create a topology but also did not throw")
  | Some topology =>
      match session with
      | None => next
      | Some session =>
          if negb (hasAspect operation RETRYABLE) then next
          else
            let willRetryRead :=
              retryReads topology && negb inTransaction && canRetryRead operation in
            let willRetryWrite :=
              retryWrites topology && negb inTransaction
                && supportsRetryableWrites server && canRetryWrite operation in
            let hasReadAspect := hasAspect operation READ_OPERATION in
            let hasWriteAspect := hasAspect operation WRITE_OPERATION in
            let willRetry :=
              (hasReadAspect && willRetryRead) || (hasWriteAspect && willRetryWrite) in
            when (hasWriteAspect && willRetryWrite)
              (modify (fun w =>
                 let op := ExecuteOperation.operation w in
                 set_operation
                   (mkOperation (isAbstractOperation op) (aspects op)
                      (ExecuteOperation.session op) (options_session op) true
                      (readPreference op) (bypassPinningCheck op)
                      (trySecondaryWrite op) (canRetryRead op)
                      (canRetryWrite op) (ExecuteOperation.server op)) w) ;;;
               incrementTransactionNumber session) ;;;
            try_catch next (fun operationError =>
              match operationError with
              | Mongo e =>
                  when willRetry (retryOnce next operation session selector e)
              | Other _ => ret tt
              end ;;;
              throw operationError)
      end
  end.

(** [runCommand(context)] *)
Definition runCommand (_ : M unit) : M unit :=
  w <- getW ;;
  let server := ctx_server (context w) in
  let session := ctx_session (context w) in
  result <- executeAsync server session ;;
  modify (fun w =>
    let c := context w in
    set_context
      (mkContext (ctx_session c) (ctx_owner c) (ctx_readPreference c)
         (ctx_inTransaction c) (ctx_server c) (ctx_selector c) (Some result)) w).

(** [const execute = pipe(withConnectedClient, withSession, withServer,
    withRetryability, runCommand)] *)
Definition execute : option Middleware -> M unit :=
  pipe [withConnectedClient; withSession; withServer; withRetryability; runCommand].

(** [executeOperationAsync(client, operation)]: the world holds the client
    and the operation; the context starts as [{ client, operation }]. *)
Definition executeOperationAsync : M (option Document) :=
  w <- getW ;;
  if negb (isAbstractOperation (operation w)) then
    throw (newError MongoRuntimeError
             "This method requires a valid operation instance")
  else
    modify (set_context (mkContext None None None false None None None)) ;;;
    execute None ;;;
    w1 <- getW ;;
    ret (ctx_result (context w1)).

(** The stages after session binding, as [dispatch] composes them. *)
Definition core : M unit := withRetryability (runCommand (ret tt)).

Definition afterSession : M unit := withServer core.

End Pipeline.

(** Sessions of [l] still exist in [l'], with the same owner and the same
    [hasEnded]. *)
Definition frame_sessions (l l' : list ClientSession) : Prop :=
  forall r s, l !! r = Some s ->
    exists s', l' !! r = Some s'
               /\ owner s' = owner s /\ hasEnded s' = hasEnded s.

Definition frame (w w' : World) : Prop :=
  frame_sessions (sessions w) (sessions w').

Definition isExecute (e : Event) : bool :=
  match e with
  | EvExecute _ _ _ => true
  | _ => false
  end.

Definition isLifecycle (e : Event) : bool :=
  match e with
  | EvStartSession _ _ | EvEndSession _ _ => true
  | _ => false
  end.

(** What a run of the retry stage looks like from outside: the outcomes of
    the invocations it made, what it handed to its caller, and
    [context.result] afterwards. *)
Definition attempts_outcome (xs : list (Outcome Thrown Document))
    (out : Outcome Thrown unit) (c : Context) : Prop :=
  match xs with
  | [] => exists e, out = Throw e
  | [Ok d] => out = Ok tt /\ ctx_result c = Some d
  | [Throw _] => exists e, out = Throw e
  | [Throw e1; Ok d] => out = Throw e1 /\ ctx_result c = Some d
  | [Throw e1; Throw e2] =>
      out = Throw (if carriesNoWritesPerformed e2 then e1 else e2)
  | _ => False
  end.

(** The same for the whole of [executeOperationAsync], whose value is
    [context.result]. *)
Definition pipeline_outcome (xs : list (Outcome Thrown Document))
    (out : Outcome Thrown (option Document)) : Prop :=
  match xs with
  | [] => exists e, out = Throw e
  | [Ok d] => out = Ok (Some d)
  | [Throw _] => exists e, out = Throw e
  | [Throw e1; Ok d] => out = Throw e1
  | [Throw e1; Throw e2] =>
      out = Throw (if carriesNoWritesPerformed e2 then e1 else e2)
  | _ => False
  end.

(** A computation that leaves existing sessions alone, only extends the
    trace, and whose new events, restricted to [keep], satisfy [P] together
    with its outcome and the context it leaves. *)
Definition obeys (keep : Event -> bool)
    (P : list Event -> Outcome Thrown unit -> Context -> Prop) (m : M unit)
  : Prop :=
  forall w,
    frame w (snd (m w))
    /\ exists d, trace (snd (m w)) = trace w ++ d
                 /\ P (List.filter keep d) (fst (m w)) (context (snd (m w))).

(** *** Example runs: a retryable insert on a replica set *)

Module Examples.

Definition server : Server := mkServer false (Some 30) RSPrimary.

Definition topology : Topology := mkTopology true 17 true true.

Definition isRetryableWriteError (e : MongoError) : bool :=
  hasErrorLabel e "RetryableWriteError".

Definition isRetryableReadError (e : MongoError) : bool :=
  hasErrorLabel e "RetryableReadError".

Definition notPrimary : MongoError :=
  mkMongoError MongoServerError "not primary" (Some 10107) ["RetryableWriteError"].

Definition nothingWritten : MongoError :=
  mkMongoError MongoServerError "connection closed" (Some 91)
    ["RetryableWriteError"; "NoWritesPerformed"].

Definition insert : Operation :=
  mkOperation true [WRITE_OPERATION; RETRYABLE] None None false None false
    false false true None.

(** A connected client, no session yet, the insert about to run. *)
Definition world : World :=
  mkWorld (Some topology) false false [] insert
    (mkContext None None None false None None None) 0%nat [].

(** The same with a caller's own session [0], bound to the operation. *)
Definition world_explicit : World :=
  mkWorld (Some topology) false false
    [mkSession None true false false false false false 7]
    (mkOperation true [WRITE_OPERATION; RETRYABLE] (Some 0%nat) (Some 0%nat)
       false None false false false true None)
    (mkContext None None None false None None None) 0%nat [].

(** The world as the retry stage finds it when session [0] is bound and a
    server is selected. *)
Definition world_at_retry_stage : World :=
  mkWorld (Some topology) false false
    [mkSession None true false false false false false 7]
    (mkOperation true [WRITE_OPERATION; RETRYABLE] (Some 0%nat) (Some 0%nat)
       false None false false false true None)
    (mkContext (Some 0%nat) None (Some primary) false (Some server)
       (Some (byReadPreference primary)) None) 0%nat [].

(** The first attempt fails with a retryable error, the second succeeds. *)
Definition fails_then_succeeds : Env :=
  mkEnv (fun _ => Ok None) (fun _ => false) (fun _ => true)
    (fun _ _ _ => Ok server)
    (fun t _ _ =>
       match executions t with
       | [] => Throw (Mongo notPrimary)
       | _ => Ok "inserted"
       end)
    (fun _ _ => None).

(** Both attempts fail, the second without any write performed; ending the
    session fails too. *)
Definition fails_twice : Env :=
  mkEnv (fun _ => Ok None) (fun _ => false) (fun _ => true)
    (fun _ _ _ => Ok server)
    (fun t _ _ =>
       match executions t with
       | [] => Throw (Mongo notPrimary)
       | _ => Throw (Mongo nothingWritten)
       end)
    (fun _ _ => Some (Other "endSession failed")).

End Examples.

End ExecuteOperation.

(** ** More of [class List<T>] and of [class BufferPool] *)

Module ListMethods.
Import ListT.

Section Ops.
Context {T : Type}.

(** [pushMany(iterable)] *)
Definition pushMany (values : list T) (l : List T) : List T :=
  fold_left (fun l value => push value l) values l.

(** The traversal of [prune(filter)].  [nodes()] saves [next] before it
    yields a node, so unlinking the yielded node does not disturb the walk:
    [kept] are the nodes already passed and still linked, [rest] the nodes
    still to visit.  [remove(node)] does nothing when [length === 0]. *)
Fixpoint prune_loop (filter : T -> bool) (kept rest : list T) (count : Z)
  : List T :=
  match rest with
  | [] => mkList kept count
  | value :: rest' =>
      if filter value then
        if count =? 0 then prune_loop filter (kept ++ [value]) rest' count
        else prune_loop filter kept rest' (count - 1)
      else prune_loop filter (kept ++ [value]) rest' count
  end.

(** [prune(filter)] *)
Definition prune (filter : T -> bool) (l : List T) : List T :=
  prune_loop filter [] (nodes l) (count l).

(** The calls a user of the list can make. *)
Inductive Call : Type :=
| callPush (value : T)
| callUnshift (value : T)
| callShift
| callPop
| callPrune (filter : T -> bool)
| callClear.

Definition call (c : Call) (l : List T) : List T :=
  match c with
  | callPush value => push value l
  | callUnshift value => unshift value l
  | callShift => snd (shift l)
  | callPop => snd (pop l)
  | callPrune filter => prune filter l
  | callClear => clear l
  end.

Definition calls (cs : list Call) (l : List T) : List T :=
  fold_left (fun l c => call c l) cs l.

(** [shift()] until it answers [null], at most [n] times. *)
Fixpoint shiftAll (n : nat) (l : List T) : list T * List T :=
  match n with
  | O => ([], l)
  | S k =>
      match shift l with
      | (Some value, l') => let '(vs, l'') := shiftAll k l' in (value :: vs, l'')
      | (None, l') => ([], l')
      end
  end.

(** [pop()] until it answers [null], at most [n] times. *)
Fixpoint popAll (n : nat) (l : List T) : list T * List T :=
  match n with
  | O => ([], l)
  | S k =>
      match pop l with
      | (Some value, l') => let '(vs, l'') := popAll k l' in (value :: vs, l'')
      | (None, l') => ([], l')
      end
  end.

End Ops.
End ListMethods.

Module BufferPoolCalls.
Import ListT BufferPool.

(** The calls a user of the pool can make. *)
Inductive Call : Type :=
| callAppend (buffer : Buffer)
| callRead (size : Z)
| callGetInt32.

Definition call (uninit : nat -> Byte.byte) (c : Call) (p : BufferPool) : BufferPool :=
  match c with
  | callAppend buffer => append buffer p
  | callRead size => snd (read uninit size p)
  | callGetInt32 => snd (getInt32 uninit p)
  end.

Definition calls (uninit : nat -> Byte.byte) (cs : list Call) (p : BufferPool)
  : BufferPool :=
  fold_left (fun p c => call uninit c p) cs p.

End BufferPoolCalls.

(** ** Runs of the state transition guard *)

Module StateMachineRuns.
Import StateMachine.

(** A caller that requests the states of [requests] one after the other
    and catches what the guard throws. *)
Definition requestAll (stateTable : gmap string (list string))
    (requests : list string) (target : ObjectWithState) : ObjectWithState :=
  fold_left (fun target newState => snd (makeStateMachine stateTable target newState))
    requests target.

(** [events] lead from [from] to [to], each step allowed by the table. *)
Fixpoint is_path (stateTable : gmap string (list string)) (from : string)
    (events : list Event) (to : string) : Prop :=
  match events with
  | [] => from = to
  | stateChanged previous current :: rest =>
      previous = from
      /\ (forall legal, stateTable !! previous = Some legal -> In current legal)
      /\ is_path stateTable current rest to
  end.

End StateMachineRuns.

(** ** [class MongoDBNamespace] *)

Module MongoDBNamespace.
Import HostAddress.

Record MongoDBNamespace : Type := mkNamespace {
  db : string;
  collection : option string
}.

Inductive Error : Type :=
| MongoRuntimeError (message : string).

(** [constructor(db, collection?)] *)
Definition new (db : string) (collection : option string) : MongoDBNamespace :=
  mkNamespace db
    (match collection with
     | Some c => if String.eqb c EmptyString then None else Some c
     | None => None
     end).

(** [toString()]: an absent or empty collection is falsy. *)
Definition toString (ns : MongoDBNamespace) : string :=
  match collection ns with
  | Some c => if String.eqb c EmptyString then db ns else db ns +:+ "." +:+ c
  | None => db ns
  end.

(** [withCollection(collection)] builds a [MongoDBCollectionNamespace],
    whose constructor stores [collection] as given. *)
Definition withCollection (ns : MongoDBNamespace) (collection : string)
  : MongoDBNamespace :=
  mkNamespace (db ns) (Some collection).

Definition dquote : string := String (ascii_of_nat 34) EmptyString.

(** [static fromString(namespace?)] *)
Definition fromString (namespace : option string) : Outcome Error MongoDBNamespace :=
  match namespace with
  | None =>
      Throw (MongoRuntimeError
               ("Cannot parse namespace from " +:+ dquote +:+ "undefined" +:+ dquote))
  | Some namespace =>
      if String.eqb namespace EmptyString then
        Throw (MongoRuntimeError
                 ("Cannot parse namespace from " +:+ dquote +:+ namespace +:+ dquote))
      else
        match split "." namespace with
        | [] => Ok (new EmptyString None)
        | db :: collectionParts =>
            let collection := join "." collectionParts in
            Ok (new db (if String.eqb collection EmptyString then None
                        else Some collection))
        end
  end.

(** [ns(ns)] *)
Definition ns (s : string) : Outcome Error MongoDBNamespace := fromString (Some s).

Definition dotless (s : string) : Prop := ~ In "."%char (chars s).

End MongoDBNamespace.

(** ** Small helpers of [utils.ts] *)

Module Utils.
Import BufferPool.

(** A number stored into a [Uint8Array] element is taken modulo 256. *)
Definition byte_of_Z (z : Z) : Byte.byte :=
  match Byte.of_N (Z.to_N (z mod 256)) with
  | Some b => b
  | None => Byte.x00
  end.

(** [uuidV4()]; [randomBytes] is [crypto.randomBytes]. *)
Definition uuidV4 (randomBytes : Z -> Buffer) : Buffer :=
  let result := randomBytes 16 in
  let result :=
    <[6%nat := byte_of_Z (Z.lor (Z.land (byte_val (nth 6 result Byte.x00)) 0x0f) 0x40)]>
      result in
  let result :=
    <[8%nat := byte_of_Z (Z.lor (Z.land (byte_val (nth 8 result Byte.x00)) 0x3f) 0x80)]>
      result in
  result.

(** [csotMin(duration1, duration2)] on integer durations. *)
Definition csotMin (duration1 duration2 : Z) : Z :=
  if duration1 =? 0 then duration2
  else if duration2 =? 0 then duration1
  else Z.min duration1 duration2.

(** [ObjectId]: only the [id] bytes are read. *)
Record ObjectId : Type := mkObjectId { id : Buffer }.

(** [ByteUtils.compare] is [Buffer.compare]: bytes are compared in order,
    then the lengths. *)
Fixpoint Buffer_compare (seqA seqB : Buffer) : Z :=
  match seqA, seqB with
  | [], [] => 0
  | [], _ :: _ => -1
  | _ :: _, [] => 1
  | a :: restA, b :: restB =>
      if byte_val a <? byte_val b then -1
      else if byte_val b <? byte_val a then 1
      else Buffer_compare restA restB
  end.

(** [compareObjectId(oid1, oid2)]; [None] is [null] or [undefined]. *)
Definition compareObjectId (oid1 oid2 : option ObjectId) : Z :=
  match oid1, oid2 with
  | None, None => 0
  | None, Some _ => -1
  | Some _, None => 1
  | Some oid1, Some oid2 => Buffer_compare (id oid1) (id oid2)
  end.

Inductive Error : Type :=
| MongoRuntimeError (message : string).

Section Shuffle.
Context {T : Type}.

(** [random_index k remaining] is the value of
    [Math.floor(Math.random() * remaining)] at the [k]-th draw of a run. *)
Variable random_index : nat -> Z -> Z.

Definition item_at (items : list T) (i : Z) : option T :=
  if i <? 0 then None else items !! Z.to_nat i.

(** The three assignments that swap [items[remaining]] and
    [items[randomIndex]]; [None] when an index lies outside the array,
    which is outside this model. *)
Definition swap_step (items : list T) (remaining randomIndex : Z)
  : option (list T) :=
  match item_at items remaining, item_at items randomIndex with
  | Some swapHold, Some picked =>
      Some (<[Z.to_nat randomIndex := swapHold]>
              (<[Z.to_nat remaining := picked]> items))
  | _, _ => None
  end.

(** [while (remainingItemsToShuffle > lowerBound)]; [lowerBound] is never
    negative, so the loop is over once nothing remains. *)
Fixpoint shuffle_loop (draw : nat) (lowerBound : Z) (remainingItemsToShuffle : nat)
    (items : list T) : option (list T) :=
  match remainingItemsToShuffle with
  | O => Some items
  | S remaining =>
      if lowerBound <? Z.of_nat remainingItemsToShuffle then
        let randomIndex := random_index draw (Z.of_nat remainingItemsToShuffle) in
        match swap_step items (Z.of_nat remaining) randomIndex with
        | Some items => shuffle_loop (S draw) lowerBound remaining items
        | None => None
        end
      else Some items
  end.

(** [shuffle(sequence, limit)]; [limit % items.length] is [NaN] for an
    empty array, and [NaN === 0] is false. *)
Definition shuffle (sequence : list T) (limit : Z)
  : option (Outcome Error (list T)) :=
  let items := sequence in
  let len := Z.of_nat (Datatypes.length items) in
  if len <? limit then
    Some (Throw (MongoRuntimeError "Limit must be less than the number of items"))
  else
    let whole := if len =? 0 then false else Z.rem limit len =? 0 in
    let lowerBound := if whole then 1 else len - limit in
    match shuffle_loop 0 lowerBound (Datatypes.length items) items with
    | Some items => Some (Ok (if whole then items else drop (Z.to_nat lowerBound) items))
    | None => None
    end.

End Shuffle.

End Utils.

(** ** [class DisposableStack] of [helpers.ts] *)

Module DisposableStack.
Import ListT.

Section Stack.
(** Callbacks act on the state [State] of the program and may throw a value of
    [E]; they do not reach the stack that holds them. *)
Context {State E : Type}.

Definition Callback : Type := State -> Outcome E unit * State.

Record DisposableStack : Type := mkStack { stack : List Callback }.

(** What the [catch] clause collects: a value thrown by a callback, or the
    [TypeError] of calling the [null] that [shift] answered. *)
Inductive Caught : Type :=
| thrown (error : E)
| notAFunction.

Inductive Error : Type :=
| AggregateError (errors : list Caught) (message : string).

Definition new : DisposableStack := mkStack ListT.new.

(** [defer(cb)] *)
Definition defer (cb : Callback) (d : DisposableStack) : DisposableStack :=
  mkStack (push cb (stack d)).

(** [while (this.stack.length) { ... }]; [None] when [fuel] iterations did
    not empty the stack. *)
Fixpoint dispose_loop (fuel : nat) (l : List Callback) (errors : list Caught) (s : State)
  : option (List Callback * list Caught * State) :=
  if length l =? 0 then Some (l, errors, s)
  else
    match fuel with
    | O => None
    | S fuel =>
        match shift l with
        | (Some cb, l) =>
            match cb s with
            | (Ok _, s) => dispose_loop fuel l errors s
            | (Throw error, s) => dispose_loop fuel l (errors ++ [thrown error]) s
            end
        | (None, l) => dispose_loop fuel l (errors ++ [notAFunction]) s
        end
    end.

(** [[Symbol.dispose]()] *)
Definition dispose (fuel : nat) (d : DisposableStack) (s : State)
  : option (Outcome Error unit * DisposableStack * State) :=
  match dispose_loop fuel (stack d) [] s with
  | None => None
  | Some (l, errors, s) =>
      Some (match errors with
            | [] => Ok tt
            | _ => Throw (AggregateError errors "error disposing DisposableStack")
            end, mkStack l, s)
  end.

(** Running callbacks one after the other, collecting what they throw. *)
Fixpoint run_in_order (cbs : list Callback) (s : State) : list E * State :=
  match cbs with
  | [] => ([], s)
  | cb :: rest =>
      match cb s with
      | (Ok _, s) => run_in_order rest s
      | (Throw error, s) =>
          let '(errors, s) := run_in_order rest s in (error :: errors, s)
      end
  end.

Definition deferAll (cbs : list Callback) (d : DisposableStack) : DisposableStack :=
  fold_left (fun d cb => defer cb d) cbs d.

End Stack.
End DisposableStack.

(** ** [class MongocryptdManager] *)

Module MongocryptdManager.

Definition DEFAULT_MONGOCRYPTD_URI : string := "mongodb://localhost:27020".

(** [AutoEncryptionExtraOptions], the fields the constructor reads. *)
Record AutoEncryptionExtraOptions : Type := mkOptions {
  mongocryptdURI : option string;
  mongocryptdBypassSpawn : option bool;
  mongocryptdSpawnPath : option string;
  mongocryptdSpawnArgs : option (list string)
}.

Record MongocryptdManager : Type := mkManager {
  uri : string;
  bypassSpawn : bool;
  spawnPath : string;
  spawnArgs : list string
}.

(** [arg.indexOf(pattern)] *)
Definition indexOf (arg pattern : string) : Z :=
  match String.index 0 pattern arg with
  | Some i => Z.of_nat i
  | None => -1
  end.

Definition idleShutdownTimeoutSecs : string := "--idleShutdownTimeoutSecs".

(** An argument that mentions the idle-shutdown flag. *)
Definition mentionsIdleShutdown (arg : string) : bool :=
  negb (indexOf arg idleShutdownTimeoutSecs <? 0).

(** [constructor(extraOptions = {})] *)
Definition new (extraOptions : AutoEncryptionExtraOptions) : MongocryptdManager :=
  let uri :=
    match mongocryptdURI extraOptions with
    | Some u => if 0 <? Z.of_nat (String.length u) then u else DEFAULT_MONGOCRYPTD_URI
    | None => DEFAULT_MONGOCRYPTD_URI
    end in
  let bypassSpawn :=
    match mongocryptdBypassSpawn extraOptions with
    | Some b => b
    | None => false
    end in
  let spawnPath :=
    match mongocryptdSpawnPath extraOptions with
    | Some p => p
    | None => EmptyString
    end in
  let spawnArgs :=
    match mongocryptdSpawnArgs extraOptions with
    | Some args => [] ++ args
    | None => []
    end in
  let spawnArgs :=
    if forallb (fun arg => indexOf arg idleShutdownTimeoutSecs <? 0) spawnArgs
    then spawnArgs ++ [idleShutdownTimeoutSecs; "60"]
    else spawnArgs in
  mkManager uri bypassSpawn spawnPath spawnArgs.

(** The command name of [spawn]: [this.spawnPath || 'mongocryptd']. *)
Definition cmdName (m : MongocryptdManager) : string :=
  if String.eqb (spawnPath m) EmptyString then "mongocryptd" else spawnPath m.

End MongocryptdManager.


(** *** More observations on traces *)

Module PipelineObservations.
Import ExecuteOperation.

(** The attempts and the server selections among the events. *)
Definition isAttemptOrSelection (e : Event) : bool :=
  match e with
  | EvExecute _ _ _ | EvSelectServer _ _ _ => true
  | _ => false
  end.

(** The sessions unpinned, with the [force] flag, in order. *)
Definition unpins (t : list Event) : list (SessionRef * bool) :=
  flat_map (fun e => match e with EvUnpin r f => [(r, f)] | _ => [] end) t.

(** A first attempt that threw a value that is no [MongoError] is the only
    attempt, and the value is the outcome. *)
Definition foreign_error_surfaces (evs : list Event) (out : Outcome Thrown unit)
    (_ : Context) : Prop :=
  match executions evs with
  | Throw (Other x) :: rest => rest = [] /\ out = Throw (Other x)
  | _ => True
  end.

End PipelineObservations.

(** *** More example runs of the pipeline *)

Module PipelineExamples.
Import ExecuteOperation.

Definition no_context : Context := mkContext None None None false None None None.

(** The rest of a pipeline that does nothing. *)
Definition done : M unit := ret tt.

(** A client that was closed. *)
Definition world_closed : World :=
  mkWorld None true false [] Examples.insert no_context 0%nat [].

(** A client that never connected. *)
Definition world_unconnected : World :=
  mkWorld None false true [] Examples.insert no_context 0%nat [].

Definition session_of (explicit hasEnded isPinned inTransaction : bool)
  : ClientSession :=
  mkSession None explicit hasEnded false isPinned inTransaction false 7.

(** A connected client whose operation is bound to session [0]. *)
Definition world_with (s : ClientSession) (aspects : list Aspect)
    (rp : option ReadPreference) : World :=
  mkWorld (Some Examples.topology) false false [s]
    (mkOperation true aspects (Some 0%nat) (Some 0%nat) false rp false false
       true true None)
    no_context 0%nat [].

(** The same as the retry stage finds it, with a server selected. *)
Definition world_at_retry (s : ClientSession) (aspects : list Aspect) : World :=
  mkWorld (Some Examples.topology) false false [s]
    (mkOperation true aspects (Some 0%nat) (Some 0%nat) false None false false
       true true None)
    (mkContext (Some 0%nat) None (Some primary) false (Some Examples.server)
       (Some (byReadPreference primary)) None) 0%nat [].

Definition standalone : Server := mkServer false (Some 30) Standalone.

Definition duplicateKey : MongoError :=
  mkMongoError MongoServerError "duplicate key" (Some 11000) [].

Definition mmapv1Refusal : MongoError :=
  mkMongoError MongoServerError "Transaction numbers" (Some 20) ["RetryableWriteError"].

Definition connectionReset : MongoError :=
  mkMongoError MongoNetworkError "connection reset" None
    ["RetryableWriteError"; "RetryableReadError"].

(** An environment whose first attempt fails with [first], whose later
    attempts succeed, and whose server selection answers [selection]. *)
Definition first_fails (first : Thrown) (selection : Outcome Thrown Server)
    (sessionSupport : bool) : Env :=
  mkEnv (fun _ => Ok (Some Examples.topology)) (fun _ => false)
    (fun _ => sessionSupport)
    (fun _ _ _ => selection)
    (fun t _ _ =>
       match executions t with
       | [] => Throw first
       | _ => Ok "done"
       end)
    (fun _ _ => None).

End PipelineExamples.

(** *** Texts of host addresses *)

Module HostTexts.
Import HostAddress.

Definition is_alpha (c : ascii) : bool :=
  (((65 <=? code c) && (code c <=? 90)) || ((97 <=? code c) && (code c <=? 122)))%N.

Definition is_upper (c : ascii) : bool := ((65 <=? code c) && (code c <=? 90))%N.

(** The characters of a plain host name: ASCII letters, digits, [-], [.]
    and [_]. *)
Definition plain_host_char (c : ascii) : bool :=
  is_alpha c || is_digit c || Ascii.eqb c "-" || Ascii.eqb c "." || Ascii.eqb c "_".

(** A plain host name is not empty. *)
Definition plain_host (h : string) : Prop :=
  h <> EmptyString /\ forallb plain_host_char (chars h) = true.

(** A port written in decimal digits, and its value. *)
Definition decimal (p : string) : Prop :=
  p <> EmptyString /\ forallb is_digit (chars p) = true.

Definition value (p : string) : Z := digits_value (chars p) 0.

(** A socket path written without escapes: ASCII, no space, no [%], ending
    in [.sock]. *)
Definition plain_socket_path (s : string) : Prop :=
  forallb (fun c => is_ascii c && negb (Ascii.eqb c " ") && negb (Ascii.eqb c "%"))
    (chars s) = true
  /\ endsWith s ".sock" = true.

(** ASCII text without upper-case letters. *)
Definition lower_case (s : string) : Prop :=
  forallb (fun c => is_ascii c && negb (is_upper c)) (chars s) = true.

(** Characters no step of the URL parser treats specially before the
    host is reached, and those the host parser keeps as they are. *)
Definition calm (c : ascii) : bool :=
  is_ascii c && negb (is_c0_or_space c) && negb (is_tab_or_newline c)
  && negb (is_authority_end c) && negb (Ascii.eqb c "@") && negb (Ascii.eqb c "%").

Definition tame (c : ascii) : bool :=
  calm c && negb (Ascii.eqb c ":") && negb (Ascii.eqb c "[")
  && negb (Ascii.eqb c "]") && negb (forbidden_host_code_point c)
  && (code c <? 127)%N.

End HostTexts.

(** *** The session-support check *)

Module SessionSupport.
Import ExecuteOperation.

(** What the head of [withSession] does before it looks at the session:
    when the topology asks for a check of session support, one server
    selection with [ReadPreference.primaryPreferred] and no session, whose
    failure ends the stage. *)
Definition supportCheck (env : Env) (w : World) : Outcome Thrown unit * World :=
  if env_shouldCheckForSessionSupport env (trace w) then
    let selector := Some (byReadPreference primaryPreferred) in
    let result := env_selectServer env (trace w) selector None in
    let w1 := set_trace (trace w ++ [EvSelectServer selector None result]) w in
    match result with
    | Ok _ => (Ok tt, w1)
    | Throw e => (Throw e, w1)
    end
  else (Ok tt, w).

(** An environment whose topology asks for the check; every server
    selection answers [selection]. *)
Definition checking (selection : Outcome Thrown Server) (sessionSupport : bool)
  : Env :=
  mkEnv (fun _ => Ok (Some Examples.topology)) (fun _ => true)
    (fun _ => sessionSupport)
    (fun _ _ _ => selection)
    (fun _ _ _ => Ok "done")
    (fun _ _ => None).

Definition checked : Event :=
  EvSelectServer (Some (byReadPreference primaryPreferred)) None (Ok Examples.server).

End SessionSupport.

(** * Properties *)

(** ** The byte buffer pool *)

Module BufferPoolFacts.
Import ListT BufferPool.

Lemma read_loop_unfold size bytesRead result p :
  read_loop size bytesRead result p =
  if bytesRead <? size then
    match shift (buffers p) with
    | (None, _) => (result, p)
    | (Some buffer, bufs') =>
        let bytesReadable := Z.min (size - bytesRead) (byteLength buffer) in
        let result' := set_at result (subarray_to buffer bytesReadable) bytesRead in
        if bytesReadable <? byteLength buffer
        then read_loop size (bytesRead + bytesReadable) result'
               (mkPool (unshift (subarray_from buffer bytesReadable) bufs')
                       (totalByteLength p - bytesReadable))
        else read_loop size (bytesRead + bytesReadable) result'
               (mkPool bufs' (totalByteLength p - bytesReadable))
    end
  else (result, p).
Proof.
  rewrite read_loop_equation_1. unfold read_loop_unfold_clause_1.
  destruct (inspect (bytesRead <? size)) as [[|] Hb];
    (etransitivity; [|symmetry; rewrite Hb; reflexivity]); [|reflexivity].
  cbn [read_loop_unfold_clause_1_clause_2].
  destruct (inspect (shift (buffers p))) as [[[buffer|] bufs'] Hs];
    (etransitivity; [|symmetry; rewrite Hs; reflexivity]); [|reflexivity].
  cbn. destruct (Z_lt_dec _ _) as [Hl|Hl].
  - rewrite (proj2 (Z.ltb_lt _ _) Hl). reflexivity.
  - rewrite (proj2 (Z.ltb_ge _ _)) by lia. reflexivity.
Qed.

Lemma wf_new : wf new.
Proof. split; reflexivity. Qed.

Lemma contents_append b p : contents (append b p) = contents p ++ b.
Proof.
  unfold contents, append, push. cbn. rewrite concat_app. cbn.
  now rewrite app_nil_r.
Qed.

Lemma wf_append b p : wf p -> wf (append b p).
Proof.
  intros [Hc Ht]. split.
  - unfold ListT.wf, append, push in *. cbn. rewrite length_app. cbn. lia.
  - rewrite contents_append. unfold append, byteLength in *. cbn.
    rewrite length_app. lia.
Qed.

Lemma set_at_length target source offset :
  0 <= offset ->
  offset + byteLength source <= byteLength target ->
  byteLength (set_at target source offset) = byteLength target.
Proof.
  unfold set_at, byteLength. intros H0 H1.
  rewrite !length_app, length_take, length_drop. lia.
Qed.

Lemma set_at_prefix target source offset :
  0 <= offset ->
  offset + byteLength source <= byteLength target ->
  firstn (Z.to_nat (offset + byteLength source)) (set_at target source offset)
  = firstn (Z.to_nat offset) target ++ source.
Proof.
  unfold set_at, byteLength. intros H0 H1.
  rewrite app_assoc. rewrite take_app_length'; [reflexivity|].
  rewrite length_app, length_take. lia.
Qed.

Lemma read_loop_done size bytesRead (result : Buffer) p :
  (bytesRead <? size) = false -> wf p -> 0 <= bytesRead <= size ->
  byteLength result = size ->
  exists p',
    (result, p) =
      (firstn (Z.to_nat bytesRead) result
         ++ firstn (Z.to_nat (size - bytesRead)) (contents p), p')
    /\ wf p'
    /\ contents p' = skipn (Z.to_nat (size - bytesRead)) (contents p)
    /\ totalByteLength p' = totalByteLength p - (size - bytesRead).
Proof.
  intros Hlt Hwf Hb Hlen. apply Z.ltb_ge in Hlt.
  assert (bytesRead = size) by lia. subst bytesRead.
  exists p. rewrite Z.sub_diag. cbn.
  rewrite app_nil_r, firstn_all2 by (unfold byteLength in *; lia).
  repeat split; try apply Hwf. lia.
Qed.

Lemma read_loop_spec (bufs : list Buffer) :
  forall size bytesRead result c t,
    let p := mkPool (mkList bufs c) t in
    wf p -> 0 <= bytesRead <= size -> byteLength result = size ->
    size - bytesRead <= t ->
    exists p',
      read_loop size bytesRead result p =
        (firstn (Z.to_nat bytesRead) result
           ++ firstn (Z.to_nat (size - bytesRead)) (contents p), p')
      /\ wf p'
      /\ contents p' = skipn (Z.to_nat (size - bytesRead)) (contents p)
      /\ totalByteLength p' = t - (size - bytesRead).
Proof.
  induction bufs as [|b rest IH]; intros size bytesRead result c t p Hwf Hb Hlen Hrem;
    rewrite read_loop_unfold; destruct (bytesRead <? size) eqn:Hlt.
  - destruct Hwf as [_ Ht]. unfold contents, byteLength in Ht. cbn in Ht.
    apply Z.ltb_lt in Hlt. lia.
  - now apply read_loop_done.
  - subst p. apply Z.ltb_lt in Hlt. destruct Hwf as [Hc Ht].
    unfold ListT.wf in Hc. unfold contents in Ht. cbn in Hc, Ht.
    unfold byteLength in Ht, Hlen. rewrite length_app in Ht.
    unfold shift. cbn [buffers nodes count].
    replace (c =? 0) with false by (symmetry; apply Z.eqb_neq; lia).
    cbv zeta. cbn [totalByteLength].
    set (k := Z.min (size - bytesRead) (byteLength b)).
    assert (Hk1 : k <= size - bytesRead) by (subst k; lia).
    assert (Hk2 : k <= byteLength b) by (subst k; lia).
    assert (Hk3 : k = size - bytesRead \/ k = byteLength b) by (subst k; lia).
    assert (Hk0 : 0 <= k) by (subst k; unfold byteLength; lia).
    clearbody k.
    destruct (k <? byteLength b) eqn:Hpart.
    + apply Z.ltb_lt in Hpart.
      assert (Hk : k = size - bytesRead) by lia.
      rewrite read_loop_unfold.
      replace (bytesRead + k <? size) with false by (symmetry; apply Z.ltb_ge; lia).
      eexists. split; [|split; [|split]].
      * f_equal. unfold set_at, subarray_to, contents. cbn [buffers nodes concat].
        rewrite <- Hk. unfold byteLength in Hpart.
        rewrite take_app_le by lia.
        rewrite (drop_ge result) by (rewrite length_take; lia).
        now rewrite app_nil_r.
      * split.
        -- unfold ListT.wf. cbn. lia.
        -- unfold contents, byteLength, subarray_from. cbn.
           rewrite length_app, length_drop. unfold byteLength in Hpart. lia.
      * unfold contents, subarray_from. cbn. rewrite <- Hk.
        unfold byteLength in Hpart. rewrite drop_app_le by lia. reflexivity.
      * cbn. lia.
    + apply Z.ltb_ge in Hpart.
      assert (Hk : k = byteLength b) by lia.
      assert (Hfit : bytesRead + byteLength (subarray_to b k) <= byteLength result).
      { unfold subarray_to, byteLength in *. rewrite length_take. lia. }
      assert (Hsub : subarray_to b k = b).
      { unfold subarray_to. apply take_ge. unfold byteLength in Hk. lia. }
      destruct (IH size (bytesRead + k) (set_at result (subarray_to b k) bytesRead)
                  (c - 1) (t - k)) as (p' & Hrun & Hwf' & Hcont & Htot).
      * split; [unfold ListT.wf; cbn; lia|].
        unfold contents, byteLength in *. cbn. lia.
      * lia.
      * rewrite set_at_length; unfold byteLength in *; lia.
      * lia.
      * exists p'. rewrite Hrun. split; [|split; [exact Hwf'|split]].
        -- f_equal. rewrite Hsub in *. rewrite Hk.
           rewrite set_at_prefix by (unfold byteLength in *; lia).
           unfold contents. cbn [buffers nodes concat].
           rewrite <- app_assoc. f_equal.
           replace (Z.to_nat (size - bytesRead)) with
             (Datatypes.length b + Z.to_nat (size - (bytesRead + byteLength b)))%nat
             by (unfold byteLength in *; lia).
           rewrite take_app_add. reflexivity.
        -- rewrite Hcont. unfold contents. cbn [buffers nodes concat].
           replace (Z.to_nat (size - bytesRead)) with
             (Datatypes.length b + Z.to_nat (size - (bytesRead + k)))%nat
             by (unfold byteLength in *; lia).
           rewrite drop_app_add. reflexivity.
        -- rewrite Htot. lia.
  - now apply read_loop_done.
Qed.

Section ReadFacts.
Variable uninit : nat -> Byte.byte.

Lemma allocUnsafe_length size : 0 <= size -> byteLength (allocUnsafe uninit size) = size.
Proof.
  intros H. unfold byteLength, allocUnsafe. rewrite length_map, length_seq. lia.
Qed.

Lemma read_spec size p :
  wf p -> 0 <= size <= totalByteLength p ->
  exists p',
    read uninit size p = (Ok (firstn (Z.to_nat size) (contents p)), p')
    /\ wf p'
    /\ contents p' = skipn (Z.to_nat size) (contents p)
    /\ totalByteLength p' = totalByteLength p - size.
Proof.
  intros Hwf Hsz. unfold read.
  replace (size <? 0) with false by (symmetry; apply Z.ltb_ge; lia).
  replace (size >? totalByteLength p) with false
    by (symmetry; rewrite Z.gtb_ltb; apply Z.ltb_ge; lia).
  destruct p as [[bufs c] t]. cbn [totalByteLength] in *.
  destruct (read_loop_spec bufs size 0 (allocUnsafe uninit size) c t)
    as (p' & Hrun & Hwf' & Hcont & Htot); try lia; try assumption.
  - now apply allocUnsafe_length.
  - rewrite Z.sub_0_r in *. cbn [Z.to_nat take app] in Hrun. rewrite Hrun.
    exists p'. auto.
Qed.

(** [read] of more than is buffered returns the empty buffer and changes
    nothing; a negative size is refused. *)
Lemma read_oversized size p :
  0 <= size -> totalByteLength p < size -> read uninit size p = (Ok [], p).
Proof.
  intros H0 H1. unfold read.
  replace (size <? 0) with false by (symmetry; apply Z.ltb_ge; lia).
  replace (size >? totalByteLength p) with true
    by (symmetry; rewrite Z.gtb_ltb; apply Z.ltb_lt; lia).
  reflexivity.
Qed.

Lemma read_negative size p :
  size < 0 -> read uninit size p = (Throw (MongoInvalidArgumentError read_size_message), p).
Proof.
  intros H. unfold read. now rewrite (proj2 (Z.ltb_lt _ _) H).
Qed.

(** Every operation keeps the class invariant. *)
Lemma read_preserves_wf size p : wf p -> wf (snd (read uninit size p)).
Proof.
  intros Hwf. destruct (Z.lt_ge_cases size 0) as [Hneg|Hpos].
  - now rewrite read_negative.
  - destruct (Z.lt_ge_cases (totalByteLength p) size) as [Hbig|Hfit].
    + now rewrite read_oversized.
    + destruct (read_spec size p Hwf (conj Hpos Hfit)) as (p' & Hr & Hwf' & _).
      now rewrite Hr.
Qed.

End ReadFacts.

Lemma fold_append_spec chunks : forall p,
  wf p ->
  let q := fold_left (fun p chunk => append chunk p) chunks p in
  wf q /\ contents q = contents p ++ concat chunks.
Proof.
  induction chunks as [|c cs IH]; intros p Hwf; cbn.
  - split; [assumption|]. now rewrite app_nil_r.
  - destruct (IH (append c p) (wf_append c p Hwf)) as [H1 H2].
    split; [exact H1|]. rewrite H2, contents_append. now rewrite <- app_assoc.
Qed.

Lemma appendAll_wf chunks : wf (appendAll chunks).
Proof. apply (fold_append_spec chunks new wf_new). Qed.

Lemma appendAll_contents chunks : contents (appendAll chunks) = concat chunks.
Proof. apply (fold_append_spec chunks new wf_new). Qed.

Lemma appendAll_length chunks :
  BufferPool.length (appendAll chunks) = byteLength (concat chunks).
Proof.
  unfold BufferPool.length. rewrite (proj2 (appendAll_wf chunks)).
  now rewrite appendAll_contents.
Qed.

(** C6. For chunks appended in order to a fresh pool holding [total] bytes
    afterwards, and [0 <= n <= total], [read(n)] followed by
    [read(total - n)] both return normally and the two buffers, one after
    the other, are the concatenation of the chunks. *)
Theorem read_then_read_reconstructs (uninit : nat -> Byte.byte)
    (chunks : list Buffer) (n : Z) :
  let pool := appendAll chunks in
  let total := BufferPool.length pool in
  0 <= n <= total ->
  exists r1 p1 r2 p2,
    read uninit n pool = (Ok r1, p1)
    /\ read uninit (total - n) p1 = (Ok r2, p2)
    /\ r1 ++ r2 = concat chunks.
Proof.
  intros pool total Hn.
  destruct (read_spec uninit n pool (appendAll_wf chunks) Hn)
    as (p1 & Hr1 & Hwf1 & Hc1 & Ht1).
  destruct (read_spec uninit (total - n) p1 Hwf1) as (p2 & Hr2 & _ & _ & _).
  { rewrite Ht1. subst total. unfold BufferPool.length in *. lia. }
  eexists _, p1, _, p2. split; [exact Hr1|]. split; [exact Hr2|].
  rewrite Hc1. subst pool. rewrite appendAll_contents.
  assert (Hall : (Datatypes.length (drop (Z.to_nat n) (concat chunks)) <= Z.to_nat (total - n))%nat).
  { rewrite length_drop. subst total. rewrite appendAll_length.
    unfold byteLength. lia. }
  rewrite (take_ge _ _ Hall). apply take_drop.
Qed.

Lemma read_then_read_reconstructs_witness :
  let chunks := [[Byte.x01; Byte.x02]; []; [Byte.x03; Byte.x04; Byte.x05]] in
  0 <= 3 <= BufferPool.length (appendAll chunks)
  /\ exists r1 p1 r2 p2,
       read (fun _ => Byte.xff) 3 (appendAll chunks) = (Ok r1, p1)
       /\ read (fun _ => Byte.xff) (BufferPool.length (appendAll chunks) - 3) p1 = (Ok r2, p2)
       /\ r1 ++ r2 = concat chunks.
Proof.
  intros chunks.
  assert (H : 0 <= 3 <= BufferPool.length (appendAll chunks)) by (vm_compute; split; discriminate).
  split; [exact H|].
  exact (read_then_read_reconstructs (fun _ => Byte.xff) chunks 3 H).
Defined.

(** *** [readInt32LE] is the two's-complement little-endian value *)

Lemma byte_val_range b : 0 <= byte_val b < 256.
Proof.
  unfold byte_val. pose proof (Byte.to_N_bounded b). lia.
Qed.

Lemma lor_shiftl_add a b n :
  0 <= n -> 0 <= a < 2 ^ n -> Z.lor a (Z.shiftl b n) = a + b * 2 ^ n.
Proof.
  intros Hn Ha. rewrite <- Z.shiftl_mul_pow2 by assumption.
  symmetry. apply Z.add_nocarry_lor.
  apply Z.bits_inj'. intros i Hi. rewrite Z.land_spec, Z.bits_0.
  destruct (Z.lt_ge_cases i n) as [Hlt|Hge].
  - rewrite (Z.shiftl_spec_low b n i Hlt). apply andb_false_r.
  - rewrite <- (Z.mod_small a (2 ^ n)) by assumption.
    rewrite Z.mod_pow2_bits_high by lia. reflexivity.
Qed.

Lemma int32_of_bytes_spec b0 b1 b2 b3 :
  let v := int32_of_bytes b0 b1 b2 b3 in
  - 2 ^ 31 <= v < 2 ^ 31
  /\ v mod 2 ^ 32 =
     byte_val b0 + byte_val b1 * 2 ^ 8 + byte_val b2 * 2 ^ 16 + byte_val b3 * 2 ^ 24.
Proof.
  pose proof (byte_val_range b0) as H0. pose proof (byte_val_range b1) as H1.
  pose proof (byte_val_range b2) as H2. pose proof (byte_val_range b3) as H3.
  unfold int32_of_bytes. rewrite !Z.lor_assoc.
  rewrite (lor_shiftl_add (byte_val b0) (byte_val b1) 8) by lia.
  rewrite (lor_shiftl_add _ (byte_val b2) 16) by lia.
  rewrite (lor_shiftl_add _ (byte_val b3) 24) by lia.
  set (u := byte_val b0 + byte_val b1 * 2 ^ 8 + byte_val b2 * 2 ^ 16 + byte_val b3 * 2 ^ 24).
  assert (Hu : 0 <= u < 2 ^ 32) by (subst u; lia).
  clearbody u. cbv zeta.
  pose proof (Z.div_pos u (2 ^ 31) ltac:(lia) ltac:(lia)) as Hq0.
  pose proof (Z.div_lt_upper_bound u (2 ^ 31) 2 ltac:(lia) ltac:(lia)) as Hq1.
  pose proof (Z.mul_div_le u (2 ^ 31) ltac:(lia)) as Hq2.
  pose proof (Z.mul_succ_div_gt u (2 ^ 31) ltac:(lia)) as Hq3.
  destruct (Z.testbit u 31) eqn:E.
  - apply Z.testbit_true in E; [|lia].
    assert (u / 2 ^ 31 = 1).
    { destruct (Z.eq_dec (u / 2 ^ 31) 0) as [Hz|Hz]; [rewrite Hz in E; discriminate E|lia]. }
    split; [lia|].
    replace (u - 2 ^ 32) with (u + (-1) * 2 ^ 32) by lia.
    rewrite Z_mod_plus_full. apply Z.mod_small. lia.
  - apply Z.testbit_false in E; [|lia].
    assert (u / 2 ^ 31 = 0).
    { destruct (Z.eq_dec (u / 2 ^ 31) 1) as [Hz|Hz]; [rewrite Hz in E; discriminate E|lia]. }
    split; [lia|]. apply Z.mod_small. lia.
Qed.

Lemma contents_four p :
  wf p -> 4 <= totalByteLength p ->
  exists b0 b1 b2 b3 rest, contents p = b0 :: b1 :: b2 :: b3 :: rest.
Proof.
  intros [_ Ht] H4. rewrite Ht in H4. unfold byteLength in H4.
  destruct (contents p) as [|b0 [|b1 [|b2 [|b3 rest]]]]; cbn in H4; try lia.
  eauto 6.
Qed.

(** C7. With at least four bytes buffered, [getInt32] returns the signed
    little-endian 32-bit value of the first four buffered bytes and keeps
    the pool's total length and byte contents (wherever the chunk
    boundaries fall); with fewer than four it returns [null] and leaves the
    pool as it is. *)
Theorem getInt32_peeks (uninit : nat -> Byte.byte) (p : BufferPool) :
  wf p ->
  (4 <= totalByteLength p ->
   exists b0 b1 b2 b3 rest v p',
     contents p = b0 :: b1 :: b2 :: b3 :: rest
     /\ getInt32 uninit p = (Ok (Some v), p')
     /\ v = int32_of_bytes b0 b1 b2 b3
     /\ - 2 ^ 31 <= v < 2 ^ 31
     /\ v mod 2 ^ 32 =
        byte_val b0 + byte_val b1 * 2 ^ 8 + byte_val b2 * 2 ^ 16 + byte_val b3 * 2 ^ 24
     /\ totalByteLength p' = totalByteLength p
     /\ contents p' = contents p
     /\ wf p')
  /\ (totalByteLength p < 4 -> getInt32 uninit p = (Ok None, p)).
Proof.
  intros Hwf. split.
  - intros H4.
    destruct (contents_four p Hwf H4) as (b0 & b1 & b2 & b3 & rest & Hc).
    exists b0, b1, b2, b3, rest, (int32_of_bytes b0 b1 b2 b3).
    destruct (int32_of_bytes_spec b0 b1 b2 b3) as [Hrange Hmod].
    assert (Hsplit : exists p', getInt32_split uninit p =
                       (Ok (Some (int32_of_bytes b0 b1 b2 b3)), p')
                     /\ totalByteLength p' = totalByteLength p
                     /\ contents p' = contents p /\ wf p').
    { unfold getInt32_split.
      destruct (read_spec uninit 4 p Hwf ltac:(lia)) as (p1 & Hr & [Hc1 Ht1] & Hcont & Htot).
      change (Z.to_nat 4) with 4%nat in *.
      rewrite Hr, Hc.
      change (take 4 (b0 :: b1 :: b2 :: b3 :: rest)) with [b0; b1; b2; b3].
      cbn [readInt32LE].
      eexists. split; [reflexivity|]. cbn [totalByteLength buffers].
      split; [lia|]. split.
      - unfold contents at 1. cbn [buffers unshift nodes concat].
        fold (contents p1). rewrite Hcont, Hc. reflexivity.
      - split.
        + unfold ListT.wf in *. cbn. lia.
        + unfold contents at 1. cbn [buffers unshift nodes concat totalByteLength].
          fold (contents p1). unfold byteLength in *. rewrite length_app. cbn. lia. }
    unfold getInt32.
    replace (totalByteLength p <? 4) with false by (symmetry; apply Z.ltb_ge; lia).
    destruct (first (buffers p)) as [firstBuffer|] eqn:Hfirst.
    + destruct (4 <=? byteLength firstBuffer) eqn:Hlen.
      * apply Z.leb_le in Hlen. unfold first in Hfirst.
        pose proof Hc as Hc'. unfold contents in Hc'.
        destruct (nodes (buffers p)) as [|fb bufs]; [discriminate Hfirst|].
        cbn in Hfirst. injection Hfirst as ->. cbn [concat] in Hc'.
        unfold byteLength in Hlen.
        destruct firstBuffer as [|c0 [|c1 [|c2 [|c3 r]]]]; cbn in Hlen; try lia.
        cbn in Hc'. injection Hc' as -> -> -> -> _.
        exists p. cbn [readInt32LE]. repeat split; auto; try apply Hrange; apply Hwf.
      * destruct Hsplit as (p' & Hrun & Ht & Hcont & Hwf').
        exists p'. rewrite Hrun. repeat split; auto; try apply Hrange; apply Hwf'.
    + destruct Hsplit as (p' & Hrun & Ht & Hcont & Hwf').
      exists p'. rewrite Hrun. repeat split; auto; try apply Hrange; apply Hwf'.
  - intros Hlt. unfold getInt32. now rewrite (proj2 (Z.ltb_lt _ _) Hlt).
Qed.

Lemma getInt32_peeks_witness :
  let p := append [Byte.x00; Byte.x01] (append [Byte.x02] (append [Byte.xff] new)) in
  wf p /\ 4 <= totalByteLength p
  /\ fst (getInt32 (fun _ => Byte.x00) p) = Ok (Some 16777983).
Proof.
  intros p.
  assert (Hwf : wf p) by (repeat apply wf_append; apply wf_new).
  assert (H4 : 4 <= totalByteLength p) by (vm_compute; discriminate).
  split; [exact Hwf|]. split; [exact H4|].
  destruct (proj1 (getInt32_peeks (fun _ => Byte.x00) p Hwf) H4)
    as (b0 & b1 & b2 & b3 & rest & v & p' & Hc & Hrun & Hv & _).
  rewrite Hrun. cbn [fst]. f_equal. f_equal.
  vm_compute in Hc. injection Hc as <- <- <- <- _. subst v. reflexivity.
Defined.
End BufferPoolFacts.

(** ** The state transition guard *)

Module StateMachineFacts.
Import StateMachine.

Lemma indexOf_lower_bound l x : -1 <= indexOf l x.
Proof.
  induction l as [|y l IH]; cbn; [lia|].
  destruct (String.eqb y x); [lia|].
  destruct (indexOf l x <? 0) eqn:E; [lia|]. apply Z.ltb_ge in E. lia.
Qed.

Lemma indexOf_negative l x : (indexOf l x <? 0) = true <-> x ∉ l.
Proof.
  induction l as [|y l IH]; cbn.
  - split; [intros _; apply not_elem_of_nil|reflexivity].
  - destruct (String.eqb y x) eqn:Exy.
    + apply String.eqb_eq in Exy. subst y. split; [discriminate|].
      intros H. exfalso. apply H. left.
    + apply String.eqb_neq in Exy. rewrite not_elem_of_cons.
      destruct (indexOf l x <? 0) eqn:E.
      * split; [intros _|reflexivity]. split; [congruence|]. now apply IH.
      * pose proof (indexOf_lower_bound l x). apply Z.ltb_ge in E.
        split.
        -- intros H1. apply Z.ltb_lt in H1. lia.
        -- intros [_ H1]. apply IH in H1. discriminate H1.
Qed.

(** C8. When the current state has an entry in the table: a requested
    state outside the entry is refused with the error whose message names
    the current state, the requested state and the entry, and the target is
    left as it was; a requested state inside the entry is announced by
    [stateChanged (old, new)] and becomes the state. *)
Theorem stateTransition_guard (stateTable : gmap string (list string))
    (target : ObjectWithState) (newState : string) (legal : list string) :
  stateTable !! state target = Some legal ->
  (newState ∉ legal ->
   makeStateMachine stateTable target newState =
     (Throw (MongoRuntimeError
               ("illegal state transition from [" +:+ state target +:+ "] => ["
                  +:+ newState +:+ "], allowed: [" +:+ join "," legal +:+ "]")),
      target))
  /\ (newState ∈ legal ->
      makeStateMachine stateTable target newState =
        (Ok tt,
         mkTarget newState
           (emitted target ++ [stateChanged (state target) newState]))).
Proof.
  intros Hlook. unfold makeStateMachine, get. rewrite Hlook. split; intros H.
  - apply indexOf_negative in H. rewrite H. reflexivity.
  - destruct (indexOf legal newState <? 0) eqn:E; [|reflexivity].
    apply indexOf_negative in E. contradiction.
Qed.

Lemma stateTransition_guard_witness :
  example_table !! "A"%string = Some ["B"%string]
  /\ makeStateMachine example_table (mkTarget "A" []) "C" =
       (Throw (MongoRuntimeError
                 "illegal state transition from [A] => [C], allowed: [B]"),
        mkTarget "A" [])
  /\ makeStateMachine example_table (mkTarget "A" []) "B" =
       (Ok tt, mkTarget "B" [stateChanged "A" "B"]).
Proof.
  assert (Hlook : example_table !! "A"%string = Some ["B"%string]) by reflexivity.
  split; [exact Hlook|].
  destruct (stateTransition_guard example_table (mkTarget "A" []) "C" ["B"%string] Hlook)
    as [Hbad _].
  destruct (stateTransition_guard example_table (mkTarget "A" []) "B" ["B"%string] Hlook)
    as [_ Hgood].
  split.
  - apply Hbad. intros Hin. apply list_elem_of_In in Hin.
    destruct Hin as [Heq|[]]. discriminate Heq.
  - apply Hgood. left.
Defined.

(** C10, as amended.  When the current state is neither a key of the table
    nor the name of a member inherited from [Object.prototype], any
    requested state is accepted: the notification is emitted and the state
    committed.  The guard's own error arises only if the current state has
    an entry and the requested state is not in it.  When the current state
    is no key of the table but names an inherited member, the call fails
    with a [TypeError]; nothing is emitted and the state stays. *)
Theorem stateTransition_unlisted_state (stateTable : gmap string (list string))
    (target : ObjectWithState) (newState : string) :
  (stateTable !! state target = None ->
   state target ∉ Object_prototype_members ->
   makeStateMachine stateTable target newState =
     (Ok tt,
      mkTarget newState
        (emitted target ++ [stateChanged (state target) newState])))
  /\ (forall message target',
        makeStateMachine stateTable target newState
          = (Throw (MongoRuntimeError message), target') ->
        exists legal,
          stateTable !! state target = Some legal /\ newState ∉ legal)
  /\ (stateTable !! state target = None ->
      state target ∈ Object_prototype_members ->
      exists message,
        makeStateMachine stateTable target newState
          = (Throw (TypeError message), target)).
Proof.
  assert (Hmem : forall key,
            existsb (String.eqb key) Object_prototype_members = true
            <-> key ∈ Object_prototype_members).
  { intros key. rewrite existsb_exists, list_elem_of_In. split.
    - intros (x & Hin & Heq). apply String.eqb_eq in Heq. now subst x.
    - intros Hin. exists key. split; [exact Hin|apply String.eqb_refl]. }
  unfold makeStateMachine, get. repeat split.
  - intros -> Hout.
    destruct (existsb _ _) eqn:E; [|reflexivity].
    apply Hmem in E. contradiction.
  - intros message target'.
    destruct (stateTable !! state target) as [legal|].
    + destruct (indexOf legal newState <? 0) eqn:E; [|discriminate].
      intros _. exists legal. split; [reflexivity|]. now apply indexOf_negative.
    + destruct (existsb _ _); discriminate.
  - intros -> Hin. apply Hmem in Hin. rewrite Hin. eexists. reflexivity.
Qed.

Lemma stateTransition_unlisted_state_witness :
  makeStateMachine example_table (mkTarget "C" []) "anything" =
    (Ok tt, mkTarget "anything" [stateChanged "C" "anything"])
  /\ exists message,
       makeStateMachine example_table (mkTarget "toString" []) "A"
         = (Throw (TypeError message), mkTarget "toString" []).
Proof.
  destruct (stateTransition_unlisted_state example_table (mkTarget "C" []) "anything")
    as (Hfree & _ & _).
  destruct (stateTransition_unlisted_state example_table (mkTarget "toString" []) "A")
    as (_ & _ & Hinherited).
  split.
  - apply Hfree; [reflexivity|].
    intros Hin. apply list_elem_of_In in Hin. cbn in Hin.
    repeat (destruct Hin as [Hin|Hin]; [discriminate Hin|]). exact Hin.
  - apply Hinherited; [reflexivity|].
    apply list_elem_of_In. cbn. tauto.
Defined.

(** The claim as first stated fails: ["constructor"] is no key of the
    example table, yet requesting a state from it is refused, nothing is
    emitted and the state stays. *)
Lemma stateTransition_unlisted_state_counterexample :
  example_table !! "constructor"%string = None
  /\ makeStateMachine example_table (mkTarget "constructor" []) "A"
     = (Throw (TypeError "legalStates.indexOf is not a function"),
        mkTarget "constructor" [])
  /\ makeStateMachine example_table (mkTarget "constructor" []) "A"
     <> (Ok tt, mkTarget "A" [stateChanged "constructor" "A"]).
Proof. split; [reflexivity|split; [reflexivity|discriminate]]. Qed.

End StateMachineFacts.

(** ** Strings and host addresses *)

Module StringFacts.
Import HostAddress.

Lemma chars_str l : chars (str l) = l.
Proof. apply list_ascii_of_string_of_list_ascii. Qed.

Lemma str_chars s : str (chars s) = s.
Proof. apply string_of_list_ascii_of_string. Qed.

Lemma str_app a b : str (a ++ b) = str a +:+ str b.
Proof.
  unfold str. induction a as [|c a IH]; cbn; [reflexivity|]. now rewrite IH.
Qed.

Lemma chars_append a b : chars (a +:+ b) = chars a ++ chars b.
Proof.
  rewrite <- (str_chars a), <- (str_chars b), <- str_app, !chars_str. reflexivity.
Qed.

Lemma str_inj a b : str a = str b -> a = b.
Proof. intros H. rewrite <- (chars_str a), <- (chars_str b). now rewrite H. Qed.

Lemma join_cons sep x l :
  l <> [] -> join sep (x :: l) = x +:+ sep +:+ join sep l.
Proof. destruct l; [congruence|reflexivity]. Qed.

Lemma split_chars_nonempty sep l cur : split_chars sep l cur <> [].
Proof.
  revert cur. induction l as [|c l IH]; intros cur; cbn; [discriminate|].
  destruct (Ascii.eqb c sep); [discriminate|apply IH].
Qed.

Lemma append_assoc a b c : (a +:+ b) +:+ c = a +:+ (b +:+ c).
Proof.
  induction a as [|x a IH]; [reflexivity|].
  change (String x ((a +:+ b) +:+ c) = String x (a +:+ b +:+ c)).
  now rewrite IH.
Qed.

(** Joining the pieces of a split with the separator gives the string back. *)
Lemma join_split_chars sep l : forall cur,
  join (String sep EmptyString) (map str (split_chars sep l cur)) = str (rev cur ++ l).
Proof.
  induction l as [|c l IH]; intros cur; cbn [split_chars].
  - cbn. now rewrite app_nil_r.
  - destruct (Ascii.eqb c sep) eqn:E.
    + apply Ascii.eqb_eq in E. subst c. cbn [map].
      rewrite join_cons.
      * rewrite IH. cbn [rev app]. rewrite str_app. reflexivity.
      * intros H. apply map_eq_nil in H. now apply split_chars_nonempty in H.
    + rewrite IH. cbn [rev]. rewrite <- app_assoc. reflexivity.
Qed.

Lemma join_split sep s : join (String sep EmptyString) (split sep s) = s.
Proof.
  unfold split. rewrite join_split_chars. cbn. apply str_chars.
Qed.


(** Splitting [d ++ sep :: l] when [d] has no separator. *)
Lemma split_chars_head sep d l : forall cur,
  ~ In sep d ->
  split_chars sep (d ++ sep :: l) cur = rev (rev d ++ cur) :: split_chars sep l [].
Proof.
  induction d as [|c d IH]; intros cur Hd; cbn.
  - now rewrite Ascii.eqb_refl.
  - destruct (Ascii.eqb c sep) eqn:E.
    + apply Ascii.eqb_eq in E. subst c. exfalso. apply Hd. now left.
    + rewrite IH by (intros H; apply Hd; now right).
      rewrite <- app_assoc. reflexivity.
Qed.

Lemma split_chars_dotless sep d : forall cur,
  ~ In sep d -> split_chars sep d cur = [rev (rev d ++ cur)].
Proof.
  induction d as [|c d IH]; intros cur Hd; cbn; [reflexivity|].
  destruct (Ascii.eqb c sep) eqn:E.
  - apply Ascii.eqb_eq in E. subst c. exfalso. apply Hd. now left.
  - rewrite IH by (intros H; apply Hd; now right).
    rewrite <- app_assoc. reflexivity.
Qed.

(** The first piece of a split has no separator. *)
Lemma split_chars_first sep l : forall cur p ps,
  ~ In sep cur ->
  split_chars sep l cur = p :: ps -> ~ In sep p.
Proof.
  induction l as [|c l IH]; intros cur p ps Hc; cbn.
  - intros [= <- <-]. now rewrite <- in_rev.
  - destruct (Ascii.eqb c sep) eqn:E.
    + intros [= <- <-]. now rewrite <- in_rev.
    + apply IH. intros [<-|H]; [|contradiction].
      now rewrite Ascii.eqb_refl in E.
Qed.

End StringFacts.

Module HostAddressLemmas.
Import HostAddress HostTexts StringFacts.

(** *** Characters *)

Ltac by_cases c := destruct c as [[] [] [] [] [] [] [] []]; vm_compute; congruence.

Lemma plain_tame c : plain_host_char c = true -> tame c = true.
Proof. by_cases c. Qed.

Lemma digit_plain c : is_digit c = true -> plain_host_char c = true.
Proof. by_cases c. Qed.

Lemma colon_calm : calm ":" = true.
Proof. reflexivity. Qed.

Lemma tame_calm c : tame c = true -> calm c = true.
Proof. by_cases c. Qed.

Lemma calm_facts c :
  calm c = true ->
  is_ascii c = true /\ is_c0_or_space c = false /\ is_tab_or_newline c = false
  /\ is_authority_end c = false /\ Ascii.eqb c "@" = false
  /\ Ascii.eqb c "%" = false /\ Ascii.eqb c " " = false.
Proof. destruct c as [[] [] [] [] [] [] [] []]; vm_compute; intuition congruence. Qed.

Lemma tame_facts c :
  tame c = true ->
  Ascii.eqb c ":" = false /\ Ascii.eqb c "[" = false /\ Ascii.eqb c "]" = false
  /\ forbidden_host_code_point c = false /\ percent_encode_c0 c = [c]
  /\ Ascii.eqb (lower_char c) "[" = false.
Proof. destruct c as [[] [] [] [] [] [] [] []]; vm_compute; intuition congruence. Qed.

Lemma lower_char_ascii c :
  is_ascii c = true ->
  is_ascii (lower_char c) = true /\ is_upper (lower_char c) = false
  /\ lower_char (lower_char c) = lower_char c.
Proof. destruct c as [[] [] [] [] [] [] [] []]; vm_compute; intuition congruence. Qed.

Lemma digit_not_k c : is_digit c = true -> Ascii.eqb c "k" = false.
Proof. by_cases c. Qed.

(** *** Lists of characters *)

Lemma forallb_impl {A} (f g : A -> bool) l :
  (forall x, f x = true -> g x = true) -> forallb f l = true -> forallb g l = true.
Proof.
  intros H. induction l as [|x l IH]; cbn; [auto|].
  intros Hx. apply andb_true_iff in Hx as [H1 H2]. now rewrite (H _ H1), IH.
Qed.

Lemma forallb_not_In {A} (f : A -> bool) l x :
  forallb f l = true -> f x = false -> ~ In x l.
Proof.
  intros Hl Hx Hin. rewrite forallb_forall in Hl. specialize (Hl _ Hin). congruence.
Qed.

Lemma drop_while_none f l :
  forallb (fun c => negb (f c)) l = true -> drop_while f l = l.
Proof.
  destruct l as [|c l]; cbn; [reflexivity|].
  intros H. apply andb_true_iff in H as [H _]. apply negb_true_iff in H.
  now rewrite H.
Qed.

Lemma filter_all {A} (f : A -> bool) l :
  forallb f l = true -> List.filter f l = l.
Proof.
  induction l as [|x l IH]; cbn; [reflexivity|].
  intros H. apply andb_true_iff in H as [H1 H2]. now rewrite H1, IH.
Qed.

Lemma take_authority_all l :
  forallb (fun c => negb (is_authority_end c)) l = true -> take_authority l = l.
Proof.
  induction l as [|c l IH]; cbn; [reflexivity|].
  intros H. apply andb_true_iff in H as [H1 H2]. apply negb_true_iff in H1.
  now rewrite H1, IH.
Qed.

Lemma after_last_at_none l :
  forallb (fun c => negb (Ascii.eqb c "@")) l = true -> after_last_at l = None.
Proof.
  induction l as [|c l IH]; cbn; [reflexivity|].
  intros H. apply andb_true_iff in H as [H1 H2]. apply negb_true_iff in H1.
  now rewrite IH, H1.
Qed.

Lemma scan_host_tame l : forall rest buffer,
  forallb tame l = true ->
  (rest = [] \/ exists tail, rest = ":"%char :: tail) ->
  scan_host (l ++ rest) false buffer
  = (rev buffer ++ l, match rest with [] => None | _ :: tail => Some tail end).
Proof.
  induction l as [|c l IH]; intros rest buffer Hl Hrest.
  - cbn [app]. rewrite app_nil_r.
    destruct Hrest as [->|[tail ->]]; reflexivity.
  - cbn in Hl. apply andb_true_iff in Hl as [Hc Hl].
    destruct (tame_facts c Hc) as (H1 & H2 & H3 & _).
    cbn [app scan_host]. rewrite H1, H2, H3. cbn [andb].
    rewrite IH by assumption. cbn [rev]. now rewrite <- app_assoc.
Qed.

Lemma parse_host_tame l : forallb tame l = true -> parse_host l = Some l.
Proof.
  intros Hl. unfold parse_host.
  assert (H0 : match l with c :: _ => Ascii.eqb c "[" | [] => false end = false).
  { destruct l as [|c l]; [reflexivity|]. cbn in Hl.
    apply andb_true_iff in Hl as [Hc _]. now destruct (tame_facts c Hc) as (_ & H & _). }
  rewrite H0. clear H0.
  assert (H1 : existsb forbidden_host_code_point l = false
               /\ flat_map percent_encode_c0 l = l).
  { induction l as [|c l IH]; [split; reflexivity|]. cbn in Hl.
    apply andb_true_iff in Hl as [Hc Hl].
    destruct (tame_facts c Hc) as (_ & _ & _ & Hf & Hp & _).
    destruct (IH Hl) as [IH1 IH2]. cbn [existsb flat_map].
    rewrite Hf, Hp, IH1, IH2. split; reflexivity. }
  destruct H1 as [-> ->]. reflexivity.
Qed.

Lemma decode_chars_plain l :
  forallb (fun c => negb (Ascii.eqb c "%")) l = true -> decode_chars l = Some l.
Proof.
  induction l as [|c l IH]; [reflexivity|].
  cbn [forallb]. intros H. apply andb_true_iff in H as [H1 H2].
  apply negb_true_iff in H1.
  cbn [decode_chars]. rewrite H1, IH by exact H2. reflexivity.
Qed.


Lemma forallb_rev {A} (f : A -> bool) l : forallb f (rev l) = forallb f l.
Proof.
  induction l as [|x l IH]; [reflexivity|].
  cbn. rewrite forallb_app, IH. cbn. destruct (forallb f l), (f x); reflexivity.
Qed.

Lemma str_nil_iff l : str l = EmptyString <-> l = [].
Proof. destruct l; cbn; split; congruence. Qed.

Lemma chars_nil_iff s : chars s = [] <-> s = EmptyString.
Proof. destruct s; cbn; split; congruence. Qed.

(** *** The port *)

Lemma forallb_drop_while f g l :
  forallb f l = true -> forallb f (drop_while g l) = true.
Proof.
  induction l as [|c l IH]; cbn; [auto|].
  intros H. apply andb_true_iff in H as [H1 H2].
  destruct (g c); [auto|]. cbn. now rewrite H1, H2.
Qed.

Lemma leading_digits_all l : forallb is_digit l = true -> leading_digits l = l.
Proof.
  induction l as [|c l IH]; cbn; [auto|].
  intros H. apply andb_true_iff in H as [H1 H2]. rewrite H1. now rewrite IH.
Qed.

Lemma digits_value_drop_zeros l :
  digits_value (drop_while (Ascii.eqb "0") l) 0 = digits_value l 0.
Proof.
  induction l as [|c l IH]; cbn [drop_while]; [reflexivity|].
  destruct (Ascii.eqb "0" c) eqn:E; [|reflexivity].
  apply Ascii.eqb_eq in E. subst c. rewrite IH. reflexivity.
Qed.

Lemma digits_value_nonneg l : forall acc, 0 <= acc -> 0 <= digits_value l acc.
Proof.
  induction l as [|c l IH]; intros acc H; cbn; [exact H|].
  apply IH. lia.
Qed.

(** A port the URL parser accepts is empty or a decimal number of at most
    65535. *)
Lemma parse_port_shape l pt :
  parse_port l = Some pt ->
  pt = [] \/ (pt <> [] /\ exists n, parseInt (str pt) = Num n /\ 0 <= n <= 65535).
Proof.
  unfold parse_port. destruct (forallb is_digit l) eqn:Hd; cbn [negb]; [|discriminate].
  destruct l as [|c l]; [intros [= <-]; now left|].
  destruct (65535 <? digits_value (c :: l) 0) eqn:Hle; [discriminate|].
  apply Z.ltb_ge in Hle.
  pose proof (digits_value_nonneg (c :: l) 0 ltac:(lia)) as Hnn.
  pose proof (digits_value_drop_zeros (c :: l)) as Hz.
  pose proof (forallb_drop_while is_digit (Ascii.eqb "0") _ Hd) as Hd'.
  destruct (drop_while (Ascii.eqb "0") (c :: l)) as [|d ds] eqn:E.
  - intros [= <-]. right. split; [discriminate|]. exists 0. split; [reflexivity|lia].
  - intros [= <-]. right. split; [discriminate|].
    exists (digits_value (c :: l) 0). split; [|lia].
    unfold parseInt. rewrite chars_str, (leading_digits_all _ Hd').
    now rewrite Hz.
Qed.

(** Decimal digits of a value up to 65535 are accepted with that value. *)
Lemma parse_port_digits l :
  forallb is_digit l = true -> l <> [] -> digits_value l 0 <= 65535 ->
  exists pt,
    parse_port l = Some pt /\ pt <> []
    /\ parseInt (str pt) = Num (digits_value l 0).
Proof.
  intros Hd Hne Hle. unfold parse_port. rewrite Hd. cbn [negb].
  destruct l as [|c l]; [congruence|].
  replace (65535 <? digits_value (c :: l) 0) with false
    by (symmetry; apply Z.ltb_ge; lia).
  pose proof (digits_value_drop_zeros (c :: l)) as Hz.
  pose proof (forallb_drop_while is_digit (Ascii.eqb "0") _ Hd) as Hd'.
  destruct (drop_while (Ascii.eqb "0") (c :: l)) as [|d ds] eqn:E.
  - eexists. split; [reflexivity|]. split; [discriminate|].
    rewrite <- Hz. reflexivity.
  - eexists. split; [reflexivity|]. split; [discriminate|].
    unfold parseInt. rewrite chars_str, (leading_digits_all _ Hd').
    now rewrite Hz.
Qed.

(** *** The URL of a calm authority *)

Lemma URL_calm (authority : list ascii) :
  forallb calm authority = true ->
  URL ("iLoveJS://" +:+ str authority) = parse_authority authority.
Proof.
  intros Hc. unfold URL.
  rewrite chars_append, chars_str.
  set (whole := chars "iLoveJS://" ++ authority).
  assert (H1 : forallb (fun c => negb (is_c0_or_space c)) whole = true).
  { unfold whole. rewrite forallb_app. apply andb_true_iff. split; [reflexivity|].
    revert Hc. apply forallb_impl. intros c H.
    destruct (calm_facts c H) as (_ & -> & _). reflexivity. }
  assert (H2 : forallb (fun c => negb (is_tab_or_newline c)) whole = true).
  { unfold whole. rewrite forallb_app. apply andb_true_iff. split; [reflexivity|].
    revert Hc. apply forallb_impl. intros c H.
    destruct (calm_facts c H) as (_ & _ & -> & _). reflexivity. }
  rewrite (drop_while_none _ whole H1).
  rewrite (drop_while_none _ (rev whole)) by (now rewrite forallb_rev).
  rewrite rev_involutive, (filter_all _ whole H2).
  unfold whole. reflexivity.
Qed.

Lemma parse_authority_host (h : list ascii) :
  forallb tame h = true ->
  parse_authority h = Some (mkURL (str h) EmptyString).
Proof.
  intros Ht. unfold parse_authority.
  assert (Hc : forallb calm h = true) by (revert Ht; apply forallb_impl, tame_calm).
  rewrite take_authority_all, after_last_at_none.
  - pose proof (scan_host_tame h [] [] Ht (or_introl eq_refl)) as Hs.
    rewrite app_nil_r in Hs. rewrite Hs. cbn [rev app].
    now rewrite parse_host_tame.
  - revert Hc. apply forallb_impl. intros c H.
    destruct (calm_facts c H) as (_ & _ & _ & _ & -> & _). reflexivity.
  - revert Hc. apply forallb_impl. intros c H.
    destruct (calm_facts c H) as (_ & _ & _ & -> & _). reflexivity.
Qed.

Lemma parse_authority_host_port (h p : list ascii) :
  forallb tame h = true -> h <> [] ->
  forallb is_digit p = true -> p <> [] -> digits_value p 0 <= 65535 ->
  exists pt,
    parse_authority (h ++ ":"%char :: p) = Some (mkURL (str h) (str pt))
    /\ pt <> [] /\ parseInt (str pt) = Num (digits_value p 0).
Proof.
  intros Ht Hh Hd Hp Hle. unfold parse_authority.
  assert (Hc : forallb calm (h ++ ":"%char :: p) = true).
  { rewrite forallb_app. cbn [forallb]. rewrite colon_calm.
    rewrite (forallb_impl _ _ h tame_calm Ht).
    erewrite (forallb_impl _ _ p (fun c H => tame_calm c (plain_tame c (digit_plain c H))) Hd).
    reflexivity. }
  destruct (parse_port_digits p Hd Hp Hle) as (pt & Hpt & Hne & Hv).
  exists pt. rewrite take_authority_all, after_last_at_none.
  - rewrite (scan_host_tame h (":"%char :: p) [] Ht) by (right; eauto).
    cbn [rev app]. destruct h as [|c h]; [congruence|].
    rewrite parse_host_tame by exact Ht. rewrite Hpt. auto.
  - revert Hc. apply forallb_impl. intros c H.
    destruct (calm_facts c H) as (_ & _ & _ & _ & -> & _). reflexivity.
  - revert Hc. apply forallb_impl. intros c H.
    destruct (calm_facts c H) as (_ & _ & _ & -> & _). reflexivity.
Qed.

(** *** The constructor on calm text *)

Lemma escaped_unchanged (s : string) :
  ~ In " "%char (chars s) -> join "%20" (split " " s) = s.
Proof.
  intros H. unfold split. rewrite split_chars_dotless by exact H.
  cbn [map join]. rewrite app_nil_r, rev_involutive. apply str_chars.
Qed.

Lemma prefix_head_ne (a b : ascii) (s t : string) :
  Ascii.eqb b a = false -> String.prefix (String a s) (String b t) = false.
Proof.
  intros H.
  change (String.prefix (String a s) (String b t))
    with (if ascii_dec a b then String.prefix s t else false).
  destruct (ascii_dec a b) as [->|_]; [|reflexivity].
  rewrite Ascii.eqb_refl in H. discriminate H.
Qed.

Lemma endsWith_last (s : list ascii) (c : ascii) :
  Ascii.eqb c "k" = false -> endsWith (str (s ++ [c])) ".sock" = false.
Proof.
  intros H. unfold endsWith. rewrite chars_str, rev_app_distr.
  change (str (rev (chars ".sock"))) with (String "k" "cos.").
  change (str (rev [c] ++ rev s)) with (String c (str (rev s))).
  now apply prefix_head_ne.
Qed.

Lemma toLowerCase_ascii (l : list ascii) :
  forallb is_ascii l = true ->
  toLowerCase (str l) = Some (str (ascii_lowercase l))
  /\ toLowerCase (str (ascii_lowercase l)) = Some (str (ascii_lowercase l)).
Proof.
  intros H. unfold toLowerCase. rewrite !chars_str, H.
  assert (H2 : forallb is_ascii (ascii_lowercase l) = true
               /\ ascii_lowercase (ascii_lowercase l) = ascii_lowercase l).
  { unfold ascii_lowercase.
    induction l as [|c l IH]; [split; reflexivity|]. cbn in H.
    apply andb_true_iff in H as [Hc Hl]. destruct (IH Hl) as [IH1 IH2].
    destruct (lower_char_ascii c Hc) as (H1 & _ & H3).
    cbn [map forallb]. rewrite H1, IH1, H3, IH2. split; reflexivity. }
  destruct H2 as [-> ->]. split; reflexivity.
Qed.

Lemma lowercase_is_lower_case (l : list ascii) :
  forallb is_ascii l = true -> lower_case (str (ascii_lowercase l)).
Proof.
  intros H. unfold lower_case, ascii_lowercase. rewrite chars_str.
  induction l as [|c l IH]; [reflexivity|]. cbn in H.
  apply andb_true_iff in H as [Hc Hl].
  destruct (lower_char_ascii c Hc) as (H1 & H2 & _).
  cbn [map forallb]. now rewrite H1, H2, IH.
Qed.

End HostAddressLemmas.

Module HostAddressFacts.
Import HostAddress HostTexts StringFacts HostAddressLemmas.

Lemma plain_host_chars h :
  plain_host h ->
  forallb tame (chars h) = true /\ chars h <> []
  /\ forallb is_ascii (chars h) = true
  /\ ~ In " "%char (chars h)
  /\ forallb (fun c => negb (Ascii.eqb c "%")) (chars h) = true.
Proof.
  intros [Hne Hp].
  assert (Ht : forallb tame (chars h) = true)
    by (revert Hp; apply forallb_impl, plain_tame).
  assert (Hc : forallb calm (chars h) = true)
    by (revert Ht; apply forallb_impl, tame_calm).
  repeat split.
  - exact Ht.
  - now rewrite chars_nil_iff.
  - revert Hc. apply forallb_impl. intros c H. now destruct (calm_facts c H).
  - intros Hin. rewrite forallb_forall in Hc.
    destruct (calm_facts _ (Hc _ Hin)) as (_ & _ & _ & _ & _ & _ & H). discriminate H.
  - revert Hc. apply forallb_impl. intros c H.
    destruct (calm_facts c H) as (_ & _ & _ & _ & _ & -> & _). reflexivity.
Qed.

(** What the constructor does once the URL has answered. *)
Lemma new_after_URL (s : string) (h : list ascii) (pt : string) :
  forallb is_ascii (chars s) = true ->
  ~ In " "%char (chars s) ->
  endsWith s ".sock" = false ->
  URL ("iLoveJS://" +:+ s) = Some (mkURL (str h) pt) ->
  forallb tame h = true -> h <> [] ->
  new s =
    match (if negb (String.eqb pt EmptyString) then parseInt pt else Num 27017) with
    | Num 0 => Some (Throw (MongoParseError "Invalid port (zero) with hostname"))
    | this_port =>
        Some (Ok (mkHostAddress (Some (str (ascii_lowercase h))) (Some this_port)
                    None false))
    end.
Proof.
  intros Ha Hsp Hsock Hurl Ht Hh. unfold new.
  rewrite Ha. cbn [negb]. rewrite (escaped_unchanged s Hsp), Hsock, Hurl.
  cbn [url_hostname url_port].
  assert (Hc : forallb calm h = true) by (revert Ht; apply forallb_impl, tame_calm).
  unfold decodeURIComponent. rewrite chars_str, decode_chars_plain.
  2:{ revert Hc. apply forallb_impl. intros c H.
      destruct (calm_facts c H) as (_ & _ & _ & _ & _ & -> & _). reflexivity. }
  cbn [option_map].
  assert (Hascii : forallb is_ascii h = true).
  { revert Hc. apply forallb_impl. intros c H. now destruct (calm_facts c H). }
  destruct (toLowerCase_ascii h Hascii) as [-> Hlow].
  assert (Hb : startsWith (str (ascii_lowercase h)) "[" = false).
  { destruct h as [|c h]; [congruence|]. cbn in Ht.
    apply andb_true_iff in Ht as [Hc0 _].
    destruct (tame_facts c Hc0) as (_ & _ & _ & _ & _ & Hl).
    unfold startsWith.
    change (str (ascii_lowercase (c :: h)))
      with (String (lower_char c) (str (ascii_lowercase h))).
    now apply prefix_head_ne. }
  rewrite Hb. cbn [andb]. rewrite Hlow.
  destruct (if negb (String.eqb pt EmptyString) then parseInt pt else Num 27017)
    as [[|q|q]|]; reflexivity.
Qed.


Lemma new_plain_host (h : string) :
  plain_host h -> endsWith h ".sock" = false ->
  new h = Some (Ok (mkHostAddress (Some (str (ascii_lowercase (chars h))))
                      (Some (Num 27017)) None false)).
Proof.
  intros Hp Hsock.
  destruct (plain_host_chars h Hp) as (Ht & Hne & Ha & Hsp & _).
  assert (Hc : forallb calm (chars h) = true)
    by (revert Ht; apply forallb_impl, tame_calm).
  rewrite (new_after_URL h (chars h) EmptyString Ha Hsp Hsock); [reflexivity| |exact Ht|exact Hne].
  rewrite <- (str_chars h) at 1. rewrite (URL_calm _ Hc).
  now apply parse_authority_host.
Qed.

Lemma new_plain_host_port (h p : string) :
  plain_host h -> decimal p -> value p <= 65535 ->
  new (h +:+ ":" +:+ p)
  = if value p =? 0
    then Some (Throw (MongoParseError "Invalid port (zero) with hostname"))
    else Some (Ok (mkHostAddress (Some (str (ascii_lowercase (chars h))))
                     (Some (Num (value p))) None false)).
Proof.
  intros Hp [Hpne Hd] Hle.
  destruct (plain_host_chars h Hp) as (Ht & Hne & Ha & Hsp & _).
  assert (Hdne : chars p <> []) by now rewrite chars_nil_iff.
  assert (Hdt : forallb tame (chars p) = true).
  { revert Hd. apply forallb_impl. intros c H. apply plain_tame, digit_plain, H. }
  assert (Hchars : chars (h +:+ ":" +:+ p) = chars h ++ ":"%char :: chars p).
  { rewrite !chars_append. reflexivity. }
  assert (Hc : forallb calm (chars h ++ ":"%char :: chars p) = true).
  { rewrite forallb_app. cbn [forallb]. rewrite colon_calm.
    rewrite (forallb_impl _ _ _ tame_calm Ht), (forallb_impl _ _ _ tame_calm Hdt).
    reflexivity. }
  destruct (parse_authority_host_port (chars h) (chars p) Ht Hne Hd Hdne Hle)
    as (pt & Hurl & Hptne & Hv).
  rewrite (new_after_URL _ (chars h) (str pt)).
  - replace (String.eqb (str pt) EmptyString) with false.
    + cbn [negb]. rewrite Hv. unfold value.
      destruct (digits_value (chars p) 0); reflexivity.
    + symmetry. apply String.eqb_neq. now rewrite str_nil_iff.
  - rewrite Hchars. revert Hc. apply forallb_impl. intros c H.
    now destruct (calm_facts c H).
  - rewrite Hchars. intros Hin. rewrite forallb_forall in Hc.
    destruct (calm_facts _ (Hc _ Hin)) as (_ & _ & _ & _ & _ & _ & H).
    discriminate H.
  - rewrite <- (str_chars (h +:+ ":" +:+ p)), Hchars.
    destruct (exists_last Hdne) as (p0 & d & Hlast). rewrite Hlast.
    change (chars h ++ ":"%char :: p0 ++ [d]) with (chars h ++ (":"%char :: p0) ++ [d]).
    rewrite app_assoc. apply endsWith_last, digit_not_k.
    rewrite Hlast, forallb_app in Hd. cbn in Hd.
    apply andb_true_iff in Hd as [_ Hd]. now rewrite andb_true_r in Hd.
  - rewrite <- (str_chars (h +:+ ":" +:+ p)) at 1. rewrite Hchars.
    rewrite (URL_calm _ Hc). exact Hurl.
  - exact Ht.
  - exact Hne.
Qed.

Lemma new_plain_socket_path (s : string) :
  plain_socket_path s ->
  new s = Some (Ok (mkHostAddress None None (Some s) false)).
Proof.
  intros [Hc Hsock]. unfold new.
  assert (Ha : forallb is_ascii (chars s) = true).
  { revert Hc. apply forallb_impl. intros c H.
    apply andb_true_iff in H as [H _]. now apply andb_true_iff in H as [H _]. }
  assert (Hsp : ~ In " "%char (chars s)).
  { intros Hin. rewrite forallb_forall in Hc. specialize (Hc _ Hin). discriminate Hc. }
  rewrite Ha. cbn [negb]. rewrite (escaped_unchanged s Hsp), Hsock.
  unfold decodeURIComponent. rewrite decode_chars_plain.
  - cbn [option_map]. now rewrite str_chars.
  - revert Hc. apply forallb_impl. intros c H.
    now apply andb_true_iff in H as [_ H].
Qed.

(** C9. Equivalent texts of a host parse to equal instances.  For a plain
    host name, whatever the case of its letters and whether or not the
    default port 27017 is written out, the result is the same instance:
    the lower-cased name on port 27017; a written port from 1 to 65535 is
    that instance's port; a written port whose value is zero is a parse
    error.  A plain path ending in [.sock] is a socket path with host and
    port absent. *)
Theorem parse_canonical_forms (h h' p sock : string) :
  plain_host h -> plain_host h' ->
  ascii_lowercase (chars h') = ascii_lowercase (chars h) ->
  endsWith h ".sock" = false -> endsWith h' ".sock" = false ->
  decimal p -> value p <= 65535 ->
  plain_socket_path sock ->
  let name := str (ascii_lowercase (chars h)) in
  let on port := Some (Ok (mkHostAddress (Some name) (Some (Num port)) None false)) in
  lower_case name
  /\ new h = on 27017
  /\ new h' = new h
  /\ new (h +:+ ":27017") = new h
  /\ new (h +:+ ":" +:+ p)
     = (if value p =? 0
        then Some (Throw (MongoParseError "Invalid port (zero) with hostname"))
        else on (value p))
  /\ new sock = Some (Ok (mkHostAddress None None (Some sock) false)).
Proof.
  intros Hh Hh' Hcase Hsock Hsock' Hp Hle Hs name on.
  assert (Hnew : new h = on 27017) by now apply new_plain_host.
  repeat split.
  - apply lowercase_is_lower_case. now destruct (plain_host_chars h Hh) as (_ & _ & H & _).
  - exact Hnew.
  - rewrite Hnew, (new_plain_host h' Hh' Hsock'), Hcase. reflexivity.
  - rewrite Hnew.
    apply (new_plain_host_port h "27017" Hh); [split; [discriminate|reflexivity]|].
    vm_compute. discriminate.
  - now apply new_plain_host_port.
  - now apply new_plain_socket_path.
Qed.

Lemma parse_canonical_forms_witness :
  new "Example.COM:27017" = Some (Ok example_com)
  /\ new "example.com" = Some (Ok example_com)
  /\ new "Example.COM:27017" = new "example.com"
  /\ new "host:0"
     = Some (Throw (MongoParseError "Invalid port (zero) with hostname"))
  /\ new "/tmp/mongo.sock"
     = Some (Ok (mkHostAddress None None (Some "/tmp/mongo.sock"%string) false)).
Proof.
  assert (Hplain : forall s, s <> EmptyString ->
            forallb plain_host_char (chars s) = true -> plain_host s)
    by (intros s H1 H2; split; assumption).
  assert (Hzero : decimal "0") by (split; [discriminate|reflexivity]).
  assert (Hle : value "0" <= 65535) by (vm_compute; discriminate).
  assert (Hs : plain_socket_path "/tmp/mongo.sock") by (split; reflexivity).
  destruct (parse_canonical_forms "Example.COM" "example.com" "0" "/tmp/mongo.sock"
              (Hplain "Example.COM"%string ltac:(discriminate) eq_refl)
              (Hplain "example.com"%string ltac:(discriminate) eq_refl)
              eq_refl eq_refl eq_refl Hzero Hle Hs)
    as (_ & H1 & H2 & H3 & _ & H5).
  destruct (parse_canonical_forms "host" "host" "0" "/tmp/mongo.sock"
              (Hplain "host"%string ltac:(discriminate) eq_refl)
              (Hplain "host"%string ltac:(discriminate) eq_refl)
              eq_refl eq_refl eq_refl Hzero Hle Hs)
    as (_ & _ & _ & _ & H4 & _).
  split; [|split; [|split; [|split]]].
  - exact (eq_trans H3 H1).
  - exact (eq_trans H2 H1).
  - exact (eq_trans H3 (eq_sym H2)).
  - exact H4.
  - exact H5.
Defined.

(** Equivalent texts of an IPv6 address: zero runs, upper case and a
    written default port. *)
Lemma ipv6_forms_agree :
  new "[0:0:0:0:0:0:0:1]" = new "[::1]:27017"
  /\ new "[2001:DB8:0:0:0:0:0:1]" = new "[2001:db8::1]"
  /\ new "[::1]"
     = Some (Ok (mkHostAddress (Some "::1"%string) (Some (Num 27017)) None true))
  /\ new "[1:2]:3"
     = Some (Throw (MongoRuntimeError "Unable to parse [1:2]:3 with URL")).
Proof. vm_compute. repeat split; reflexivity. Qed.

End HostAddressFacts.

(** ** The execution pipeline *)

Module ExecuteOperationFacts.
Import ExecuteOperation.

Lemma frame_sessions_refl l : frame_sessions l l.
Proof. intros r s H. eauto. Qed.

Lemma frame_sessions_trans l1 l2 l3 :
  frame_sessions l1 l2 -> frame_sessions l2 l3 -> frame_sessions l1 l3.
Proof.
  intros H12 H23 r s H. destruct (H12 r s H) as (s2 & H2 & Ho & He).
  destruct (H23 r s2 H2) as (s3 & H3 & Ho3 & He3).
  exists s3. split; [assumption|]. split; congruence.
Qed.

Lemma frame_sessions_alter f r l l' :
  (forall s, owner (f s) = owner s /\ hasEnded (f s) = hasEnded s) ->
  frame_sessions l l' -> frame_sessions l (alter f r l').
Proof.
  intros Hf H r0 s Hs. destruct (H r0 s Hs) as (s' & Hs' & Ho & He).
  destruct (decide (r = r0)) as [->|Hne].
  - exists (f s'). rewrite list_lookup_alter_eq, Hs'. cbn.
    destruct (Hf s') as [-> ->]. auto.
  - exists s'. rewrite list_lookup_alter_ne by assumption. auto.
Qed.

Lemma frame_sessions_app l l' x :
  frame_sessions l l' -> frame_sessions l (l' ++ x).
Proof.
  intros H r s Hs. destruct (H r s Hs) as (s' & Hs' & Ho & He).
  exists s'. split; [|auto]. apply lookup_app_l_Some. assumption.
Qed.

Lemma frame_sessions_alter_fresh f r l l' :
  r = Datatypes.length l -> frame_sessions l l' -> frame_sessions l (alter f r l').
Proof.
  intros -> H r0 s Hs. destruct (H r0 s Hs) as (s' & Hs' & Ho & He).
  exists s'. split; [|auto]. rewrite list_lookup_alter_ne; [assumption|].
  apply lookup_lt_Some in Hs. lia.
Qed.

Lemma frame_refl w : frame w w.
Proof. apply frame_sessions_refl. Qed.

Lemma frame_trans w1 w2 w3 : frame w1 w2 -> frame w2 w3 -> frame w1 w3.
Proof. apply frame_sessions_trans. Qed.

Lemma executions_app a b : executions (a ++ b) = executions a ++ executions b.
Proof. apply flat_map_app. Qed.

Lemma increments_app a b : increments (a ++ b) = increments a ++ increments b.
Proof. apply flat_map_app. Qed.

Lemma started_app a b : started (a ++ b) = started a ++ started b.
Proof. apply flat_map_app. Qed.

Lemma ended_app a b : ended (a ++ b) = ended a ++ ended b.
Proof. apply flat_map_app. Qed.

Lemma executions_filter d : executions (List.filter isExecute d) = executions d.
Proof.
  unfold executions. induction d as [|e d IH]; [reflexivity|].
  destruct e; cbn; try assumption. now rewrite IH.
Qed.

(** Symbolic execution of a stage: unfold the monad, then split on the
    innermost scrutinee until none is left. *)
Ltac unfold_monad :=
  unfold retryOnce, executeAsync, selectServerAsync, connect, endSession,
    startSession, freshSymbol, incrementTransactionNumber, unpin,
    update_session, deref, log, when, throw_if, try_catch, try_finally,
    bind, getW, modify, ret, throw,
    set_trace, set_sessions, set_operation, set_context, set_topology,
    set_skipPingOnConnect, set_nextSymbol.

Ltac split_innermost :=
  match goal with
  | |- context [match ?x with _ => _ end] =>
      lazymatch x with
      | context [match _ with _ => _ end] => fail
      | _ => destruct x eqn:?
      end
  end.

Ltac symex_simpl :=
  cbn -[supportsRetryableWrites carriesNoWritesPerformed] in *;
  unfold SessionRef, Symbol in *;
  try rewrite !list_lookup_middle in * by reflexivity;
  simplify_eq.

Ltac symex := unfold_monad; symex_simpl; repeat (split_innermost; symex_simpl).

Ltac extend_trace :=
  rewrite <- ?app_assoc; cbn [app];
  eexists; split; [first [exact (eq_sym (app_nil_r _)) | reflexivity]|].

Ltac frame_tac :=
  unfold frame; cbn [sessions];
  repeat first
    [ apply frame_sessions_refl
    | apply frame_sessions_app
    | apply frame_sessions_alter; [intros ?; cbn; split; reflexivity|] ].

(** A session that existed when the continuation started cannot be
    missing after it. *)
Ltac dangling :=
  exfalso;
  match goal with
  | Hf : frame_sessions ?L (sessions ?w), Hn : sessions ?w !! ?s = None |- _ =>
      let x := fresh "x" in
      let Hx := fresh "Hx" in
      assert (exists x, L !! s = Some x) as [x Hx]
        by (first [ eexists; rewrite list_lookup_alter_eq;
                    match goal with H : _ !! s = Some _ |- _ => rewrite H end;
                    reflexivity
                  | eexists; rewrite list_lookup_middle by reflexivity; reflexivity
                  | eauto ]);
      destruct (Hf s x Hx) as (? & ? & _); congruence
  end.

Ltac frame_next :=
  unfold frame; cbn [fst snd sessions];
  first [ assumption
        | solve [frame_tac]
        | solve [eapply frame_sessions_trans; [|eassumption]; frame_tac]
        | solve [apply frame_sessions_alter_fresh; [reflexivity|];
                 eapply frame_sessions_trans; [|eassumption]; frame_tac] ].

(** Name the result of every call of the continuation [next]. *)
Ltac name_calls next :=
  repeat match goal with
         | |- context [next ?w0] => destruct (next w0) as [? ?] eqn:?
         end.

(** Bring in what [Hnext : obeys _ _ next] says about a named call. *)
Ltac use_obeys Hnext next :=
  match goal with
  | H : next ?w0 = (?o, ?w1) |- _ =>
      let F := fresh "Hframe" in
      let d := fresh "dn" in
      let Ht := fresh "Htrace" in
      let HP := fresh "HP" in
      destruct (Hnext w0) as [F (d & Ht & HP)];
      try rewrite H in F; try rewrite H in Ht; try rewrite H in HP;
      unfold frame in F; cbn [fst snd trace sessions context] in F, Ht, HP
  end.

(** Filter a concrete list of events none of which is kept. *)
Ltac keep_tac keep :=
  repeat first
    [ rewrite List.filter_app
    | progress cbn [List.filter app]
    | match goal with
      | H : forall _, keep _ = false |- _ => rewrite H
      | H : forall _ _, keep _ = false |- _ => rewrite H
      | H : forall _ _ _, keep _ = false |- _ => rewrite H
      end ];
  rewrite ?app_nil_r.

Section Core.
Variable env : Env.
Variables rw rr : MongoError -> bool.

Ltac break_hyps :=
  repeat match goal with
         | H : _ /\ _ |- _ => destruct H
         | H : exists _, _ |- _ => destruct H
         | H : False |- _ => destruct H
         end.

Ltac finish :=
  cbn -[carriesNoWritesPerformed];
  repeat match goal with
         | H : carriesNoWritesPerformed _ = _ |- _ => rewrite H
         end;
  eauto.

Lemma core_attempts :
  obeys isExecute (fun evs out c => attempts_outcome (executions evs) out c)
    (core env rw rr).
Proof.
  intros w.
  destruct w as [topo closed skip sess op ctx sym tr].
  destruct ctx as [cs co crp cit csrv csel cres].
  unfold core, withRetryability, runCommand.
  symex.
  all: split; [frame_tac|extend_trace].
  all: finish.
Qed.

Lemma core_calm :
  obeys isLifecycle (fun evs _ _ => evs = []) (core env rw rr).
Proof.
  intros w.
  destruct w as [topo closed skip sess op ctx sym tr].
  destruct ctx as [cs co crp cit csrv csel cres].
  unfold core, withRetryability, runCommand.
  symex.
  all: split; [frame_tac|extend_trace].
  all: reflexivity.
Qed.

(** *** The stages around the retry stage *)

Section Stages.
Variable keep : Event -> bool.
Variable P : list Event -> Outcome Thrown unit -> Context -> Prop.
Hypothesis P_throw : forall e c, P [] (Throw e) c.
Variable next : M unit.
Hypothesis Hnext : obeys keep P next.

Lemma withServer_obeys :
  (forall sel s r, keep (EvSelectServer sel s r) = false) ->
  obeys keep P (withServer env next).
Proof.
  intros Hk w.
  destruct w as [topo closed skip sess op ctx sym tr].
  destruct ctx as [cs co crp cit csrv csel cres].
  unfold withServer. symex; name_calls next; try use_obeys Hnext next.
  all: split; [frame_next|].
  all: cbn [fst snd trace context]; rewrite ?Htrace; extend_trace.
  all: keep_tac keep; auto.
Qed.

Lemma withConnectedClient_obeys :
  (forall r, keep (EvConnect r) = false) ->
  obeys keep P (withConnectedClient env next).
Proof.
  intros Hk w.
  destruct w as [topo closed skip sess op ctx sym tr].
  destruct ctx as [cs co crp cit csrv csel cres].
  unfold withConnectedClient. symex; name_calls next; try use_obeys Hnext next.
  all: split; [frame_next|].
  all: cbn [fst snd trace context]; rewrite ?Htrace; extend_trace.
  all: keep_tac keep; auto.
Qed.

Lemma withSession_obeys :
  (forall sel s r, keep (EvSelectServer sel s r) = false) ->
  (forall r o, keep (EvStartSession r o) = false) ->
  (forall r f, keep (EvUnpin r f) = false) ->
  (forall r e, keep (EvEndSession r e) = false) ->
  obeys keep P (withSession env next).
Proof.
  intros Hk1 Hk2 Hk3 Hk4 w.
  destruct w as [topo closed skip sess op ctx sym tr].
  destruct ctx as [cs co crp cit csrv csel cres].
  unfold withSession, bindSession, endOwnedSession. symex; name_calls next; try use_obeys Hnext next.
  all: try solve [dangling].
  all: split; [try frame_next|].
  all: try (cbn [fst snd trace context]; rewrite ?Htrace; extend_trace).
  all: keep_tac keep; auto.
Qed.
End Stages.

(** *** Session lifecycle in [withSession] *)

Lemma calm_no_lifecycle d :
  List.filter isLifecycle d = [] -> started d = [] /\ ended d = [].
Proof.
  unfold started, ended. induction d as [|e d IH]; [auto|].
  destruct e; cbn; intros H; try discriminate H; auto.
Qed.

Section Lifecycle.
Variable next : M unit.
Hypothesis Hnext : obeys isLifecycle (fun evs _ _ => evs = []) next.

Lemma withSession_lifecycle w :
  let run := withSession env next w in
  exists d,
    trace (snd run) = trace w ++ d
    /\ frame w (snd run)
    /\ (forall r, In r (ended d) -> In r (started d))
    /\ (forall r, In r (started d) ->
          sessions w !! r = None
          /\ exists w0 w1 rej,
               next w0 = (fst run, w1)
               /\ ctx_session (context w0) = Some r
               /\ (exists o s0, ctx_owner (context w0) = Some o
                                /\ sessions w0 !! r = Some s0
                                /\ owner s0 = Some o)
               /\ trace (snd run) = trace w1 ++ [EvEndSession r rej]
               /\ exists s', sessions (snd run) !! r = Some s'
                             /\ hasEnded s' = true).
Proof.
  destruct w as [topo closed skip sess op ctx sym tr].
  destruct ctx as [cs co crp cit csrv csel cres].
  unfold withSession, bindSession, endOwnedSession. symex; name_calls next;
    try (use_obeys Hnext next; apply calm_no_lifecycle in HP;
         destruct HP as [Hst Hen]; unfold started in Hst; unfold ended in Hen).
  all: try solve [dangling].
  all: cbn [fst snd trace context]; rewrite ?Htrace.
  all: extend_trace.
  all: split; [try frame_next|].
  all: unfold started, ended; cbn [flat_map app]; rewrite ?flat_map_app;
       rewrite ?Hst, ?Hen; cbn [flat_map app].
  all: try (split; [intros ? []|intros ? []]; fail).
  all: match goal with
       | Hf : frame_sessions (?l ++ [?new]) (sessions ?w),
         Hl : sessions ?w !! length ?l = Some ?c |- _ =>
           destruct (Hf (length l) new (list_lookup_middle l [] new _ eq_refl))
             as (c' & Hc' & Ho & He);
           rewrite Hl in Hc'; injection Hc' as <-; cbn in Ho, He
       end.
  all: try match goal with
           | H1 : owner ?c = Some ?a, H2 : owner ?c = Some ?b |- _ =>
               rewrite H1 in H2; injection H2 as ->
           end.
  all: try match goal with
           | H : (?a =? ?a)%nat = false |- _ =>
               rewrite Nat.eqb_refl in H; discriminate H
           end.
  all: try congruence.
  all: split; [auto|]; intros r0 [<-|[]].
  all: split; [apply lookup_ge_None; lia|].
  all: match goal with
       | H : next ?w0 = (?o, ?w1) |- _ => exists w0, w1
       end.
  all: eexists; split; [eassumption|]; split; [reflexivity|].
  all: split; [do 2 eexists; split; [reflexivity|]; split;
                 [cbn [sessions]; apply list_lookup_middle; reflexivity
                 |reflexivity]|].
  all: split; [rewrite Htrace, <- ?app_assoc; reflexivity|].
  all: eexists; split; [rewrite list_lookup_alter_eq;
         match goal with H : sessions _ !! _ = Some _ |- _ => rewrite H end;
         reflexivity|reflexivity].
Qed.
End Lifecycle.

(** *** The whole pipeline *)

Lemma execute_unfold :
  execute env rw rr None =
  withConnectedClient env (withSession env (afterSession env rw rr)).
Proof. reflexivity. Qed.

Lemma afterSession_calm :
  obeys isLifecycle (fun evs _ _ => evs = []) (afterSession env rw rr).
Proof.
  apply withServer_obeys; [reflexivity|apply core_calm|reflexivity].
Qed.

Lemma execute_attempts :
  obeys isExecute (fun evs out c => attempts_outcome (executions evs) out c)
    (execute env rw rr None).
Proof.
  rewrite execute_unfold.
  assert (Hthrow : forall e c, attempts_outcome (executions []) (Throw e) c)
    by (intros e c; cbn; eauto).
  apply withConnectedClient_obeys; [exact Hthrow| |reflexivity].
  apply withSession_obeys; [exact Hthrow| |reflexivity..].
  apply withServer_obeys; [exact Hthrow| |reflexivity].
  apply core_attempts.
Qed.

Lemma executeOperationAsync_eq w :
  executeOperationAsync env rw rr w =
  if negb (isAbstractOperation (operation w)) then
    (Throw (newError MongoRuntimeError
              "This method requires a valid operation instance"), w)
  else
    match execute env rw rr None
            (set_context (mkContext None None None false None None None) w) with
    | (Ok _, w1) => (Ok (ctx_result (context w1)), w1)
    | (Throw e, w1) => (Throw e, w1)
    end.
Proof.
  unfold executeOperationAsync, bind, getW, modify, ret, throw.
  destruct (negb (isAbstractOperation (operation w))); reflexivity.
Qed.

Lemma executeOperationAsync_spec w :
  let run := executeOperationAsync env rw rr w in
  frame w (snd run)
  /\ exists d, trace (snd run) = trace w ++ d
               /\ pipeline_outcome (executions d) (fst run).
Proof.
  cbv zeta. rewrite executeOperationAsync_eq.
  destruct (negb (isAbstractOperation (operation w))).
  - cbn [fst snd]. split; [apply frame_refl|]. exists []. rewrite app_nil_r.
    cbn. eauto.
  - set (w0 := set_context _ w).
    destruct (execute_attempts w0) as [Hf (d & Ht & HP)].
    rewrite executions_filter in HP.
    destruct (execute env rw rr None w0) as [[[]|e] w1]; cbn [fst snd] in *.
    + split; [exact Hf|]. exists d. split; [exact Ht|].
      destruct (executions d) as [|[doc|e1] [|[doc2|e2] [|]]]; cbn in *;
        break_hyps; congruence.
    + split; [exact Hf|]. exists d. split; [exact Ht|].
      destruct (executions d) as [|[doc|e1] [|[doc2|e2] [|]]]; cbn in *;
        break_hyps; eauto; congruence.
Qed.




(** Any run in which the retry itself succeeds still ends in the first
    attempt's error: after the inner [try] the handler falls through to
    [throw operationError]. *)
Lemma retry_success_rethrows w d e1 doc :
  let run := executeOperationAsync env rw rr w in
  trace (snd run) = trace w ++ d ->
  executions d = [Throw e1; Ok doc] ->
  fst run = Throw e1.
Proof.
  intros run Ht Hx.
  destruct (executeOperationAsync_spec w) as [_ (d' & Ht' & HP)].
  fold run in Ht', HP. rewrite Ht in Ht'. apply app_inv_head in Ht'. subst d'.
  rewrite Hx in HP. exact HP.
Qed.

(** A first attempt that succeeds is returned to the caller. *)
Lemma first_success_returned w d doc :
  let run := executeOperationAsync env rw rr w in
  trace (snd run) = trace w ++ d ->
  executions d = [Ok doc] ->
  fst run = Ok (Some doc).
Proof.
  intros run Ht Hx.
  destruct (executeOperationAsync_spec w) as [_ (d' & Ht' & HP)].
  fold run in Ht', HP. rewrite Ht in Ht'. apply app_inv_head in Ht'. subst d'.
  rewrite Hx in HP. exact HP.
Qed.

End Core.

(** C1 (evaluation at the failing input).  The insert fails once with a
    retryable error and the single retry returns ["inserted"]: the pipeline
    stores that result in the context and then raises the first error. *)
Theorem retry_success_is_not_returned :
  let run := executeOperationAsync Examples.fails_then_succeeds
               Examples.isRetryableWriteError Examples.isRetryableReadError
               Examples.world in
  executions (trace (snd run)) = [Throw (Mongo Examples.notPrimary); Ok "inserted"%string]
  /\ ctx_result (context (snd run)) = Some "inserted"%string
  /\ fst run = Throw (Mongo Examples.notPrimary).
Proof. vm_compute. repeat split; reflexivity. Qed.

(** C2. When the first attempt and the single retry both fail, the caller
    gets the first error if the second carries the no-writes-performed
    label, and the second error otherwise. *)
Theorem second_failure_precedence (env : Env) (rw rr : MongoError -> bool)
    (w : World) (d : list Event) (e1 e2 : Thrown) :
  let run := executeOperationAsync env rw rr w in
  trace (snd run) = trace w ++ d ->
  executions d = [Throw e1; Throw e2] ->
  fst run = Throw (if carriesNoWritesPerformed e2 then e1 else e2).
Proof.
  intros run Ht Hx.
  destruct (executeOperationAsync_spec env rw rr w) as [_ (d' & Ht' & HP)].
  fold run in Ht', HP. rewrite Ht in Ht'. apply app_inv_head in Ht'. subst d'.
  rewrite Hx in HP. exact HP.
Qed.

Lemma second_failure_precedence_witness :
  let run := executeOperationAsync Examples.fails_twice
               Examples.isRetryableWriteError Examples.isRetryableReadError
               Examples.world in
  executions (trace (snd run))
    = [Throw (Mongo Examples.notPrimary); Throw (Mongo Examples.nothingWritten)]
  /\ fst run = Throw (Mongo Examples.notPrimary).
Proof.
  intros run. split; [vm_compute; reflexivity|].
  exact (second_failure_precedence Examples.fails_twice
           Examples.isRetryableWriteError Examples.isRetryableReadError
           Examples.world (trace (snd run))
           (Mongo Examples.notPrimary) (Mongo Examples.nothingWritten)
           eq_refl eq_refl).
Defined.



(** C4. In a run of the session stage, a session that existed before (the
    caller's own among them) is never ended and keeps its [hasEnded]; a
    session the stage created, tagged with the run's ownership token, is
    ended as the last step, after the rest of the pipeline has run on it,
    and the stage's outcome is that of the rest of the pipeline, success or
    failure, whatever ending the session did.  No run of the whole pipeline
    changes [hasEnded] of a session that existed before it. *)
Theorem implicit_session_ended_explicit_kept (env : Env)
    (rw rr : MongoError -> bool) (w : World) :
  (let run := withSession env (afterSession env rw rr) w in
   exists d,
     trace (snd run) = trace w ++ d
     /\ (forall r s, sessions w !! r = Some s ->
           ~ In r (ended d)
           /\ exists s', sessions (snd run) !! r = Some s'
                         /\ hasEnded s' = hasEnded s)
     /\ (forall r, In r (started d) ->
           exists w0 w1 rej,
             afterSession env rw rr w0 = (fst run, w1)
             /\ ctx_session (context w0) = Some r
             /\ (exists o s0, ctx_owner (context w0) = Some o
                              /\ sessions w0 !! r = Some s0
                              /\ owner s0 = Some o)
             /\ trace (snd run) = trace w1 ++ [EvEndSession r rej]
             /\ exists s', sessions (snd run) !! r = Some s'
                           /\ hasEnded s' = true))
  /\ (forall r s, sessions w !! r = Some s ->
        exists s', sessions (snd (executeOperationAsync env rw rr w)) !! r = Some s'
                   /\ hasEnded s' = hasEnded s).
Proof.
  split.
  - intros run.
    destruct (withSession_lifecycle env (afterSession env rw rr)
                (afterSession_calm env rw rr) w) as (d & Ht & Hf & Hen & Hst).
    fold run in Ht, Hf, Hst. exists d. split; [exact Ht|]. split.
    + intros r s Hs. split.
      * intros Hin. apply Hen, Hst in Hin. destruct Hin as [Hnone _]. congruence.
      * destruct (Hf r s Hs) as (s' & Hs' & _ & He). eauto.
    + intros r Hin. apply Hst in Hin. destruct Hin as [_ H]. exact H.
  - intros r s Hs.
    destruct (executeOperationAsync_spec env rw rr w) as [Hf _].
    destruct (Hf r s Hs) as (s' & Hs' & _ & He). eauto.
Qed.

Lemma implicit_session_ended_explicit_kept_witness :
  let run := withSession Examples.fails_twice
               (afterSession Examples.fails_twice Examples.isRetryableWriteError
                  Examples.isRetryableReadError) Examples.world in
  In 0%nat (started (trace (snd run)))
  /\ fst run = Throw (Mongo Examples.notPrimary)
  /\ exists w0 w1 rej,
       afterSession Examples.fails_twice Examples.isRetryableWriteError
         Examples.isRetryableReadError w0 = (fst run, w1)
       /\ ctx_session (context w0) = Some 0%nat
       /\ (exists o s0, ctx_owner (context w0) = Some o
                        /\ sessions w0 !! 0%nat = Some s0
                        /\ owner s0 = Some o)
       /\ trace (snd run) = trace w1 ++ [EvEndSession 0%nat rej]
       /\ exists s', sessions (snd run) !! 0%nat = Some s' /\ hasEnded s' = true.
Proof.
  intros run.
  assert (Hin : In 0%nat (started (trace (snd run)))) by (vm_compute; auto).
  split; [exact Hin|]. split; [vm_compute; reflexivity|].
  destruct (proj1 (implicit_session_ended_explicit_kept Examples.fails_twice
              Examples.isRetryableWriteError Examples.isRetryableReadError
              Examples.world)) as (d & Ht & _ & Hst).
  fold run in Ht, Hst. change (trace Examples.world ++ d) with d in Ht.
  rewrite <- Ht in Hst. exact (Hst 0%nat Hin).
Defined.

(** C5. Whatever the collaborators answer, one run of the pipeline invokes
    the operation at most twice. *)
Theorem at_most_two_invocations (env : Env) (rw rr : MongoError -> bool)
    (w : World) :
  exists d,
    trace (snd (executeOperationAsync env rw rr w)) = trace w ++ d
    /\ (Datatypes.length (executions d) <= 2)%nat.
Proof.
  destruct (executeOperationAsync_spec env rw rr w) as [_ (d & Ht & HP)].
  exists d. split; [exact Ht|].
  destruct (executions d) as [|x1 [|x2 [|x3 xs]]]; cbn; try lia.
  destruct x1, x2; contradiction.
Qed.

End ExecuteOperationFacts.

(** ** The sequence container and the buffer pool, under any calls *)

Module ListFacts.
Import ListT ListMethods.

Section Facts.
Context {T : Type}.
Implicit Types l : List T.

Lemma wf_push v l : wf l -> wf (push v l).
Proof. unfold wf, push. cbn. rewrite length_app. cbn. lia. Qed.

Lemma wf_unshift v l : wf l -> wf (unshift v l).
Proof. unfold wf, unshift. cbn. lia. Qed.

Lemma wf_shift l : wf l -> wf (snd (shift l)).
Proof.
  unfold wf, shift. destruct (nodes l) as [|x r] eqn:E; cbn; [now rewrite E|].
  intros H. replace (count l =? 0) with false by (symmetry; apply Z.eqb_neq; lia).
  cbn. lia.
Qed.

Lemma wf_pop l : wf l -> wf (snd (pop l)).
Proof.
  unfold wf, pop. intros H. pose proof (length_rev (nodes l)) as Hl.
  destruct (rev (nodes l)) as [|x r]; cbn in *; [exact H|].
  replace (count l =? 0) with false by (symmetry; apply Z.eqb_neq; lia).
  cbn. rewrite length_rev. lia.
Qed.

Lemma prune_loop_spec (f : T -> bool) (rest : list T) : forall kept c,
  c = Z.of_nat (Datatypes.length kept + Datatypes.length rest) ->
  nodes (prune_loop f kept rest c) = kept ++ List.filter (fun v => negb (f v)) rest
  /\ wf (prune_loop f kept rest c).
Proof.
  induction rest as [|v rest IH]; intros kept c Hc; cbn.
  - rewrite app_nil_r. split; [reflexivity|]. unfold wf. cbn. cbn in Hc. lia.
  - cbn in Hc. destruct (f v); cbn.
    + replace (c =? 0) with false by (symmetry; apply Z.eqb_neq; lia).
      apply IH. lia.
    + destruct (IH (kept ++ [v]) c) as [H1 H2].
      { rewrite length_app. cbn. lia. }
      split; [|exact H2]. rewrite H1, <- app_assoc. reflexivity.
Qed.

Lemma wf_prune f l : wf l -> wf (prune f l).
Proof. intros H. apply prune_loop_spec. cbn. exact H. Qed.

Lemma wf_call (c : Call) l : wf l -> wf (call c l).
Proof.
  destruct c; cbn; intros H.
  - now apply wf_push.
  - now apply wf_unshift.
  - now apply wf_shift.
  - now apply wf_pop.
  - now apply wf_prune.
  - reflexivity.
Qed.

Lemma pushMany_nodes (vs : list T) : forall l,
  nodes (pushMany vs l) = nodes l ++ vs /\ (wf l -> wf (pushMany vs l)).
Proof.
  unfold pushMany. induction vs as [|v vs IH]; intros l; cbn [fold_left].
  - rewrite app_nil_r. auto.
  - destruct (IH (push v l)) as [H1 H2]. split.
    + rewrite H1. cbn. now rewrite <- app_assoc.
    + intros H. apply H2. now apply wf_push.
Qed.

(** X1. [length] is the number of items held, after any calls. *)
Theorem length_counts_items (cs : list (@Call T)) :
  ListT.length (calls cs new) = Z.of_nat (Datatypes.length (toArray (calls cs new))).
Proof.
  assert (H : forall l, wf l -> wf (calls cs l)).
  { induction cs as [|c cs IH]; intros l Hl; cbn; [exact Hl|].
    apply IH. now apply wf_call. }
  exact (H new eq_refl).
Qed.

(** X2. [prune] removes exactly the items the filter accepts. *)
Theorem prune_removes_matching (f : T -> bool) (cs : list (@Call T)) :
  let l := calls cs new in
  toArray (prune f l) = List.filter (fun v => negb (f v)) (toArray l)
  /\ ListT.length (prune f l)
     = Z.of_nat (Datatypes.length (List.filter (fun v => negb (f v)) (toArray l))).
Proof.
  intros l.
  assert (Hwf : wf l).
  { subst l. generalize (@new T), (eq_refl : wf (@new T)).
    induction cs as [|c cs IH]; intros l Hl; cbn; [exact Hl|].
    apply IH. now apply wf_call. }
  destruct (prune_loop_spec f (nodes l) [] (count l)) as [H1 H2]; [exact Hwf|].
  unfold toArray, prune, ListT.length. split; [exact H1|].
  unfold wf in H2. rewrite H2, H1. reflexivity.
Qed.

Lemma shiftAll_spec (n : nat) : forall l,
  wf l -> (Datatypes.length (nodes l) <= n)%nat ->
  shiftAll n l = (nodes l, new).
Proof.
  induction n as [|n IH]; intros l Hwf Hn.
  - destruct l as [[|x r] c]; cbn in *; [|lia]. unfold wf in Hwf. cbn in Hwf.
    subst c. reflexivity.
  - cbn. unfold shift. destruct l as [[|x r] c]; cbn in *.
    + unfold wf in Hwf. cbn in Hwf. subst c. reflexivity.
    + unfold wf in Hwf. cbn in Hwf.
      replace (c =? 0) with false by (symmetry; apply Z.eqb_neq; lia).
      rewrite IH; [reflexivity| |cbn; lia]. unfold wf. cbn. lia.
Qed.

Lemma popAll_spec (n : nat) : forall l,
  wf l -> (Datatypes.length (nodes l) <= n)%nat ->
  popAll n l = (rev (nodes l), new).
Proof.
  induction n as [|n IH]; intros l Hwf Hn.
  - destruct l as [[|x r] c]; cbn in *; [|lia]. unfold wf in Hwf. cbn in Hwf.
    subst c. reflexivity.
  - cbn. unfold pop. pose proof (length_rev (nodes l)) as Hl.
    pose proof (rev_involutive (nodes l)) as Hr.
    destruct l as [ns c]. cbn in *. unfold wf in Hwf. cbn in Hwf.
    destruct (rev ns) as [|x r] eqn:E; cbn in *.
    + destruct ns; [|cbn in Hl; lia]. cbn in Hwf. subst c. reflexivity.
    + replace (c =? 0) with false by (symmetry; apply Z.eqb_neq; lia).
      rewrite IH.
      * cbn. rewrite rev_involutive. reflexivity.
      * unfold wf. cbn. rewrite length_rev. lia.
      * cbn. rewrite length_rev. lia.
Qed.

(** X3. Pushed values leave by [shift] in the order they came and by [pop]
    in the reverse order; the list is empty afterwards. *)
Theorem queue_and_stack_order (vs : list T) (n : nat) :
  (Datatypes.length vs <= n)%nat ->
  shiftAll n (pushMany vs new) = (vs, new)
  /\ popAll n (pushMany vs new) = (rev vs, new)
  /\ shift (snd (shiftAll n (pushMany vs new))) = (None, new).
Proof.
  intros Hn. destruct (pushMany_nodes vs new) as [Hnodes Hwf].
  cbn in Hnodes. specialize (Hwf eq_refl).
  rewrite shiftAll_spec, popAll_spec by (rewrite ?Hnodes; auto).
  rewrite Hnodes. auto.
Qed.

End Facts.

Lemma queue_and_stack_order_witness :
  shiftAll 5 (pushMany [1; 2; 3] new) = ([1; 2; 3], new)
  /\ popAll 5 (pushMany [1; 2; 3] new) = ([3; 2; 1], new)
  /\ shift (snd (shiftAll 5 (pushMany [1; 2; 3] new))) = (None, new).
Proof.
  apply (queue_and_stack_order [1; 2; 3] 5). cbn. lia.
Defined.

End ListFacts.

Module BufferPoolMoreFacts.
Import ListT BufferPool BufferPoolFacts BufferPoolCalls.

Section Facts.
Variable uninit : nat -> Byte.byte.

Lemma getInt32_split_preserves_wf p :
  wf p -> 4 <= totalByteLength p -> wf (snd (getInt32_split uninit p)).
Proof.
  intros Hwf H4. unfold getInt32_split.
  destruct (read_spec uninit 4 p Hwf ltac:(lia)) as (p1 & Hr & [Hc1 Ht1] & Hcont & Htot).
  destruct (contents_four p Hwf H4) as (b0 & b1 & b2 & b3 & rest & Hc).
  change (Z.to_nat 4) with 4%nat in *. rewrite Hr, Hc.
  change (take 4 (b0 :: b1 :: b2 :: b3 :: rest)) with [b0; b1; b2; b3].
  cbn [readInt32LE snd]. split.
  - unfold ListT.wf in *. cbn. lia.
  - unfold contents at 1. cbn [buffers unshift nodes concat totalByteLength].
    fold (contents p1). unfold byteLength in *. rewrite length_app. cbn. lia.
Qed.

Lemma getInt32_preserves_wf p : wf p -> wf (snd (getInt32 uninit p)).
Proof.
  intros Hwf. unfold getInt32.
  destruct (totalByteLength p <? 4) eqn:E; [exact Hwf|]. apply Z.ltb_ge in E.
  destruct (first (buffers p)) as [fb|].
  - destruct (4 <=? byteLength fb).
    + destruct (readInt32LE fb); exact Hwf.
    + now apply getInt32_split_preserves_wf.
  - now apply getInt32_split_preserves_wf.
Qed.

Lemma calls_wf (cs : list Call) : forall p, wf p -> wf (calls uninit cs p).
Proof.
  induction cs as [|c cs IH]; intros p Hwf; [exact Hwf|].
  apply IH. destruct c; cbn.
  - now apply wf_append.
  - now apply read_preserves_wf.
  - now apply getInt32_preserves_wf.
Qed.

(** X4. After any calls, [length] is the number of bytes buffered and the
    chunk list's [length] is its number of chunks. *)
Theorem length_counts_buffered_bytes (cs : list Call) :
  let p := calls uninit cs new in
  BufferPool.length p = byteLength (contents p)
  /\ ListT.length (buffers p) = Z.of_nat (Datatypes.length (toArray (buffers p))).
Proof.
  intros p. destruct (calls_wf cs new wf_new) as [H1 H2]. fold p in H1, H2.
  split; [exact H2|exact H1].
Qed.

(** X5. [read(size)] hands out either exactly [size] bytes, the oldest ones,
    or nothing at all. *)
Theorem read_is_all_or_nothing (cs : list Call) (size : Z) :
  let p := calls uninit cs new in
  match read uninit size p with
  | (Ok result, p') =>
      0 <= size
      /\ ((size <= BufferPool.length p
           /\ result = firstn (Z.to_nat size) (contents p)
           /\ byteLength result = size
           /\ contents p' = skipn (Z.to_nat size) (contents p)
           /\ BufferPool.length p' = BufferPool.length p - size)
          \/ (BufferPool.length p < size /\ result = [] /\ p' = p))
  | (Throw e, p') =>
      size < 0 /\ p' = p
      /\ e = MongoInvalidArgumentError read_size_message
  end.
Proof.
  intros p. pose proof (calls_wf cs new wf_new) as Hwf. fold p in Hwf.
  destruct (Z.lt_ge_cases size 0) as [Hneg|Hpos].
  - rewrite read_negative by assumption. auto.
  - destruct (Z.lt_ge_cases (totalByteLength p) size) as [Hbig|Hfit].
    + rewrite read_oversized by assumption. split; [assumption|]. right. auto.
    + destruct (read_spec uninit size p Hwf (conj Hpos Hfit))
        as (p' & Hr & Hwf' & Hc & Ht).
      rewrite Hr. split; [assumption|]. left. unfold BufferPool.length.
      repeat split; try assumption.
      unfold byteLength. rewrite length_take. destruct Hwf as [_ Hw].
      unfold byteLength in Hw. lia.
Qed.

End Facts.
End BufferPoolMoreFacts.

(** ** Runs of the state transition guard *)

Module StateMachineRunsFacts.
Import StateMachine StateMachineRuns StateMachineFacts.

Lemma is_path_snoc stateTable from events mid to :
  is_path stateTable from events mid ->
  (forall legal, stateTable !! mid = Some legal -> In to legal) ->
  is_path stateTable from (events ++ [stateChanged mid to]) to.
Proof.
  revert from. induction events as [|[p c] events IH]; intros from; cbn.
  - intros <- H. auto.
  - intros (-> & Hl & Hp) H. auto.
Qed.

Lemma indexOf_In legal x : (indexOf legal x <? 0) = false -> In x legal.
Proof.
  induction legal as [|y legal IH]; cbn; [discriminate|].
  destruct (String.eqb_spec y x) as [->|_]; [auto|].
  destruct (indexOf legal x <? 0); [discriminate|]. auto.
Qed.

Lemma makeStateMachine_path stateTable from target newState :
  is_path stateTable from (emitted target) (state target) ->
  let target' := snd (makeStateMachine stateTable target newState) in
  is_path stateTable from (emitted target') (state target').
Proof.
  intros Hp. unfold makeStateMachine, get.
  destruct (stateTable !! state target) as [legal|] eqn:Ht.
  - destruct (indexOf legal newState <? 0) eqn:Hi; cbn; [exact Hp|].
    apply is_path_snoc; [exact Hp|].
    intros legal' Hl. rewrite Ht in Hl. injection Hl as <-.
    now apply indexOf_In.
  - destruct (existsb _ _); cbn; [exact Hp|].
    apply is_path_snoc; [exact Hp|]. intros legal Hl. congruence.
Qed.

(** X6. Whatever states are requested one after the other, the
    notifications emitted form a chain from the initial state to the
    current state, and every link is a transition the table allows. *)
Theorem notifications_trace_a_legal_path (stateTable : gmap string (list string))
    (initial : string) (requests : list string) :
  let target := requestAll stateTable requests (mkTarget initial []) in
  is_path stateTable initial (emitted target) (state target).
Proof.
  cbn zeta. unfold requestAll.
  assert (H : is_path stateTable initial (emitted (mkTarget initial []))
                (state (mkTarget initial []))) by reflexivity.
  revert H. generalize (mkTarget initial []).
  induction requests as [|r requests IH]; intros target H; cbn [fold_left].
  - exact H.
  - apply IH. now apply makeStateMachine_path.
Qed.

End StateMachineRunsFacts.


(** ** Namespaces and accepted host addresses *)

Module MongoDBNamespaceFacts.
Import HostAddress MongoDBNamespace StringFacts.

Lemma eqb_empty_false s : s <> EmptyString -> String.eqb s EmptyString = false.
Proof. intros H. apply String.eqb_neq. exact H. Qed.

Lemma rev_rev_nil {A} (l : list A) : rev (rev l ++ []) = l.
Proof. now rewrite app_nil_r, rev_involutive. Qed.

(** X8. Parsing a non-empty string always succeeds, the database part holds no
    dot, and printing the parsed namespace gives the string back, except for
    a string whose only dot is its last character, which parses to the
    database alone. *)
Theorem toString_of_parsed (s : string) :
  s <> EmptyString ->
  exists ns,
    fromString (Some s) = Ok ns
    /\ dotless (db ns)
    /\ collection ns <> Some EmptyString
    /\ (toString ns = s
        \/ (s = db ns +:+ "." /\ collection ns = None /\ toString ns = db ns)).
Proof.
  intros Hs. unfold fromString. rewrite (eqb_empty_false _ Hs).
  unfold split.
  pose proof (join_split_chars "." (chars s) []) as Hj.
  cbn [rev app] in Hj. rewrite str_chars in Hj.
  destruct (split_chars "." (chars s) []) as [|p ps] eqn:E.
  { now apply split_chars_nonempty in E. }
  assert (Hp : dotless (str p)).
  { unfold dotless. rewrite chars_str.
    eapply split_chars_first; [|exact E]. intros []. }
  cbn [map] in *.
  destruct ps as [|q ps].
  - cbn in Hj. subst s. eexists. split; [reflexivity|]. cbn.
    repeat split; auto; discriminate.
  - rewrite join_cons in Hj by discriminate.
    set (c := join "." (map str (q :: ps))) in *.
    destruct (String.eqb c EmptyString) eqn:Ec.
    + apply String.eqb_eq in Ec. rewrite Ec in Hj.
      eexists. split; [reflexivity|]. cbn.
      repeat split; auto; try discriminate.
    + eexists. split; [reflexivity|]. unfold new, toString. rewrite Ec.
      cbn [db collection]. rewrite Ec.
      repeat split; auto.
      intros [= H]. apply String.eqb_neq in Ec. now apply Ec.
Qed.

Lemma toString_of_parsed_witness :
  exists ns,
    fromString (Some "db.coll.sub") = Ok ns
    /\ dotless (db ns)
    /\ collection ns <> Some EmptyString
    /\ (toString ns = "db.coll.sub"
        \/ ("db.coll.sub" = db ns +:+ "." /\ collection ns = None
            /\ toString ns = db ns)).
Proof. apply (toString_of_parsed "db.coll.sub"). discriminate. Defined.

(** X9. A namespace built by the constructor from a dot-free database name
    and any collection is recovered by parsing what it prints, whenever it
    prints a non-empty string. *)
Theorem parse_of_printed (d : string) (c : option string) :
  dotless d ->
  toString (new d c) <> EmptyString ->
  fromString (Some (toString (new d c))) = Ok (new d c).
Proof.
  intros Hd Hne. unfold fromString. rewrite (eqb_empty_false _ Hne).
  assert (Hdb : forall c', toString (new d c') = d ->
                           split "." (toString (new d c')) = [d]).
  { intros c' ->. unfold split. rewrite split_chars_dotless by exact Hd.
    cbn [map]. now rewrite rev_rev_nil, str_chars. }
  destruct c as [c|].
  - destruct (String.eqb c EmptyString) eqn:Ec.
    + assert (Ht : toString (new d (Some c)) = d).
      { unfold new, toString. now rewrite Ec. }
      rewrite (Hdb _ Ht). cbn. unfold new. now rewrite Ec.
    + assert (Ht : toString (new d (Some c)) = d +:+ "." +:+ c).
      { unfold new, toString. rewrite Ec. cbn. now rewrite Ec. }
      rewrite Ht. unfold split.
      rewrite !chars_append. change (chars ".") with ["."%char]. cbn [app].
      rewrite split_chars_head by exact Hd.
      cbn [map]. rewrite rev_rev_nil, str_chars.
      fold (split "." c). rewrite join_split. rewrite Ec.
      reflexivity.
  - assert (Ht : toString (new d None) = d) by reflexivity.
    rewrite (Hdb _ Ht). reflexivity.
Qed.

Lemma parse_of_printed_witness :
  fromString (Some (toString (new "admin" (Some "system.users"))))
  = Ok (new "admin" (Some "system.users")).
Proof.
  apply (parse_of_printed "admin" (Some "system.users")).
  - unfold dotless. cbn. intuition discriminate.
  - discriminate.
Defined.

End MongoDBNamespaceFacts.

Module HostAddressShape.
Import HostAddress HostTexts StringFacts HostAddressLemmas.

Lemma URL_port_shape input url :
  URL input = Some url ->
  url_port url = EmptyString
  \/ (url_port url <> EmptyString
      /\ exists n, parseInt (url_port url) = Num n /\ 0 <= n <= 65535).
Proof.
  unfold URL. destruct (String.eqb _ _); [|discriminate].
  unfold parse_authority.
  destruct (match after_last_at _ with Some _ => _ | None => _ end) as [hp|];
    [|discriminate].
  destruct (scan_host hp false []) as [buffer [portText|]].
  - destruct buffer; [discriminate|].
    destruct (parse_host _); [|discriminate].
    destruct (parse_port portText) as [pt|] eqn:Hp; [|discriminate].
    intros [= <-]. cbn [url_port].
    destruct (parse_port_shape _ _ Hp) as [->|[Hne Hn]]; [now left|].
    right. split; [|exact Hn]. now rewrite str_nil_iff.
  - destruct (parse_host _); [|discriminate].
    intros [= <-]. now left.
Qed.

Lemma toLowerCase_lower_case s t : toLowerCase s = Some t -> lower_case t.
Proof.
  unfold toLowerCase. destruct (forallb is_ascii (chars s)) eqn:H; [|discriminate].
  intros [= <-]. now apply lowercase_is_lower_case.
Qed.

(** X7. Within the ASCII fragment of the runtime's strings, every address
    the constructor accepts is either a socket path, with no host and no
    port, or a host name that is ASCII without upper-case letters together
    with a port between 1 and 65535. *)
Theorem accepted_address_shape (hostString : string) (h : HostAddress) :
  new hostString = Some (Ok h) ->
  (exists path,
      socketPath h = Some path /\ host h = None /\ port h = None
      /\ isIPv6 h = false)
  \/ (exists name n,
        host h = Some name /\ lower_case name
        /\ port h = Some (Num n) /\ 1 <= n <= 65535
        /\ socketPath h = None).
Proof.
  unfold new.
  destruct (negb _); [discriminate|].
  destruct (endsWith _ ".sock").
  - destruct (decodeURIComponent _); [|discriminate].
    intros [= <-]. left. eexists. cbn. auto.
  - destruct (URL _) as [url|] eqn:Hu; [|discriminate].
    destruct (decodeURIComponent _) as [decoded|]; [|discriminate].
    destruct (toLowerCase decoded) as [normalized|]; [|discriminate].
    match goal with
    | |- context [toLowerCase ?x] =>
        destruct (toLowerCase x) as [this_host|] eqn:Hhost; [|discriminate]
    end.
    apply toLowerCase_lower_case in Hhost.
    apply URL_port_shape in Hu.
    destruct Hu as [Hp|[Hp [n [Hn Hr]]]].
    + rewrite Hp. cbn. intros [= <-]. right. do 2 eexists. cbn.
      repeat split; [exact Hhost|lia|lia].
    + apply String.eqb_neq in Hp. rewrite Hp. cbn [negb]. rewrite Hn.
      destruct n as [|n|n]; [discriminate| |lia].
      intros [= <-]. right. do 2 eexists. cbn.
      repeat split; [exact Hhost|lia|lia].
Qed.

Lemma accepted_address_shape_witness :
  (exists path,
      socketPath example_com = Some path /\ host example_com = None
      /\ port example_com = None /\ isIPv6 example_com = false)
  \/ (exists name n,
        host example_com = Some name /\ lower_case name
        /\ port example_com = Some (Num n) /\ 1 <= n <= 65535
        /\ socketPath example_com = None).
Proof. apply (accepted_address_shape "Example.COM"). vm_compute. reflexivity. Defined.

End HostAddressShape.

(** ** Small helpers *)

Module UtilsFacts.
Import BufferPool Utils.

(** X10. Whatever bytes the generator delivers, the result keeps all of them
    except that byte 6 has high nibble 4 (the version) and byte 8 has its
    two high bits set to 10 (the variant); the low bits of both are those
    delivered. *)
Theorem uuidV4_version_and_variant (randomBytes : Z -> Buffer) :
  Datatypes.length (randomBytes 16) = 16%nat ->
  let result := uuidV4 randomBytes in
  Datatypes.length result = 16%nat
  /\ (forall i, i <> 6%nat -> i <> 8%nat -> result !! i = randomBytes 16 !! i)
  /\ (exists b r, result !! 6%nat = Some b /\ randomBytes 16 !! 6%nat = Some r
                  /\ byte_val b / 16 = 4 /\ byte_val b mod 16 = byte_val r mod 16)
  /\ (exists b r, result !! 8%nat = Some b /\ randomBytes 16 !! 8%nat = Some r
                  /\ byte_val b / 64 = 2 /\ byte_val b mod 64 = byte_val r mod 64).
Proof.
  intros Hlen result. subst result. unfold uuidV4. cbn zeta. unfold Buffer in *.
  set (l := randomBytes 16) in *.
  destruct (lookup_lt_is_Some_2 l 6%nat ltac:(lia)) as [r6 H6].
  destruct (lookup_lt_is_Some_2 l 8%nat ltac:(lia)) as [r8 H8].
  rewrite (nth_lookup_Some l 6 Byte.x00 r6 H6).
  set (b6 := byte_of_Z (Z.lor (Z.land (byte_val r6) 15) 64)).
  assert (H8' : <[6%nat:=b6]> l !! 8%nat = Some r8)
    by (rewrite list_lookup_insert_ne by lia; exact H8).
  rewrite (nth_lookup_Some _ 8 Byte.x00 r8 H8'). subst b6.
  repeat split.
  - now rewrite !length_insert.
  - intros i Hi6 Hi8. rewrite !list_lookup_insert_ne by congruence. reflexivity.
  - eexists _, r6. split; [|split; [exact H6|]].
    + rewrite list_lookup_insert_ne by lia.
      apply list_lookup_insert_eq. lia.
    + split; destruct r6; vm_compute; reflexivity.
  - eexists _, r8. split; [|split; [exact H8|]].
    + apply list_lookup_insert_eq. rewrite length_insert. lia.
    + split; destruct r8; vm_compute; reflexivity.
Qed.

Lemma uuidV4_version_and_variant_witness :
  let result := uuidV4 (fun n => repeat Byte.xff (Z.to_nat n)) in
  Datatypes.length result = 16%nat
  /\ (forall i, i <> 6%nat -> i <> 8%nat ->
                result !! i = repeat Byte.xff (Z.to_nat 16) !! i)
  /\ (exists b r, result !! 6%nat = Some b
                  /\ repeat Byte.xff (Z.to_nat 16) !! 6%nat = Some r
                  /\ byte_val b / 16 = 4 /\ byte_val b mod 16 = byte_val r mod 16)
  /\ (exists b r, result !! 8%nat = Some b
                  /\ repeat Byte.xff (Z.to_nat 16) !! 8%nat = Some r
                  /\ byte_val b / 64 = 2 /\ byte_val b mod 64 = byte_val r mod 64).
Proof.
  apply (uuidV4_version_and_variant (fun n => repeat Byte.xff (Z.to_nat n))).
  reflexivity.
Defined.

(** X11. [csotMin] treats 0 as no limit: 0 is neutral, any other pair gives
    the smaller one, and the operation is commutative and associative. *)
Theorem csotMin_zero_is_unlimited (a b c : Z) :
  csotMin a 0 = a
  /\ csotMin 0 a = a
  /\ (csotMin a b = Z.min a b \/ a = 0 \/ b = 0)
  /\ csotMin a b = csotMin b a
  /\ csotMin a (csotMin b c) = csotMin (csotMin a b) c.
Proof.
  unfold csotMin.
  repeat split; intros;
    repeat match goal with
           | |- context [?x =? 0] =>
               lazymatch x with
               | context [_ =? _] => fail
               | _ => destruct (Z.eqb_spec x 0)
               end
           end; lia.
Qed.

Lemma byte_val_inj a b : byte_val a = byte_val b -> a = b.
Proof.
  unfold byte_val. intros H. apply N2Z.inj in H.
  assert (Some a = Some b) as [= ->]; [|reflexivity].
  now rewrite <- (Byte.of_to_N a), <- (Byte.of_to_N b), H.
Qed.

Lemma Buffer_compare_antisym a : forall b,
  Buffer_compare a b = - Buffer_compare b a.
Proof.
  induction a as [|x a IH]; intros [|y b]; cbn; try reflexivity.
  destruct (Z.ltb_spec (byte_val x) (byte_val y)),
           (Z.ltb_spec (byte_val y) (byte_val x)); try lia; try reflexivity.
  apply IH.
Qed.

Lemma Buffer_compare_eq a : forall b, Buffer_compare a b = 0 <-> a = b.
Proof.
  induction a as [|x a IH]; intros [|y b]; cbn; try (split; [discriminate|congruence]).
  - tauto.
  - destruct (Z.ltb_spec (byte_val x) (byte_val y)),
             (Z.ltb_spec (byte_val y) (byte_val x));
      try (split; [discriminate|intros [= -> ->]; lia]).
    rewrite IH. split.
    + intros ->. f_equal. apply byte_val_inj. lia.
    + congruence.
Qed.

Lemma Buffer_compare_range a : forall b,
  Buffer_compare a b = -1 \/ Buffer_compare a b = 0 \/ Buffer_compare a b = 1.
Proof.
  induction a as [|x a IH]; intros [|y b]; cbn; auto.
  destruct (_ <? _); auto. destruct (_ <? _); auto.
Qed.

(** X12. [compareObjectId] answers -1, 0 or 1; swapping the arguments negates
    the answer; the answer is 0 exactly when both are absent or both hold
    the same bytes; and an absent id is below every present one. *)
Theorem compareObjectId_is_an_ordering (oid1 oid2 : option ObjectId) (oid : ObjectId) :
  (compareObjectId oid1 oid2 = -1 \/ compareObjectId oid1 oid2 = 0
   \/ compareObjectId oid1 oid2 = 1)
  /\ compareObjectId oid1 oid2 = - compareObjectId oid2 oid1
  /\ (compareObjectId oid1 oid2 = 0 <-> option_map id oid1 = option_map id oid2)
  /\ compareObjectId None (Some oid) = -1
  /\ compareObjectId (Some oid) None = 1.
Proof.
  destruct oid1 as [[a]|], oid2 as [[b]|]; cbn.
  - repeat split.
    + apply Buffer_compare_range.
    + apply Buffer_compare_antisym.
    + intros H. apply Buffer_compare_eq in H. congruence.
    + intros [= ->]. now apply Buffer_compare_eq.
  - repeat split; auto; discriminate.
  - repeat split; auto; discriminate.
  - repeat split; auto; congruence.
Qed.

End UtilsFacts.

Module ShuffleFacts.
Import Utils.

Section Facts.
Context {T : Type}.
Variable random_index : nat -> Z -> Z.
Hypothesis random_index_range :
  forall draw remaining, 0 < remaining -> 0 <= random_index draw remaining < remaining.

Lemma insert_head_Permutation (l : list T) : forall j y a,
  l !! j = Some y -> y :: <[j:=a]> l ≡ₚ a :: l.
Proof.
  induction l as [|z l IH]; intros [|j] y a H; cbn in *; try discriminate.
  - injection H as ->. apply perm_swap.
  - rewrite (perm_swap z y). rewrite IH by exact H. apply perm_swap.
Qed.

Lemma swap_Permutation (l : list T) : forall i j x y,
  l !! i = Some x -> l !! j = Some y ->
  <[j:=x]> (<[i:=y]> l) ≡ₚ l.
Proof.
  induction l as [|z l IH]; intros [|i] [|j] x y Hi Hj; cbn in *;
    try discriminate.
  - injection Hi as ->. reflexivity.
  - injection Hi as ->. now apply insert_head_Permutation.
  - injection Hj as ->. now apply insert_head_Permutation.
  - f_equiv. now apply IH.
Qed.

Lemma swap_step_Permutation (items : list T) remaining randomIndex :
  0 <= remaining < Z.of_nat (Datatypes.length items) ->
  0 <= randomIndex < Z.of_nat (Datatypes.length items) ->
  exists items',
    swap_step items remaining randomIndex = Some items' /\ items' ≡ₚ items.
Proof.
  intros Hr Hi. unfold swap_step, item_at.
  destruct (Z.ltb_spec remaining 0); [lia|].
  destruct (Z.ltb_spec randomIndex 0); [lia|].
  destruct (lookup_lt_is_Some_2 items (Z.to_nat remaining) ltac:(lia))
    as [swapHold H1].
  destruct (lookup_lt_is_Some_2 items (Z.to_nat randomIndex) ltac:(lia))
    as [picked H2].
  rewrite H1, H2. eexists. split; [reflexivity|].
  now apply swap_Permutation.
Qed.

Lemma shuffle_loop_Permutation lowerBound remaining : forall draw (items : list T),
  (remaining <= Datatypes.length items)%nat ->
  exists items',
    shuffle_loop random_index draw lowerBound remaining items = Some items'
    /\ items' ≡ₚ items.
Proof.
  induction remaining as [|r IH]; intros draw items Hle; cbn [shuffle_loop].
  - eexists. split; reflexivity.
  - destruct (lowerBound <? _); [|eexists; split; reflexivity].
    pose proof (random_index_range draw (Z.of_nat (S r)) ltac:(lia)) as Hri.
    destruct (swap_step_Permutation items (Z.of_nat r)
                (random_index draw (Z.of_nat (S r))) ltac:(lia) ltac:(lia))
      as [items1 [-> Hp1]].
    destruct (IH (S draw) items1) as [items2 [-> Hp2]].
    + rewrite Hp1. lia.
    + eexists. split; [reflexivity|]. now rewrite Hp2.
Qed.

(** X13. With indices drawn inside the remaining range, every access stays
    inside the array and the call answers.  A limit above the number of
    items is rejected; otherwise the result holds items of the input, each
    at most as often as the input does; it is a rearrangement of the whole
    input when the limit is 0 or the number of items, and has exactly
    [limit] items when the limit lies strictly between. *)
Theorem shuffle_rearranges (sequence : list T) (limit : Z) :
  let len := Z.of_nat (Datatypes.length sequence) in
  exists answer,
    shuffle random_index sequence limit = Some answer
    /\ match answer with
       | Throw e =>
           len < limit
           /\ e = MongoRuntimeError "Limit must be less than the number of items"
       | Ok result =>
           limit <= len
           /\ result ⊆+ sequence
           /\ (limit = 0 \/ limit = len -> result ≡ₚ sequence)
           /\ (0 < limit < len -> Z.of_nat (Datatypes.length result) = limit)
       end.
Proof.
  intros len. unfold shuffle. cbv zeta. fold len.
  destruct (Z.ltb_spec len limit) as [Hlt|Hle]; [eexists; split; [reflexivity|cbn; auto]|].
  set (whole := if len =? 0 then false else Z.rem limit len =? 0).
  set (lowerBound := if whole then 1 else len - limit).
  destruct (shuffle_loop_Permutation lowerBound (Datatypes.length sequence)
              0%nat sequence ltac:(lia)) as [items [-> Hperm]].
  eexists. split; [reflexivity|].
  split; [exact Hle|].
  assert (Hlen : Datatypes.length items = Datatypes.length sequence)
    by now rewrite Hperm.
  assert (Hwhole : whole = false -> limit = 0 \/ limit = len -> sequence = []).
  { subst whole. intros Hw Hl.
    destruct (Z.eqb_spec len 0) as [H0|H0].
    - destruct sequence; [reflexivity|discriminate].
    - exfalso. destruct Hl as [->| ->].
      + rewrite Z.rem_0_l in Hw by exact H0. discriminate.
      + rewrite Z.rem_same in Hw by exact H0. discriminate. }
  destruct whole eqn:Hw.
  - repeat split.
    + now rewrite Hperm.
    + intros _. exact Hperm.
    + intros Hr. exfalso. subst whole.
      destruct (len =? 0); [discriminate|].
      apply Z.eqb_eq in Hw. apply Z.rem_divide in Hw; [|lia].
      apply Z.divide_pos_le in Hw; lia.
  - subst lowerBound. repeat split.
    + rewrite <- Hperm. apply sublist_submseteq, sublist_drop.
    + intros Hl. specialize (Hwhole eq_refl Hl). subst sequence.
      destruct items; [|discriminate]. now rewrite drop_nil.
    + intros Hr. rewrite length_drop, Hlen. lia.
Qed.

End Facts.
End ShuffleFacts.

Module ShuffleWitness.
Import Utils.

Lemma shuffle_rearranges_witness :
  let len := Z.of_nat (Datatypes.length ["a"; "b"; "c"]%string) in
  exists answer,
    shuffle (fun _ _ => 0) ["a"; "b"; "c"]%string 2 = Some answer
    /\ match answer with
       | Throw e =>
           len < 2
           /\ e = MongoRuntimeError "Limit must be less than the number of items"
       | Ok result =>
           2 <= len
           /\ result ⊆+ ["a"; "b"; "c"]%string
           /\ (2 = 0 \/ 2 = len -> result ≡ₚ ["a"; "b"; "c"]%string)
           /\ (0 < 2 < len -> Z.of_nat (Datatypes.length result) = 2)
       end.
Proof.
  apply (ShuffleFacts.shuffle_rearranges (fun _ _ => 0)). intros draw remaining H. lia.
Defined.

End ShuffleWitness.

(** ** The disposable stack and the mongocryptd manager *)

Module DisposableStackFacts.
Import ListT DisposableStack.

Section Facts.
Context {State E : Type}.
Lemma deferAll_stack (cbs : list (@Callback State E)) : forall d,
  nodes (stack (deferAll cbs d)) = nodes (stack d) ++ cbs
  /\ count (stack (deferAll cbs d))
     = count (stack d) + Z.of_nat (Datatypes.length cbs).
Proof.
  induction cbs as [|cb cbs IH]; intros d.
  - cbn. rewrite app_nil_r. split; [reflexivity|lia].
  - change (deferAll (cb :: cbs) d) with (deferAll cbs (defer cb d)).
    destruct (IH (defer cb d)) as [-> ->]. cbn.
    rewrite <- app_assoc. split; [reflexivity|lia].
Qed.

Lemma dispose_loop_spec (cbs : list (@Callback State E)) : forall fuel errors s,
  (Datatypes.length cbs <= fuel)%nat ->
  dispose_loop fuel (mkList cbs (Z.of_nat (Datatypes.length cbs))) errors s
  = Some (mkList [] 0,
          errors ++ map thrown (fst (run_in_order cbs s)),
          snd (run_in_order cbs s)).
Proof.
  induction cbs as [|cb cbs IH]; intros fuel errors s Hfuel.
  - destruct fuel; cbn; now rewrite app_nil_r.
  - destruct fuel as [|fuel]; [cbn in Hfuel; lia|].
    cbn [dispose_loop]. unfold length, shift. cbn [count nodes].
    destruct (Z.eqb_spec (Z.of_nat (Datatypes.length (cb :: cbs))) 0) as [H0|_];
      [cbn in H0; lia|].
    replace (Z.of_nat (Datatypes.length (cb :: cbs)) - 1)
      with (Z.of_nat (Datatypes.length cbs)) by (cbn [Datatypes.length]; lia).
    cbn [run_in_order].
    destruct (cb s) as [[[]|error] s1].
    + apply IH. cbn in Hfuel. lia.
    + rewrite IH by (cbn in Hfuel; lia).
      destruct (run_in_order cbs s1) as [errs s2]. cbn.
      now rewrite <- app_assoc.
Qed.

(** X14. Disposing a stack on which the callbacks [cbs] were deferred runs
    every one of them, in the order they were deferred, also after one of
    them threw; it leaves the stack empty, returns normally when none
    threw, and otherwise throws one [AggregateError] with what they threw,
    in that order. *)
Theorem dispose_runs_all_in_deferral_order (cbs : list (@Callback State E)) (fuel : nat)
    (s : State) :
  (Datatypes.length cbs <= fuel)%nat ->
  exists outcome d,
    dispose fuel (deferAll cbs new) s = Some (outcome, d, snd (run_in_order cbs s))
    /\ nodes (stack d) = [] /\ length (stack d) = 0
    /\ outcome =
       match fst (run_in_order cbs s) with
       | [] => Ok tt
       | errors =>
           Throw (AggregateError (map thrown errors)
                                 "error disposing DisposableStack")
       end.
Proof.
  intros Hfuel. unfold dispose.
  destruct (deferAll_stack cbs new) as [Hn Hc]. cbn in Hn, Hc.
  destruct (stack (deferAll cbs new)) as [ns c]. cbn in Hn, Hc. subst ns c.
  rewrite dispose_loop_spec by exact Hfuel. cbn [app].
  do 2 eexists. split; [reflexivity|]. cbn.
  repeat split.
  destruct (fst (run_in_order cbs s)); reflexivity.
Qed.

End Facts.

Lemma dispose_runs_all_in_deferral_order_witness :
  let cbs : list (@Callback (list nat) string) :=
    [fun s => (Ok tt, s ++ [1%nat]);
     fun s => (Throw "boom"%string, s ++ [2%nat]);
     fun s => (Ok tt, s ++ [3%nat])] in
  exists outcome d,
    dispose 3 (deferAll cbs new) [] = Some (outcome, d, snd (run_in_order cbs []))
    /\ nodes (stack d) = [] /\ length (stack d) = 0
    /\ outcome =
       match fst (run_in_order cbs []) with
       | [] => Ok tt
       | errors =>
           Throw (AggregateError (map thrown errors)
                                 "error disposing DisposableStack")
       end.
Proof.
  intros cbs. apply (dispose_runs_all_in_deferral_order cbs 3 []). cbn. lia.
Defined.

End DisposableStackFacts.

Module MongocryptdManagerFacts.
Import MongocryptdManager.

Lemma forallb_negb_existsb (args : list string) :
  forallb (fun arg => indexOf arg idleShutdownTimeoutSecs <? 0) args
  = negb (existsb mentionsIdleShutdown args).
Proof.
  induction args as [|a args IH]; cbn; [reflexivity|].
  rewrite IH. unfold mentionsIdleShutdown.
  destruct (indexOf a idleShutdownTimeoutSecs <? 0); reflexivity.
Qed.

(** X15. The arguments of every manager mention the idle-shutdown flag; the
    caller's arguments come first and unchanged, followed by the flag with
    the value 60 exactly when none of them mentions it; the address and
    the command name are never empty; and building a manager from the
    arguments of a manager adds nothing. *)
Theorem spawnArgs_carry_idle_shutdown (extraOptions : AutoEncryptionExtraOptions) :
  let given := default [] (mongocryptdSpawnArgs extraOptions) in
  let m := new extraOptions in
  existsb mentionsIdleShutdown (spawnArgs m) = true
  /\ spawnArgs m
     = (if existsb mentionsIdleShutdown given then given
        else given ++ [idleShutdownTimeoutSecs; "60"])
  /\ uri m <> EmptyString
  /\ cmdName m <> EmptyString
  /\ spawnArgs
       (new (mkOptions (mongocryptdURI extraOptions)
                       (mongocryptdBypassSpawn extraOptions)
                       (mongocryptdSpawnPath extraOptions)
                       (Some (spawnArgs m))))
     = spawnArgs m.
Proof.
  intros given m.
  assert (Hargs : spawnArgs m
     = (if existsb mentionsIdleShutdown given then given
        else given ++ [idleShutdownTimeoutSecs; "60"])).
  { subst m given. unfold new. cbn [spawnArgs].
    destruct (mongocryptdSpawnArgs extraOptions) as [args|];
      cbn [app default from_option id].
    - rewrite forallb_negb_existsb.
      destruct (existsb mentionsIdleShutdown args); reflexivity.
    - reflexivity. }
  assert (Hmention : existsb mentionsIdleShutdown (spawnArgs m) = true).
  { rewrite Hargs. destruct (existsb mentionsIdleShutdown given) eqn:Hg.
    - exact Hg.
    - rewrite existsb_app. cbn. now rewrite orb_true_r. }
  repeat split.
  - exact Hmention.
  - exact Hargs.
  - subst m. unfold new. cbn [uri].
    destruct (mongocryptdURI extraOptions) as [[|c u]|]; cbn; discriminate.
  - unfold cmdName. destruct (String.eqb_spec (spawnPath m) EmptyString);
      [discriminate|assumption].
  - unfold new at 1. cbn [spawnArgs mongocryptdSpawnArgs app].
    rewrite forallb_negb_existsb, Hmention. reflexivity.
Qed.

End MongocryptdManagerFacts.

(** ** The pipeline: refusals and the retry decision *)

Module ExecuteOperationExtras.
Import ExecuteOperation ExecuteOperationFacts PipelineObservations PipelineExamples
  SessionSupport.

Section Stage.
Variable env : Env.
Variables rw rr : MongoError -> bool.
Variable next : M unit.

Ltac enter w :=
  destruct w as [topo closed skip sess op ctx sym tr];
  cbn [topology operation sessions trace];
  unfold supportCheck, withSession, bindSession, endOwnedSession;
  cbn [trace].

Ltac check_cases :=
  unfold_monad; cbn;
  destruct (env_shouldCheckForSessionSupport env _);
  [destruct (env_selectServer env _ _ _) as [srv|e]|]; cbn;
  unfold SessionRef, Symbol in *.

(** X16. An operation on a client that was closed and has no topology is
    refused with [MongoNotConnectedError]; no connection is attempted and
    the rest of the pipeline does not run. *)
Theorem closed_client_not_connected (w : World) :
  topology w = None ->
  hasBeenClosed w = true ->
  withConnectedClient env next w =
    (Throw (newError MongoNotConnectedError
              "Client must be connected before running operations"), w).
Proof.
  destruct w as [topo closed skip sess op ctx sym tr]. cbn.
  intros -> ->. reflexivity.
Qed.

(** X17. A client that never connected is connected first.  When connecting
    fails the stage fails with that error and the rest of the pipeline does
    not run; when it succeeds the rest runs on the new topology.  Either
    way the skip-ping option is removed again. *)
Theorem connect_clears_skip_ping (w : World) :
  topology w = None ->
  hasBeenClosed w = false ->
  match env_connect env (trace w) with
  | Throw e =>
      withConnectedClient env next w =
        (Throw e,
         set_trace (trace w ++ [EvConnect (Some e)]) (set_skipPingOnConnect false w))
  | Ok t =>
      withConnectedClient env next w =
        next (set_trace (trace w ++ [EvConnect None])
                (set_topology t (set_skipPingOnConnect false w)))
  end.
Proof.
  destruct w as [topo closed skip sess op ctx sym tr]. cbn.
  intros -> ->. unfold withConnectedClient. unfold_monad. cbn.
  destruct (env_connect env tr); reflexivity.
Qed.

(** X18. An operation bound to a session that has ended.  When the
    topology asks for the check of session support and the server
    selection made for it fails, that failure is the outcome.  Otherwise,
    with session support, the operation is refused with
    [MongoExpiredSessionError] before the rest of the pipeline runs;
    nothing changes but the record of that selection. *)
Theorem expired_session_fails_fast (w : World) (t : Topology) (r : SessionRef)
    (s : ClientSession) :
  topology w = Some t ->
  session (operation w) = Some r ->
  sessions w !! r = Some s ->
  hasEnded s = true ->
  match supportCheck env w with
  | (Throw e, w1) => withSession env next w = (Throw e, w1)
  | (Ok _, w1) =>
      env_hasSessionSupport env (trace w1) = true ->
      withSession env next w =
        (Throw (newError MongoExpiredSessionError
                  "Use of expired sessions is not permitted"), w1)
  end.
Proof.
  enter w. intros -> Ho Hl He. unfold SessionRef, Symbol in *.
  check_cases; try reflexivity;
    intros Hs; rewrite Hs, Ho; cbn; rewrite Hl; cbn; rewrite He; reflexivity.
Qed.

(** X19. An operation bound to a live session that is in a transaction,
    with a read preference that is not primary.  When the server selection
    of the session-support check fails, that failure is the outcome.
    Otherwise, with session support, the operation is refused with
    [MongoTransactionError] naming the mode, before the rest of the
    pipeline runs. *)
Theorem transaction_requires_primary (w : World) (t : Topology) (r : SessionRef)
    (s : ClientSession) (rp : ReadPreference) :
  topology w = Some t ->
  session (operation w) = Some r ->
  sessions w !! r = Some s ->
  hasEnded s = false ->
  snapshotEnabled s && negb (supportsSnapshotReads t) = false ->
  inTransaction s = true ->
  readPreference (operation w) = Some rp ->
  rp <> primary ->
  match supportCheck env w with
  | (Throw e, w1) => withSession env next w = (Throw e, w1)
  | (Ok _, w1) =>
      env_hasSessionSupport env (trace w1) = true ->
      withSession env next w =
        (Throw (newError MongoTransactionError
                  ("Read preference in a transaction must be primary, not: "
                     +:+ ReadPreference_mode rp)), w1)
  end.
Proof.
  enter w. intros -> Ho Hl He Hsn Hin Hrp Hne. unfold SessionRef, Symbol in *.
  check_cases; try reflexivity;
    intros Hs; rewrite Hs, Ho; cbn; rewrite Hl; cbn; rewrite He, Hsn; cbn;
    rewrite Hl; cbn; rewrite Hrp, Hin;
    destruct rp; try contradiction; reflexivity.
Qed.

(** X20. An operation that carries a session of the caller.  When the
    server selection of the session-support check fails, that failure is
    the outcome.  Otherwise, without session support (also after that
    selection), the operation is refused with [MongoCompatibilityError]
    before the rest of the pipeline runs. *)
Theorem explicit_session_needs_support (w : World) (t : Topology) (r : SessionRef)
    (s : ClientSession) :
  topology w = Some t ->
  session (operation w) = Some r ->
  sessions w !! r = Some s ->
  explicit s = true ->
  match supportCheck env w with
  | (Throw e, w1) => withSession env next w = (Throw e, w1)
  | (Ok _, w1) =>
      env_hasSessionSupport env (trace w1) = false ->
      withSession env next w =
        (Throw (newError MongoCompatibilityError
                  "Current topology does not support sessions"), w1)
  end.
Proof.
  enter w. intros -> Ho Hl He. unfold SessionRef, Symbol in *.
  check_cases; try reflexivity;
    intros Hs; rewrite Hs, Ho; cbn; rewrite Hl; cbn; rewrite He; reflexivity.
Qed.

(** X21. An operation bound to a session that is not the caller's own.
    When the server selection of the session-support check fails, that
    failure is the outcome and the session stays where it was.  Otherwise,
    without session support, the session is taken off the operation and
    its options and the rest of the pipeline runs without a session; its
    outcome is the stage's outcome and no session is ended. *)
Theorem implicit_session_dropped_without_support (w : World) (t : Topology)
    (r : SessionRef) (s : ClientSession) :
  topology w = Some t ->
  session (operation w) = Some r ->
  sessions w !! r = Some s ->
  explicit s = false ->
  match supportCheck env w with
  | (Throw e, w1) => withSession env next w = (Throw e, w1)
  | (Ok _, w1) =>
      env_hasSessionSupport env (trace w1) = false ->
      let op := operation w in
      let c := context w in
      withSession env next w =
        next (set_context
                (mkContext None None
                   (Some (match readPreference op with
                          | Some rp => rp
                          | None => primary
                          end))
                   false (ctx_server c) (ctx_selector c) (ctx_result c))
                (set_operation
                   (mkOperation (isAbstractOperation op) (aspects op) None None
                      (options_willRetryWrite op) (readPreference op)
                      (bypassPinningCheck op) (trySecondaryWrite op)
                      (canRetryRead op) (canRetryWrite op) (server op)) w1))
  end.
Proof.
  enter w. intros -> Ho Hl He. unfold SessionRef, Symbol in *.
  check_cases; try reflexivity;
    intros Hs; rewrite Hs, Ho; cbn; rewrite Hl; cbn; rewrite He; cbn;
    (match goal with |- context [next ?w0] => destruct (next w0) as [o w1] end);
    destruct (readPreference op); reflexivity.
Qed.

End Stage.

(** *** The retry decision *)

(** Identify the new events of a run whose trace is known. *)
Ltac new_events :=
  let d := fresh "d" in
  let Ht := fresh "Ht" in
  intros d Ht; cbn [fst snd trace] in Ht; rewrite <- ?app_assoc in Ht;
  first [ apply app_inv_head in Ht
        | rewrite <- (app_nil_r (A:=Event)) in Ht at 1; apply app_inv_head in Ht ];
  subst d.

(** Turn the recorded results of boolean tests into facts and look for a
    contradiction among them. *)
Ltac contradict_tests :=
  repeat match goal with
         | H : negb _ = false |- _ => apply negb_false_iff in H
         | H : negb _ = true |- _ => apply negb_true_iff in H
         | H : (_ =? _) = true |- _ => apply Z.eqb_eq in H
         | H : _ && _ = true |- _ => apply andb_true_iff in H; destruct H
         end;
  subst; congruence.

Ltac contradict_and_split :=
  repeat match goal with
         | H : _ && _ = true |- _ => apply andb_true_iff in H; destruct H
         end;
  repeat split; eauto.

Section Retry.
Variable env : Env.
Variables rw rr : MongoError -> bool.

Ltac run_core w :=
  destruct w as [topo closed skip sess op ctx sym tr];
  destruct ctx as [cs co crp cit csrv csel cres];
  cbn [operation trace sessions context ctx_session topology];
  unfold core, withRetryability, runCommand.

(** X22. A write whose first attempt fails with a [MongoError] that is not a
    retryable write error, and whose code is not 20, is attempted once and
    fails with that error. *)
Theorem unmarked_write_error_not_retried (w : World) :
  hasAspect (operation w) WRITE_OPERATION = true ->
  forall d, trace (snd (core env rw rr w)) = trace w ++ d ->
  forall e rest,
    executions d = Throw (Mongo e) :: rest ->
    rw e = false ->
    code e <> Some MMAPv1_RETRY_WRITES_ERROR_CODE ->
    rest = [] /\ fst (core env rw rr w) = Throw (Mongo e).
Proof.
  run_core w. intros Hw. unfold_monad.
  cbn -[supportsRetryableWrites carriesNoWritesPerformed].
  rewrite Hw. symex.
  all: new_events; intros e' rest Hx Hrw Hcode; cbn in Hx; simplify_eq.
  all: try (split; reflexivity).
  all: exfalso; contradict_tests.
Qed.

(** X23. A read that is not also a write, whose first attempt fails with a
    [MongoError] that is not a retryable read error, is attempted once and
    fails with that error. *)
Theorem unmarked_read_error_not_retried (w : World) :
  hasAspect (operation w) READ_OPERATION = true ->
  hasAspect (operation w) WRITE_OPERATION = false ->
  forall d, trace (snd (core env rw rr w)) = trace w ++ d ->
  forall e rest,
    executions d = Throw (Mongo e) :: rest ->
    rr e = false ->
    rest = [] /\ fst (core env rw rr w) = Throw (Mongo e).
Proof.
  run_core w. intros Hr Hw. unfold_monad.
  cbn -[supportsRetryableWrites carriesNoWritesPerformed].
  rewrite Hr, Hw. symex.
  all: new_events; intros e' rest Hx Hrr; cbn in Hx; simplify_eq.
  all: try (split; reflexivity).
  all: exfalso; contradict_tests.
Qed.

(** X24. When a retryable write that would be retried fails with code 20,
    it is attempted once and fails with a [MongoServerError] carrying the
    advice to switch retryable writes off, whatever labels the error had. *)
Theorem mmapv1_error_rewritten_not_retried (w : World) (t : Topology)
    (r : SessionRef) :
  topology w = Some t ->
  ctx_session (context w) = Some r ->
  hasAspect (operation w) RETRYABLE = true ->
  hasAspect (operation w) WRITE_OPERATION = true ->
  retryWrites t && negb (ctx_inTransaction (context w))
    && supportsRetryableWrites (ctx_server (context w))
    && canRetryWrite (operation w) = true ->
  forall d, trace (snd (core env rw rr w)) = trace w ++ d ->
  forall e rest,
    executions d = Throw (Mongo e) :: rest ->
    code e = Some MMAPv1_RETRY_WRITES_ERROR_CODE ->
    rest = []
    /\ fst (core env rw rr w) =
         Throw (newError MongoServerError MMAPv1_RETRY_WRITES_ERROR_MESSAGE).
Proof.
  run_core w. cbn [ctx_inTransaction ctx_server]. intros -> -> Hr Hw He. unfold_monad.
  cbn -[supportsRetryableWrites carriesNoWritesPerformed].
  rewrite Hr, Hw, He. symex.
  all: new_events; intros e' rest Hx Hcode; cbn in Hx; simplify_eq.
  all: try (split; reflexivity).
  all: exfalso; rewrite orb_true_r in *; congruence.
Qed.

(** X25. When the server selection made for the retry fails, there is no
    second attempt and the selection's error is the outcome; when it
    answers a server that does not support retryable writes, a write is
    not attempted again and fails with
    [MongoUnexpectedServerResponseError]. *)
Theorem retry_needs_a_usable_server (w : World) :
  forall d, trace (snd (core env rw rr w)) = trace w ++ d ->
  forall sa sb x1 sel ss res rest,
    List.filter isAttemptOrSelection d
      = EvExecute sa sb x1 :: EvSelectServer sel ss res :: rest ->
    match res with
    | Throw e => rest = [] /\ fst (core env rw rr w) = Throw e
    | Ok srv =>
        hasAspect (operation w) WRITE_OPERATION = true ->
        supportsRetryableWrites (Some srv) = false ->
        rest = []
        /\ fst (core env rw rr w) =
             Throw (newError MongoUnexpectedServerResponseError
                      "Selected server does not support retryable writes")
    end.
Proof.
  run_core w. symex.
  all: new_events; intros sa sb x1 sel ss res rest Hx; cbn in Hx; simplify_eq.
  all: try (split; reflexivity).
  all: intros Hw Hs; try (split; reflexivity).
  all: exfalso; rewrite Hw, Hs in *; cbn in *; congruence.
Qed.

(** X26. Whenever there are two attempts, exactly one server selection lies
    between them, made with the selector and the session of the context,
    and it succeeded; both attempts run with the session of the context. *)
Theorem retry_follows_new_selection (w : World) :
  forall d, trace (snd (core env rw rr w)) = trace w ++ d ->
  forall x1 x2,
    executions d = [x1; x2] ->
    exists sa sb srv,
      List.filter isAttemptOrSelection d
        = [EvExecute sa (ctx_session (context w)) x1;
           EvSelectServer (ctx_selector (context w)) (ctx_session (context w)) (Ok srv);
           EvExecute sb (ctx_session (context w)) x2].
Proof.
  run_core w. symex.
  all: new_events; intros x1 x2 Hx; cbn in Hx; simplify_eq.
  all: do 3 eexists; cbn; reflexivity.
Qed.



(** X27. The retry stage unpins only the session of the context, with
    [force], and only for a cursor-creating operation whose first attempt
    failed with a network error; when such an operation with a pinned
    session outside a transaction reaches the retry's server selection, the
    session was unpinned exactly once. *)
Theorem retry_unpins_only_after_network_error (w : World) :
  forall d, trace (snd (core env rw rr w)) = trace w ++ d ->
  (forall r f, In (r, f) (unpins d) ->
     f = true
     /\ ctx_session (context w) = Some r
     /\ hasAspect (operation w) CURSOR_CREATING = true
     /\ exists e rest, executions d = Throw (Mongo e) :: rest
                       /\ isNetworkError e = true)
  /\ (forall r s e rest sel ss res,
        ctx_session (context w) = Some r ->
        sessions w !! r = Some s ->
        isPinned s = true ->
        inTransaction s = false ->
        hasAspect (operation w) CURSOR_CREATING = true ->
        executions d = Throw (Mongo e) :: rest ->
        isNetworkError e = true ->
        In (EvSelectServer sel ss res) d ->
        unpins d = [(r, true)]
        /\ exists s', sessions (snd (core env rw rr w)) !! r = Some s'
                      /\ isPinned s' = false).
Proof.
  run_core w. symex.
  all: new_events; split;
    [ intros rX fX Hin; cbn in Hin;
      repeat match goal with
             | H : _ \/ _ |- _ => destruct H
             | H : False |- _ => destruct H
             end; simplify_eq; contradict_and_split
    | intros rX sX eX rest sel ss res Hcs Hs Hp Hi Hc Hx Hn Hin;
      cbn in Hx, Hin;
      repeat match goal with
             | H : _ \/ _ |- _ => destruct H
             | H : False |- _ => destruct H
             end; simplify_eq;
      repeat match goal with
             | H : alter _ _ _ !! _ = Some _ |- _ =>
                 rewrite list_lookup_alter_eq in H
             end;
      repeat match goal with
             | Hl : ?l !! ?k = Some _, H : _ <$> ?l !! ?k = Some _ |- _ =>
                 progress (rewrite Hl in H; cbn in H)
             end;
      simplify_eq ].
  all: try (rewrite ?Hn, ?Hp, ?Hi, ?Hc in *; cbn in *; congruence).
  all: split; [reflexivity|].
  all: eexists; split;
    [rewrite !list_lookup_alter_eq;
     match goal with H : _ !! _ = Some _ |- _ => rewrite H end; reflexivity
    |reflexivity].
Qed.


Lemma core_foreign_error : obeys isExecute foreign_error_surfaces (core env rw rr).
Proof.
  intros w. run_core w. symex.
  all: split; [frame_tac|extend_trace].
  all: unfold foreign_error_surfaces; cbn; repeat case_match; simplify_eq; auto.
Qed.

(** X28. When the first attempt throws a value that is no [MongoError],
    there is no second attempt and [executeOperation] fails with that
    value. *)
Theorem foreign_error_never_retried (w : World) :
  forall d, trace (snd (executeOperationAsync env rw rr w)) = trace w ++ d ->
  forall x rest,
    executions d = Throw (Other x) :: rest ->
    rest = [] /\ fst (executeOperationAsync env rw rr w) = Throw (Other x).
Proof.
  intros d Ht x rest Hx.
  assert (Hthrow : forall e c, foreign_error_surfaces [] (Throw e) c) by (intros; exact I).
  assert (Hexec : obeys isExecute foreign_error_surfaces (execute env rw rr None)).
  { rewrite execute_unfold.
    apply withConnectedClient_obeys; [exact Hthrow| |reflexivity].
    apply withSession_obeys; [exact Hthrow| |reflexivity..].
    apply withServer_obeys; [exact Hthrow| |reflexivity].
    apply core_foreign_error. }
  rewrite executeOperationAsync_eq in *.
  destruct (negb (isAbstractOperation (operation w))).
  - cbn in Ht. rewrite <- (app_nil_r (trace w)) in Ht at 1.
    apply app_inv_head in Ht. subst d. discriminate Hx.
  - set (w0 := set_context _ w) in *.
    destruct (Hexec w0) as [_ (d' & Hd & HP)].
    destruct (execute env rw rr None w0) as [[[]|e] w1]; cbn [fst snd] in *;
      rewrite Ht in Hd; apply app_inv_head in Hd; subst d';
      unfold foreign_error_surfaces in HP; rewrite executions_filter, Hx in HP;
      destruct HP as [-> HP]; split; try reflexivity; congruence.
Qed.

End Retry.
Lemma closed_client_not_connected_witness :
  withConnectedClient Examples.fails_then_succeeds done world_closed =
    (Throw (newError MongoNotConnectedError
              "Client must be connected before running operations"), world_closed).
Proof.
  exact (closed_client_not_connected Examples.fails_then_succeeds done world_closed
           eq_refl eq_refl).
Defined.

Lemma connect_clears_skip_ping_witness :
  withConnectedClient (first_fails (Other "x") (Ok Examples.server) true) done
    world_unconnected
  = done (set_trace [EvConnect None]
            (set_topology (Some Examples.topology)
               (set_skipPingOnConnect false world_unconnected))).
Proof.
  exact (connect_clears_skip_ping (first_fails (Other "x") (Ok Examples.server) true)
           done world_unconnected eq_refl eq_refl).
Defined.

Lemma expired_session_fails_fast_witness :
  withSession (checking (Ok Examples.server) true) done
    (world_with (session_of true true false false) [WRITE_OPERATION] None)
  = (Throw (newError MongoExpiredSessionError
              "Use of expired sessions is not permitted"),
     set_trace [checked]
       (world_with (session_of true true false false) [WRITE_OPERATION] None)).
Proof.
  exact (expired_session_fails_fast (checking (Ok Examples.server) true) done
           (world_with (session_of true true false false) [WRITE_OPERATION] None)
           Examples.topology 0%nat (session_of true true false false)
           eq_refl eq_refl eq_refl eq_refl eq_refl).
Defined.

Lemma transaction_requires_primary_witness :
  withSession (checking (Ok Examples.server) true) done
    (world_with (session_of true false false true) [READ_OPERATION] (Some secondary))
  = (Throw (newError MongoTransactionError
              ("Read preference in a transaction must be primary, not: "
                 +:+ ReadPreference_mode secondary)),
     set_trace [checked]
       (world_with (session_of true false false true) [READ_OPERATION]
          (Some secondary))).
Proof.
  refine (transaction_requires_primary (checking (Ok Examples.server) true) done
           (world_with (session_of true false false true) [READ_OPERATION]
              (Some secondary))
           Examples.topology 0%nat (session_of true false false true) secondary
           eq_refl eq_refl eq_refl eq_refl eq_refl eq_refl eq_refl _ eq_refl).
  discriminate.
Defined.

Lemma explicit_session_needs_support_witness :
  withSession (checking (Ok Examples.server) false) done
    (world_with (session_of true false false false) [WRITE_OPERATION] None)
  = (Throw (newError MongoCompatibilityError
              "Current topology does not support sessions"),
     set_trace [checked]
       (world_with (session_of true false false false) [WRITE_OPERATION] None)).
Proof.
  exact (explicit_session_needs_support (checking (Ok Examples.server) false) done
           (world_with (session_of true false false false) [WRITE_OPERATION] None)
           Examples.topology 0%nat (session_of true false false false)
           eq_refl eq_refl eq_refl eq_refl eq_refl).
Defined.

Lemma implicit_session_dropped_without_support_witness :
  let run :=
    withSession (checking (Ok Examples.server) false) done
      (world_with (session_of false false false false) [WRITE_OPERATION] None) in
  fst run = Ok tt
  /\ session (operation (snd run)) = None
  /\ ctx_session (context (snd run)) = None
  /\ trace (snd run) = [checked].
Proof.
  cbv zeta.
  rewrite (implicit_session_dropped_without_support
             (checking (Ok Examples.server) false) done
             (world_with (session_of false false false false) [WRITE_OPERATION] None)
             Examples.topology 0%nat (session_of false false false false)
             eq_refl eq_refl eq_refl eq_refl eq_refl).
  repeat split.
Defined.

Lemma unmarked_write_error_not_retried_witness :
  let env := first_fails (Mongo duplicateKey) (Ok Examples.server) true in
  let w := world_at_retry (session_of true false false false)
             [WRITE_OPERATION; RETRYABLE] in
  @nil (Outcome Thrown Document) = []
  /\ fst (core env Examples.isRetryableWriteError Examples.isRetryableReadError w)
     = Throw (Mongo duplicateKey).
Proof.
  intros env w.
  refine (unmarked_write_error_not_retried env Examples.isRetryableWriteError
            Examples.isRetryableReadError w eq_refl
            (trace (snd (core env Examples.isRetryableWriteError
                           Examples.isRetryableReadError w)))
            eq_refl duplicateKey [] eq_refl eq_refl _).
  discriminate.
Defined.

Lemma unmarked_read_error_not_retried_witness :
  let env := first_fails (Mongo duplicateKey) (Ok Examples.server) true in
  let w := world_at_retry (session_of true false false false)
             [READ_OPERATION; RETRYABLE] in
  @nil (Outcome Thrown Document) = []
  /\ fst (core env Examples.isRetryableWriteError Examples.isRetryableReadError w)
     = Throw (Mongo duplicateKey).
Proof.
  intros env w.
  exact (unmarked_read_error_not_retried env Examples.isRetryableWriteError
            Examples.isRetryableReadError w eq_refl eq_refl
            (trace (snd (core env Examples.isRetryableWriteError
                           Examples.isRetryableReadError w)))
            eq_refl duplicateKey [] eq_refl eq_refl).
Defined.

Lemma mmapv1_error_rewritten_not_retried_witness :
  let env := first_fails (Mongo mmapv1Refusal) (Ok Examples.server) true in
  let w := world_at_retry (session_of true false false false)
             [WRITE_OPERATION; RETRYABLE] in
  @nil (Outcome Thrown Document) = []
  /\ fst (core env Examples.isRetryableWriteError Examples.isRetryableReadError w)
     = Throw (newError MongoServerError MMAPv1_RETRY_WRITES_ERROR_MESSAGE).
Proof.
  intros env w.
  exact (mmapv1_error_rewritten_not_retried env Examples.isRetryableWriteError
            Examples.isRetryableReadError w Examples.topology 0%nat
            eq_refl eq_refl eq_refl eq_refl eq_refl
            (trace (snd (core env Examples.isRetryableWriteError
                           Examples.isRetryableReadError w)))
            eq_refl mmapv1Refusal [] eq_refl eq_refl).
Defined.

Lemma retry_needs_a_usable_server_witness :
  let env := first_fails (Mongo Examples.notPrimary) (Ok standalone) true in
  let w := world_at_retry (session_of true false false false)
             [WRITE_OPERATION; RETRYABLE] in
  @nil Event = []
  /\ fst (core env Examples.isRetryableWriteError Examples.isRetryableReadError w)
     = Throw (newError MongoUnexpectedServerResponseError
                "Selected server does not support retryable writes").
Proof.
  intros env w.
  exact (retry_needs_a_usable_server env Examples.isRetryableWriteError
            Examples.isRetryableReadError w
            (trace (snd (core env Examples.isRetryableWriteError
                           Examples.isRetryableReadError w)))
            eq_refl (Some Examples.server) (Some 0%nat)
            (Throw (Mongo Examples.notPrimary))
            (Some (byReadPreference primary)) (Some 0%nat) (Ok standalone) []
            eq_refl eq_refl eq_refl).
Defined.

Lemma retry_follows_new_selection_witness :
  let w := Examples.world_at_retry_stage in
  let d := trace (snd (core Examples.fails_then_succeeds
                         Examples.isRetryableWriteError
                         Examples.isRetryableReadError w)) in
  exists sa sb srv,
    List.filter isAttemptOrSelection d
    = [EvExecute sa (ctx_session (context w)) (Throw (Mongo Examples.notPrimary));
       EvSelectServer (ctx_selector (context w)) (ctx_session (context w)) (Ok srv);
       EvExecute sb (ctx_session (context w)) (Ok "inserted"%string)].
Proof.
  intros w d.
  exact (retry_follows_new_selection Examples.fails_then_succeeds
           Examples.isRetryableWriteError Examples.isRetryableReadError w d
           eq_refl (Throw (Mongo Examples.notPrimary)) (Ok "inserted"%string)
           eq_refl).
Defined.

Lemma retry_unpins_only_after_network_error_witness :
  let env := first_fails (Mongo connectionReset) (Ok Examples.server) true in
  let w := world_at_retry (session_of true false true false)
             [READ_OPERATION; RETRYABLE; CURSOR_CREATING] in
  let run := core env Examples.isRetryableWriteError Examples.isRetryableReadError w in
  unpins (trace (snd run)) = [(0%nat, true)]
  /\ exists s', sessions (snd run) !! 0%nat = Some s' /\ isPinned s' = false.
Proof.
  intros env w run.
  exact (proj2 (retry_unpins_only_after_network_error env
                  Examples.isRetryableWriteError Examples.isRetryableReadError w
                  (trace (snd run)) eq_refl)
           0%nat (session_of true false true false) connectionReset
           [Ok "done"%string]
           (Some (byReadPreference primary)) (Some 0%nat) (Ok Examples.server)
           eq_refl eq_refl eq_refl eq_refl eq_refl eq_refl eq_refl
           ltac:(vm_compute; tauto)).
Defined.

Lemma foreign_error_never_retried_witness :
  let env := first_fails (Other "boom") (Ok Examples.server) true in
  @nil (Outcome Thrown Document) = []
  /\ fst (executeOperationAsync env Examples.isRetryableWriteError
            Examples.isRetryableReadError Examples.world)
     = Throw (Other "boom").
Proof.
  intros env.
  exact (foreign_error_never_retried env Examples.isRetryableWriteError
           Examples.isRetryableReadError Examples.world
           (trace (snd (executeOperationAsync env Examples.isRetryableWriteError
                          Examples.isRetryableReadError Examples.world)))
           eq_refl "boom"%string [] eq_refl).
Defined.

End ExecuteOperationExtras.
